(** * jira-sizer: the sprint selector, the epic grouper, the command
    formatter and the run orchestrator of [src/main.ts]

    A shallow embedding of [src/main.ts].  Pure code is embedded as functions;
    code that logs, talks to the tracker or writes the output file runs in a
    small state-and-exception monad [IO] over a [World] (console and output
    file).  The tracker, the process environment, the command line and the
    platform's date parser are the variables of one section; the JavaScript
    engine - its sort, its print of a number, its [parseInt] - is a parameter
    of the program too, held to what ECMAScript requires of it. *)

From Stdlib Require Import String Ascii List ZArith NArith Bool Lia Arith.
From Stdlib Require Import Sorting.Sorted Sorting.Permutation.
From Stdlib Require Import DecimalString DecimalZ DecimalPos.
Import ListNotations.

Local Open Scope string_scope.
Local Open Scope Z_scope.

(** ** JavaScript values the program relies on *)

(** The double quote character, for messages that quote a status name. *)
Definition dquote : string := String (ascii_of_nat 34) EmptyString.

(** Line feed, the ["\n"] of the source. *)
Definition LF : string := String (ascii_of_nat 10) EmptyString.

(** [String.prototype.includes]: [sub] occurs somewhere in [s]. *)
Fixpoint includes (s sub : string) : bool :=
  String.prefix sub s
  || match s with
     | EmptyString => false
     | String _ s' => includes s' sub
     end.

(** The decimal numeral of an integer. *)
Definition decimal (n : Z) : string :=
  NilZero.string_of_int (Z.to_int n).

(** What a [throw] carries: a rejected request, a property read on
    [undefined], a failed file write. *)
Inductive Thrown : Type :=
| RequestError
| TypeError
| FsError.

(** A completion of a JavaScript block: a value, or an exception. *)
Inductive Completion (A : Type) : Type :=
| Normal (a : A)
| Throw (e : Thrown).
Arguments Normal {A} a.
Arguments Throw {A} e.

(** ** Data model (the interfaces of the source) *)

Record Sprint : Type := mkSprint {
  sprint_id : Z;
  sprint_name : string;
  sprint_state : string;
  startDate : option string;
  endDate : option string
}.

Record Parent : Type := mkParent {
  parent_key : string;
  parent_summary : string      (* parent.fields.summary *)
}.

Record JiraIssue : Type := mkIssue {
  issue_id : string;
  issue_key : string;
  summary : string;            (* fields.summary *)
  status_name : string;        (* fields.status.name *)
  parent : option Parent       (* fields.parent? *)
}.

(** One value of the [EpicGroup] object. *)
Record Group : Type := mkGroup {
  epicName : string;
  issues : list JiraIssue
}.

(** The [EpicGroup] object: its own properties in creation order. *)
Definition EpicGroup : Type := list (string * Group).

Definition MAX_SPRINTS_TO_FETCH : nat := 1000.

(** ** Sprint Selector: the decision of [getNextSprint] *)

Definition isFutureNonDevOps (sprint : Sprint) : bool :=
  (sprint_state sprint =? "future")%string
  && negb (includes (sprint_name sprint) "DevOps").

Definition isActive (sprint : Sprint) : bool :=
  (sprint_state sprint =? "active")%string.

(** Lines 150-183 of [getNextSprint], on the sprints [getAllSprints]
    returned. *)
Definition selectNextSprint (allSprints : list Sprint) : option Sprint :=
  let futureSprints := filter isFutureNonDevOps allSprints in
  if (0 <? length futureSprints)%nat then nth_error futureSprints 0
  else
    let activeSprints := filter isActive allSprints in
    if (0 <? length activeSprints)%nat then nth_error activeSprints 0
    else if (0 <? length allSprints)%nat then nth_error allSprints 0
    else None.

(** The selector as the specification words it: the first future sprint that
    is not a DevOps one, else the first active one, else the first one. *)
Definition selector_spec (allSprints : list Sprint) : option Sprint :=
  match find isFutureNonDevOps allSprints with
  | Some s => Some s
  | None =>
      match find isActive allSprints with
      | Some s => Some s
      | None => hd_error allSprints
      end
  end.

(** ** The stable insertion sort

    Each [element], from left to right, moves left past every [tmp] with
    [comparefn(tmp, element) > 0] and stops at the first one without.  The
    prefix already sorted is kept reversed, so that its head is the slot
    [j = i - 1] of the array.  It puts the index keys of an object in
    ascending order for [Object_entries], and it is the sort of the engine the
    examples run on. *)

Section InsertionSort.
Context {A : Type}.
Variable comparefn : A -> A -> Z.

Fixpoint sort_insert (element : A) (prefix_rev : list A) : list A :=
  match prefix_rev with
  | [] => [element]
  | tmp :: below =>
      if 0 <? comparefn tmp element
      then tmp :: sort_insert element below
      else element :: prefix_rev
  end.

Definition insertion_sort (a : list A) : list A :=
  rev (fold_left (fun prefix_rev element => sort_insert element prefix_rev)
         a []).
End InsertionSort.

(** ** The engine

    Three functions of the JavaScript engine are called by the program and
    not looked into here: [Array.prototype.sort], whose algorithm ECMAScript
    leaves to the engine, and whose result it leaves implementation-defined
    when the comparison function is not a consistent one;
    [Number.prototype.toString], on the identifiers and lengths the program
    prints; and [parseInt], which the program applies to the print of a
    number only.  A number is the integer it holds.  The program is
    parameterised by the engine; what ECMAScript requires of one is
    [Conforming] below, assumed where a property depends on it. *)
Class Engine : Type := {
  Array_sort : forall {A : Type}, (A -> A -> Z) -> list A -> list A;
  Number_toString : Z -> string;
  parseInt : string -> Z
}.

(** A consistent comparison function for the elements of an array, as
    ECMAScript defines it: [=], [<] and [>] by the sign of the result, [=]
    reflexive and symmetric, and the three of them transitive. *)
Definition consistent {A : Type} (comparefn : A -> A -> Z) (a : list A)
  : Prop :=
  (forall x, In x a -> comparefn x x = 0)
  /\ (forall x y, In x a -> In y a -> comparefn x y = 0 -> comparefn y x = 0)
  /\ (forall x y z, In x a -> In y a -> In z a ->
      comparefn x y = 0 -> comparefn y z = 0 -> comparefn x z = 0)
  /\ (forall x y z, In x a -> In y a -> In z a ->
      comparefn x y < 0 -> comparefn y z < 0 -> comparefn x z < 0)
  /\ (forall x y z, In x a -> In y a -> In z a ->
      0 < comparefn x y -> 0 < comparefn y z -> 0 < comparefn x z).

(** [Number.MAX_SAFE_INTEGER] and [Number.isSafeInteger], on integers. *)
Definition MAX_SAFE_INTEGER : Z := 2 ^ 53 - 1.

Definition isSafeInteger (n : Z) : bool := Z.abs n <=? MAX_SAFE_INTEGER.

(** What ECMAScript requires of the three functions.  [sort] rearranges
    the array; when the comparison function is consistent for its elements,
    no element is left behind one it compares as less than, and the elements
    that compare as equal keep their order (the sort is stable).  A safe
    integer is printed as its decimal numeral, and [parseInt] reads the
    numeral of a safe integer as that integer.  Nothing is required of the
    order [sort] leaves when the comparison function is not consistent, nor
    of the print of a number beyond the safe integers. *)
Record Conforming (engine : Engine) : Prop := {
  sort_rearranges :
    forall (A : Type) (comparefn : A -> A -> Z) (a : list A),
      Permutation (Array_sort comparefn a) a;
  sort_sorts :
    forall (A : Type) (comparefn : A -> A -> Z) (a : list A),
      consistent comparefn a ->
      StronglySorted (fun x y => comparefn x y <= 0) (Array_sort comparefn a);
  sort_stable :
    forall (A : Type) (comparefn : A -> A -> Z) (a : list A),
      consistent comparefn a ->
      forall x, In x a ->
        filter (fun y => comparefn x y =? 0) (Array_sort comparefn a)
        = filter (fun y => comparefn x y =? 0) a;
  toString_safe :
    forall n, isSafeInteger n = true -> Number_toString n = decimal n;
  parseInt_safe :
    forall n, isSafeInteger n = true -> parseInt (decimal n) = n
}.

(** An engine to run the examples on: the insertion sort, decimal numerals
    for every integer, and a [parseInt] that reads a decimal numeral.  It
    conforms; on what [Conforming] leaves open it is one engine among
    others. *)
Definition simple_engine : Engine := {|
  Array_sort := fun A => @insertion_sort A;
  Number_toString := decimal;
  parseInt := fun s =>
    match NilZero.int_of_string s with
    | Some d => Z.of_int d
    | None => 0
    end
|}.

(** [a.slice(0, n)]. *)
Definition slice0 {A} (n : nat) (a : list A) : list A := firstn n a.

(** ** A plain object used as a map: [epicGroups]

    [epicGroups] is created by [{}], so it inherits from [Object.prototype]:
    reading a key it does not own finds an inherited member when the key names
    one, and [undefined] otherwise. *)

Definition Object_prototype_keys : list string :=
  [ "constructor"; "__defineGetter__"; "__defineSetter__"; "hasOwnProperty";
    "__lookupGetter__"; "__lookupSetter__"; "isPrototypeOf";
    "propertyIsEnumerable"; "toString"; "valueOf"; "__proto__";
    "toLocaleString" ].

Definition isInherited (key : string) : bool :=
  existsb (String.eqb key) Object_prototype_keys.

(** What [epicGroups[key]] evaluates to. *)
Inductive PropertyValue : Type :=
| OwnGroup (g : Group)
| InheritedMember            (* truthy, and without an [issues] property *)
| undefined.

Fixpoint getOwn (o : EpicGroup) (key : string) : option Group :=
  match o with
  | [] => None
  | (k, g) :: o' => if (k =? key)%string then Some g else getOwn o' key
  end.

Definition get (o : EpicGroup) (key : string) : PropertyValue :=
  match getOwn o key with
  | Some g => OwnGroup g
  | None => if isInherited key then InheritedMember else undefined
  end.

(** [o[key] = g] for a key that [o] does not own creates the property, last
    in creation order; for a key it owns the value is replaced in place. *)
Fixpoint set (o : EpicGroup) (key : string) (g : Group) : EpicGroup :=
  match o with
  | [] => [(key, g)]
  | (k, g') :: o' =>
      if (k =? key)%string then (k, g) :: o' else (k, g') :: set o' key g
  end.

(** [o[key].issues.push(issue)] on an own group: the group object is
    mutated, its place in the object is not. *)
Fixpoint push_issue (o : EpicGroup) (key : string) (issue : JiraIssue)
  : EpicGroup :=
  match o with
  | [] => []
  | (k, g) :: o' =>
      if (k =? key)%string
      then (k, mkGroup (epicName g) (issues g ++ [issue])) :: o'
      else (k, g) :: push_issue o' key issue
  end.

(** [delete o[key]]. *)
Fixpoint delete (o : EpicGroup) (key : string) : EpicGroup :=
  match o with
  | [] => []
  | (k, g) :: o' =>
      if (k =? key)%string then o' else (k, g) :: delete o' key
  end.

(** A canonical array index: the decimal numeral, without a leading zero, of
    an integer below [2^32 - 1]. *)
Definition digit_of (c : ascii) : option N :=
  let n := N_of_ascii c in
  if ((48 <=? n) && (n <=? 57))%N then Some (n - 48)%N else None.

Fixpoint parse_digits (acc : N) (s : string) : option N :=
  match s with
  | EmptyString => Some acc
  | String c s' =>
      match digit_of c with
      | Some d => parse_digits (10 * acc + d)%N s'
      | None => None
      end
  end.

Definition arrayIndex (key : string) : option N :=
  match key with
  | EmptyString => None
  | String c rest =>
      if ((c =? "0")%char && negb (rest =? "")%string) then None
      else
        match parse_digits 0%N key with
        | Some n => if (n <=? 4294967294)%N then Some n else None
        | None => None
        end
  end.

Definition isArrayIndex (key : string) : bool :=
  match arrayIndex key with Some _ => true | None => false end.

Definition index_of (key : string) : Z :=
  match arrayIndex key with Some n => Z.of_N n | None => 0 end.

(** [Object.entries(o)]: the own properties whose key is an array index, in
    ascending numeric order, then the others in creation order. *)
Definition Object_entries (o : EpicGroup) : list (string * Group) :=
  insertion_sort (fun a b => index_of (fst a) - index_of (fst b))
    (filter (fun kv => isArrayIndex (fst kv)) o)
  ++ filter (fun kv => negb (isArrayIndex (fst kv))) o.

(** ** Epic Grouper: [organizeIssuesByEpic] *)

Definition NO_EPIC : string := "NO_EPIC".

(** The body of the [forEach] callback. *)
Definition organize_step (epicGroups : EpicGroup) (issue : JiraIssue)
  : Completion EpicGroup :=
  match parent issue with
  | Some p =>
      let epicKey := parent_key p in
      let epicName := parent_summary p in
      let epicGroups :=
        match get epicGroups epicKey with
        | undefined => set epicGroups epicKey (mkGroup epicName [])
        | _ => epicGroups
        end in
      match get epicGroups epicKey with
      | OwnGroup _ => Normal (push_issue epicGroups epicKey issue)
      | _ => Throw TypeError      (* [.issues] is undefined *)
      end
  | None =>
      match get epicGroups NO_EPIC with
      | OwnGroup _ => Normal (push_issue epicGroups NO_EPIC issue)
      | _ => Throw TypeError
      end
  end.

(** [issues.forEach(callback)]: the first exception ends the iteration. *)
Fixpoint organize_forEach (epicGroups : EpicGroup) (l : list JiraIssue)
  : Completion EpicGroup :=
  match l with
  | [] => Normal epicGroups
  | issue :: l' =>
      match organize_step epicGroups issue with
      | Normal epicGroups' => organize_forEach epicGroups' l'
      | Throw e => Throw e
      end
  end.

Definition organizeIssuesByEpic (l : list JiraIssue) : Completion EpicGroup :=
  let epicGroups := set [] NO_EPIC (mkGroup "Tasks without Epic" []) in
  match organize_forEach epicGroups l with
  | Normal epicGroups =>
      match get epicGroups NO_EPIC with
      | OwnGroup g =>
          if (length (issues g) =? 0)%nat
          then Normal (delete epicGroups NO_EPIC)
          else Normal epicGroups
      | _ => Throw TypeError
      end
  | Throw e => Throw e
  end.

(** ** Command Formatter: [generateSlackCommands] *)

(** [output] after the inner [forEach] over one group's issues. *)
Definition append_issue (JIRA_BASE_URL : string) (output : string)
  (issue : JiraIssue) : string :=
  let issueUrl := JIRA_BASE_URL ++ "/browse/" ++ issue_key issue in
  output ++ (("/pp " ++ issueUrl) ++ (" " ++ summary issue)) ++ LF.

Definition append_group (JIRA_BASE_URL : string) (output : string)
  (entry : string * Group) : string :=
  fold_left (append_issue JIRA_BASE_URL) (issues (snd entry)) output ++ LF.

Definition generateSlackCommands (JIRA_BASE_URL : string)
  (epicGroups : EpicGroup) : string :=
  fold_left (append_group JIRA_BASE_URL) (Object_entries epicGroups) "".

(** The formatter as the specification words it. *)
Definition command_line (baseUrl : string) (ticket : JiraIssue) : string :=
  "/pp " ++ baseUrl ++ "/browse/" ++ issue_key ticket ++ " " ++ summary ticket
  ++ LF.

Definition join (pieces : list string) : string :=
  fold_right append "" pieces.

Definition render_group (baseUrl : string) (entry : string * Group) : string :=
  join (map (command_line baseUrl) (issues (snd entry))) ++ LF.

Definition render (baseUrl : string) (groups : list (string * Group)) : string :=
  join (map (render_group baseUrl) groups).

(** ** The world the program runs in *)

Inductive LogEntry : Type :=
| console_log_entry (message : string)
| console_error_entry (message : string) (error : option Thrown).

(** The console, the content of [slack-commands.md] ([None]: no such file),
    and whether the file can be written. *)
Record World : Type := mkWorld {
  console : list LogEntry;
  slack_commands_md : option string;
  fs_read_only : bool
}.

(** A computation: [None] when the fuel of a loop ran out before the
    computation completed. *)
Definition IO (A : Type) : Type := World -> option (Completion A * World).

Definition ret {A} (a : A) : IO A := fun w => Some (Normal a, w).

Definition throw {A} (e : Thrown) : IO A := fun w => Some (Throw e, w).

Definition bind {A B} (m : IO A) (k : A -> IO B) : IO B :=
  fun w =>
    match m w with
    | Some (Normal a, w') => k a w'
    | Some (Throw e, w') => Some (Throw e, w')
    | None => None
    end.

Notation "x <- m ;; k" := (bind m (fun x => k))
  (at level 61, m at next level, right associativity).
Notation "m ;; k" := (bind m (fun _ => k))
  (at level 61, right associativity).

(** [try { body } catch (error) { handler }]. *)
Definition try_catch {A} (body : IO A) (handler : Thrown -> IO A) : IO A :=
  fun w =>
    match body w with
    | Some (Throw e, w') => handler e w'
    | r => r
    end.

(** A pure block that may throw, or not complete. *)
Definition lift {A} (c : option (Completion A)) : IO A :=
  fun w => match c with Some r => Some (r, w) | None => None end.

Definition console_log (message : string) : IO unit :=
  fun w => Some (Normal tt,
                 mkWorld (console w ++ [console_log_entry message])
                   (slack_commands_md w) (fs_read_only w)).

Definition console_error (message : string) (error : option Thrown) : IO unit :=
  fun w => Some (Normal tt,
                 mkWorld (console w ++ [console_error_entry message error])
                   (slack_commands_md w) (fs_read_only w)).

(** [fs.writeFileSync("slack-commands.md", data)]: the content is replaced,
    or the call throws and the file is as it was. *)
Definition writeFileSync (data : string) : IO unit :=
  fun w =>
    if fs_read_only w then Some (Throw FsError, w)
    else Some (Normal tt, mkWorld (console w) (Some data) (fs_read_only w)).

Fixpoint forEach {A} (l : list A) (callback : A -> IO unit) : IO unit :=
  match l with
  | [] => ret tt
  | x :: l' => callback x ;; forEach l' callback
  end.

(** *** The tracker's answers *)

(** The outcome of [await jiraClient.get(...)]: a rejected promise, or a
    response whose [data] may be missing. *)
Inductive Response (D : Type) : Type :=
| Rejected
| Resolved (data : option D).
Arguments Rejected {D}.
Arguments Resolved {D} data.

Record SprintPage : Type := mkPage {
  values : option (list Sprint);
  page_isLast : bool;          (* truthiness of [data.isLast] *)
  total : option Z
}.

Record SearchResult : Type := mkSearch {
  search_issues : option (list JiraIssue)
}.

(** What a field of untyped JSON may hold; the sprint field, when it is an
    array, holds sprints. *)
Inductive JsValue : Type :=
| js_undefined
| js_null
| js_boolean (b : bool)
| js_number (n : Z)
| js_string (s : string)
| js_object
| js_array (elements : list Sprint).

Definition truthy (v : JsValue) : bool :=
  match v with
  | js_undefined | js_null => false
  | js_boolean b => b
  | js_number n => negb (n =? 0)
  | js_string s => negb (s =? "")%string
  | js_object | js_array _ => true
  end.

Definition Array_isArray (v : JsValue) : bool :=
  match v with js_array _ => true | _ => false end.

(** [data.fields] of the ticket-detail answer ([None]: no [fields]), reduced
    to the field the program reads, [fields["cf[10007]"]]. *)
Record AgileIssue : Type := mkAgileIssue {
  agile_fields : option JsValue
}.

Record Http : Type := mkHttp {
  get_board_sprints : string -> Z -> Response SprintPage;
                                  (* board, [startAt] *)
  get_agile_issue : string -> Response AgileIssue;      (* ticket key *)
  get_search : string -> Response SearchResult          (* jql *)
}.

Definition await {D} (r : Response D) : IO (option D) :=
  match r with
  | Rejected => throw RequestError
  | Resolved data => ret data
  end.

Inductive Terminal : Type :=
| Done
| NoSprintFound
| NoIssuesFound
| Failed.

Record Outcome : Type := mkOutcome {
  exit_code : Z;
  final : World
}.

(** ** The program *)

Section Program.

(** [process.env] once [dotenv.config()] has run, [process.argv[2]], the
    tracker behind [jiraClient], and [new Date(s).getTime()] ([None]: NaN). *)
Variable process_env : string -> option string.
Variable process_argv_2 : option string.
Variable jiraClient : Http.
Variable Date_getTime : string -> option Z.
Context {engine : Engine}.

(** [process.env.X || ""]. *)
Definition or_empty (v : option string) : string :=
  match v with
  | Some s => s
  | None => ""
  end.

Definition JIRA_BASE_URL : string := or_empty (process_env "JIRA_BASE_URL").
Definition JIRA_EMAIL : string := or_empty (process_env "JIRA_EMAIL").
Definition JIRA_API_TOKEN : string := or_empty (process_env "JIRA_API_TOKEN").
Definition JIRA_BOARD_ID : string := or_empty (process_env "JIRA_BOARD_ID").

Definition not_string (s : string) : bool := (s =? "")%string.   (* [!s] *)

(** *** Sprint Repository: [getAllSprints] *)

Record FetchState : Type := mkFetch {
  sprints : list Sprint;
  startAt : Z;
  isLast : bool
}.

Definition maxResults : Z := 50.

(** One turn of the [while] loop: the request and the update. *)
Definition fetch_page (boardId : string) (st : FetchState)
  : Completion FetchState :=
  match get_board_sprints jiraClient boardId (startAt st) with
  | Rejected => Throw RequestError
  | Resolved (Some (mkPage (Some vs) last tot)) =>
      Normal
        (mkFetch (sprints st ++ vs)
           (startAt st + maxResults)
           (last
            || match tot with
               | Some t => t <=? startAt st + Z.of_nat (length vs)
               | None => false
               end))
  | Resolved _ => Normal (mkFetch (sprints st) (startAt st) true)
  end.

Definition fetch_continues (st : FetchState) : bool :=
  negb (isLast st) && (length (sprints st) <? MAX_SPRINTS_TO_FETCH)%nat.

(** The [while] loop, on [fuel] turns at most. *)
Fixpoint fetch_loop (fuel : nat) (boardId : string) (st : FetchState)
  : option (Completion (list Sprint)) :=
  if fetch_continues st then
    match fuel with
    | O => None
    | S fuel' =>
        match fetch_page boardId st with
        | Normal st' => fetch_loop fuel' boardId st'
        | Throw e => Some (Throw e)
        end
    end
  else Some (Normal (sprints st)).

Definition fetch_start : FetchState := mkFetch [] 0 false.

(** The comparison function handed to [sort]; a NaN result counts as 0. *)
Definition compareStartDate (a b : Sprint) : Z :=
  match startDate a, startDate b with
  | Some da, Some db =>
      if not_string da || not_string db then 0
      else
        match Date_getTime db, Date_getTime da with
        | Some tb, Some ta => tb - ta
        | _, _ => 0
        end
  | _, _ => 0
  end.

(** Lines 102-110: what [getAllSprints] returns from the collected
    sprints, [sort] being the engine's. *)
Definition sortSprints (collected : list Sprint) : list Sprint :=
  slice0 MAX_SPRINTS_TO_FETCH (Array_sort compareStartDate collected).

Definition getAllSprints (fuel : nat) (boardId : string) : IO (list Sprint) :=
  try_catch
    (collected <- lift (fetch_loop fuel boardId fetch_start) ;;
     ret (sortSprints collected))
    (fun error =>
       console_error ("Error fetching sprints for board " ++ boardId ++ ":")
         (Some error) ;;
       ret []).

(** *** [getNextSprint] *)

Definition or_not_set (d : option string) : string :=
  match d with
  | Some s => if not_string s then "Not set" else s
  | None => "Not set"
  end.

Definition length_toString {A} (l : list A) : string :=
  Number_toString (Z.of_nat (length l)).

Definition getNextSprint (fuel : nat) (boardId : string) : IO (option Sprint) :=
  try_catch
    (allSprints <- getAllSprints fuel boardId ;;
     console_log ("Found " ++ length_toString allSprints
                  ++ " total sprints for board " ++ boardId) ;;
     console_log "=== RECENT SPRINTS ===" ;;
     forEach allSprints (fun sprint =>
       console_log ("- " ++ sprint_name sprint ++ " (ID: "
                    ++ Number_toString (sprint_id sprint) ++ ")") ;;
       console_log ("  State: " ++ sprint_state sprint) ;;
       console_log ("  Start Date: " ++ or_not_set (startDate sprint)) ;;
       console_log ("  End Date: " ++ or_not_set (endDate sprint))) ;;
     let futureSprints := filter isFutureNonDevOps allSprints in
     console_log ("Found " ++ length_toString futureSprints
                  ++ " future sprints") ;;
     if (0 <? length futureSprints)%nat then ret (nth_error futureSprints 0)
     else
       console_log "No future sprints found, checking for active sprints..." ;;
       let activeSprints := filter isActive allSprints in
       if (0 <? length activeSprints)%nat then
         console_log ("Using active sprint: "
                      ++ match nth_error activeSprints 0 with
                         | Some s =>
                             sprint_name s ++ " (" ++ sprint_state s ++ ")"
                         | None => ""
                         end) ;;
         ret (nth_error activeSprints 0)
       else if (0 <? length allSprints)%nat then
         console_log ("No active sprints found. Using most recent sprint: "
                      ++ match nth_error allSprints 0 with
                         | Some s =>
                             sprint_name s ++ " (" ++ sprint_state s ++ ")"
                         | None => ""
                         end) ;;
         ret (nth_error allSprints 0)
       else ret None)
    (fun error =>
       console_error ("Error fetching next sprint for board " ++ boardId ++ ":")
         (Some error) ;;
       ret None).

(** *** Issue Query: [getReadyToSizeIssuesFromSprint] *)

Definition getReadyToSizeIssuesFromSprint (sprintId : Z) : IO (list JiraIssue) :=
  try_catch
    (let jql := "cf[10007] = " ++ Number_toString sprintId
                ++ " AND status = " ++ dquote ++ "Ready to Size" ++ dquote in
     console_log ("Using JQL query: " ++ jql) ;;
     data <- await (get_search jiraClient jql) ;;
     match data with
     | Some (mkSearch (Some found)) => ret found
     | _ => ret []
     end)
    (fun error =>
       console_error "Error fetching issues:" (Some error) ;;
       ret []).

(** *** [getSprintFromAgileAPI] *)

(** [agileResponse.data.fields["cf[10007]"]]: reading [fields] of a missing
    [data], or the key of a missing [fields], throws. *)
Definition read_sprint_field (data : option AgileIssue) : Completion JsValue :=
  match data with
  | Some (mkAgileIssue (Some v)) => Normal v
  | _ => Throw TypeError
  end.

Definition elements_of (v : JsValue) : list Sprint :=
  match v with
  | js_array elements => elements
  | _ => []
  end.

Definition getSprintFromAgileAPI (ticketKey : string) : IO (option Sprint) :=
  try_catch
    (data <- await (get_agile_issue jiraClient ticketKey) ;;
     customSprint <- lift (Some (read_sprint_field data)) ;;
     if truthy customSprint && Array_isArray customSprint
        && (0 <? length (elements_of customSprint))%nat
     then
       match nth_error (elements_of customSprint)
               (length (elements_of customSprint) - 1) with
       | Some sprint =>
           console_log ("Found sprint for ticket " ++ ticketKey
                        ++ " using custom field cf[10007]:") ;;
           console_log ("- Sprint Name: " ++ sprint_name sprint ++ " (ID: "
                        ++ Number_toString (sprint_id sprint) ++ ")") ;;
           console_log ("- Sprint State: " ++ sprint_state sprint) ;;
           console_log ("- Start Date: " ++ or_not_set (startDate sprint)) ;;
           console_log ("- End Date: " ++ or_not_set (endDate sprint)) ;;
           ret (Some (mkSprint (sprint_id sprint) (sprint_name sprint)
                        (sprint_state sprint) (startDate sprint)
                        (endDate sprint)))
       | None => throw TypeError
       end
     else
       console_log ("No sprint found for ticket " ++ ticketKey
                    ++ " in custom field cf[10007]") ;;
       ret None)
    (fun error =>
       console_error ("Error getting sprint from Agile API for ticket "
                      ++ ticketKey ++ ":") (Some error) ;;
       ret None).

(** *** Run Orchestrator: [main] and the module's top level *)

(** Lines 429-439 and 472-482: group, render, print. *)
Definition report (found : list JiraIssue) : IO string :=
  console_log ("Found " ++ length_toString found ++ " issues with " ++ dquote
               ++ "Ready to Size" ++ dquote ++ " status.") ;;
  console_log "Organizing issues by epic..." ;;
  epicGroups <- lift (Some (organizeIssuesByEpic found)) ;;
  let slackCommands := generateSlackCommands JIRA_BASE_URL epicGroups in
  console_log (LF ++ "Slack Commands for Poker Planning:") ;;
  console_log "--------------------------------" ;;
  console_log slackCommands ;;
  ret slackCommands.

Definition fetching_message : string :=
  "Fetching issues with " ++ dquote ++ "Ready to Size" ++ dquote
  ++ " status...".

(** Lines 397-446 of [main]: a ticket was named on the command line. *)
Definition ticket_mode (ticketKey : string) : IO Terminal :=
  console_log ("Ticket key specified: " ++ ticketKey) ;;
  console_log "Getting sprint information from Agile API..." ;;
  sprint <- getSprintFromAgileAPI ticketKey ;;
  match sprint with
  | None =>
      console_error ("No sprint found for ticket " ++ ticketKey ++ ".") None ;;
      ret NoSprintFound
  | Some sprint =>
      console_log ("Using sprint from ticket " ++ ticketKey ++ ": "
                   ++ sprint_name sprint ++ " (ID: "
                   ++ Number_toString (sprint_id sprint) ++ ")") ;;
      console_log fetching_message ;;
      found <- getReadyToSizeIssuesFromSprint (sprint_id sprint) ;;
      if (length found =? 0)%nat then
        console_log ("No issues with " ++ dquote ++ "Ready to Size" ++ dquote
                     ++ " status found in the sprint.") ;;
        ret NoIssuesFound
      else
        slackCommands <- report found ;;
        writeFileSync slackCommands ;;
        console_log "Commands also saved to slack-commands.md" ;;
        ret Done
  end.

(** Lines 448-482 of [main]: the configured board. *)
Definition board_mode (fuel : nat) : IO Terminal :=
  let boardIdToUse := JIRA_BOARD_ID in
  console_log (LF ++ "===== PROCEEDING WITH BOARD ID " ++ boardIdToUse
               ++ " =====") ;;
  console_log "Fetching next sprint..." ;;
  nextSprint <- getNextSprint fuel boardIdToUse ;;
  match nextSprint with
  | None =>
      console_error "No future sprint found." None ;;
      ret NoSprintFound
  | Some nextSprint =>
      console_log ("Found next sprint: " ++ sprint_name nextSprint ++ " (ID: "
                   ++ Number_toString (sprint_id nextSprint) ++ ")") ;;
      console_log fetching_message ;;
      found <- getReadyToSizeIssuesFromSprint (sprint_id nextSprint) ;;
      if (length found =? 0)%nat then
        console_log ("No issues with " ++ dquote ++ "Ready to Size" ++ dquote
                     ++ " status found in the next sprint.") ;;
        ret NoIssuesFound
      else
        _ <- report found ;;
        ret Done
  end.

(** [if (ticketKey)]: an argument was given and is not the empty string. *)
Definition ticket_argument : option string :=
  match process_argv_2 with
  | Some ticketKey => if not_string ticketKey then None else Some ticketKey
  | None => None
  end.

(** [main]; the value tells which [return] ended it. *)
Definition main (fuel : nat) : IO Terminal :=
  try_catch
    (match ticket_argument with
     | Some ticketKey => ticket_mode ticketKey
     | None => board_mode fuel
     end)
    (fun error =>
       console_error "An error occurred:" (Some error) ;;
       ret Failed).

(** The module from top to bottom: the check of the environment, which
    ends the process with code 1, then [main()].  The process ends with
    code 0 once [main] has returned; a rejection of the promise of [main]
    would be unhandled and end it with code 1. *)
Definition config_missing : bool :=
  not_string JIRA_BASE_URL || not_string JIRA_EMAIL
  || not_string JIRA_API_TOKEN || not_string JIRA_BOARD_ID.

Definition program (fuel : nat) (w : World) : option Outcome :=
  if config_missing then
    match console_error
            "Missing required environment variables. Please check your .env file."
            None w with
    | Some (_, w') => Some (mkOutcome 1 w')
    | None => None
    end
  else
    match main fuel w with
    | Some (Normal _, w') => Some (mkOutcome 0 w')
    | Some (Throw _, w') => Some (mkOutcome 1 w')
    | None => None
    end.

End Program.

(** ** Notions the properties are stated with *)

Section Notions.

Variable jiraClient : Http.
Variable Date_getTime : string -> option Z.

(** The time the comparison function reads in a sprint: none when the
    start date is missing, empty, or not a date. *)
Definition start_time (s : Sprint) : option Z :=
  match startDate s with
  | Some d => if not_string d then None else Date_getTime d
  | None => None
  end.

Definition dated (s : Sprint) : bool :=
  match start_time s with Some _ => true | None => false end.

(** [a] does not start earlier than [b], when both have a start time. *)
Definition not_earlier (a b : Sprint) : Prop :=
  match start_time a, start_time b with
  | Some ta, Some tb => tb <= ta
  | _, _ => True
  end.

(** Non-increasing by start date: of two sprints that both have a start
    time, the one listed first does not start earlier than the other. *)
Definition sorted_by_start_date (l : list Sprint) : Prop :=
  StronglySorted not_earlier l.




(** The state of the loop of [getAllSprints] after [k] turns that all
    completed; [sprints] of it are the sprints collected so far. *)
Fixpoint turns (k : nat) (boardId : string) (st : FetchState)
  : option FetchState :=
  match k with
  | O => Some st
  | S k' =>
      if fetch_continues st then
        match fetch_page jiraClient boardId st with
        | Normal st' => turns k' boardId st'
        | Throw _ => None
        end
      else None
  end.

(** The tracker never answers with an empty page that is not the last
    one. *)
Definition productive (boardId : string) : Prop :=
  forall at_ last tot,
    get_board_sprints jiraClient boardId at_
    = Resolved (Some (mkPage (Some []) last tot)) ->
    last || match tot with
            | Some t => t <=? at_ + Z.of_nat 0
            | None => false
            end = true.

End Notions.

(** The key of the group a ticket belongs to. *)
Definition group_key (issue : JiraIssue) : string :=
  match parent issue with
  | Some p => parent_key p
  | None => NO_EPIC
  end.

Definition in_group (key : string) (issue : JiraIssue) : bool :=
  (group_key issue =? key)%string.

Definition references (key : string) (issue : JiraIssue) : bool :=
  match parent issue with
  | Some p => (parent_key p =? key)%string
  | None => false
  end.

(** The parent keys of a ticket list are ordinary keys: none names a member
    of [Object.prototype]. *)
Definition plain_keys (l : list JiraIssue) : Prop :=
  forall issue p,
    In issue l -> parent issue = Some p -> isInherited (parent_key p) = false.

Definition no_sentinel_key (l : list JiraIssue) : Prop :=
  forall issue p,
    In issue l -> parent issue = Some p -> parent_key p <> NO_EPIC.

Definition no_index_key (l : list JiraIssue) : Prop :=
  forall issue p,
    In issue l -> parent issue = Some p -> isArrayIndex (parent_key p) = false.

(** What holds of [epicGroups] once the tickets [seen] went through the
    [forEach] of [organizeIssuesByEpic]. *)
Record grouped (epicGroups : EpicGroup) (seen : list JiraIssue) : Prop := {
  grouped_keys : NoDup (map fst epicGroups);
  grouped_head : exists g rest, epicGroups = (NO_EPIC, g) :: rest;
  grouped_issues : forall k g,
    getOwn epicGroups k = Some g -> issues g = filter (in_group k) seen;
  grouped_all : forall issue,
    In issue seen -> getOwn epicGroups (group_key issue) <> None;
  grouped_name : forall k g,
    getOwn epicGroups k = Some g -> k <> NO_EPIC ->
    exists first p,
      find (references k) seen = Some first /\ parent first = Some p
      /\ epicName g = parent_summary p
}.

(** Properties of computations. *)
Definition post {A} (m : IO A) (w : World)
  (Q : Completion A -> World -> Prop) : Prop :=
  forall r w', m w = Some (r, w') -> Q r w'.

Definition completes {A} (m : IO A) : Prop :=
  forall w, exists r w', m w = Some (r, w').

(** [w'] is [w] with more lines on the console: the file is as it was. *)
Definition logged_only (w w' : World) : Prop :=
  slack_commands_md w' = slack_commands_md w
  /\ fs_read_only w' = fs_read_only w
  /\ exists more, console w' = (console w ++ more)%list.

Definition only_logs {A} (m : IO A) : Prop :=
  forall w, post m w (fun _ w' => logged_only w w').

Definition last_entry (w : World) : option LogEntry :=
  nth_error (console w) (length (console w) - 1).

(** The last line on the console tells how a run that did not reach the
    report ended. *)
Definition failure_logged (t : Terminal) (w : World) : Prop :=
  match t with
  | Done => True
  | NoSprintFound =>
      exists message, last_entry w = Some (console_error_entry message None)
  | NoIssuesFound =>
      exists message, last_entry w = Some (console_log_entry message)
  | Failed =>
      exists error,
        last_entry w
        = Some (console_error_entry "An error occurred:" (Some error))
  end.

(** What a run that reached the report has printed: the text rendered from
    the groups of the tickets found. *)
Definition reported (baseUrl : string) (w' : World) (rendered : string) : Prop :=
  exists found epicGroups,
    organizeIssuesByEpic found = Normal epicGroups
    /\ rendered = generateSlackCommands baseUrl epicGroups
    /\ In (console_log_entry rendered) (console w').

(** ** Inputs of the examples *)

Module Examples.

(** The platform's [Date] on three ISO dates, in milliseconds. *)
Definition Date_getTime (d : string) : option Z :=
  if (d =? "2024-01-01T00:00:00.000Z")%string then Some 1704067200000
  else if (d =? "2024-02-01T00:00:00.000Z")%string then Some 1706745600000
  else if (d =? "2024-03-01T00:00:00.000Z")%string then Some 1709251200000
  else None.

Definition january : Sprint :=
  mkSprint 1 "Sprint 1" "closed" (Some "2024-01-01T00:00:00.000Z") None.
Definition march : Sprint :=
  mkSprint 3 "Sprint 3" "future" (Some "2024-03-01T00:00:00.000Z") None.
Definition february : Sprint :=
  mkSprint 4 "Sprint 4" "active" (Some "2024-02-01T00:00:00.000Z") None.

Definition S1 : Sprint := mkSprint 1 "S1" "closed" None None.
Definition S2 : Sprint := mkSprint 2 "S2" "active" None None.

Definition T1 : JiraIssue :=
  mkIssue "10001" "T-1" "Fix bug" "Ready to Size"
    (Some (mkParent "EPIC-1" "Login")).
Definition T2 : JiraIssue :=
  mkIssue "10002" "T-2" "Write docs" "Ready to Size" None.
Definition T3 : JiraIssue :=
  mkIssue "10003" "T-3" "Rename field" "Ready to Size"
    (Some (mkParent "EPIC-1" "Sign-in")).
Definition T_sentinel : JiraIssue :=
  mkIssue "10004" "T-4" "Clean up" "Ready to Size"
    (Some (mkParent "NO_EPIC" "Leftovers")).
Definition T_index : JiraIssue :=
  mkIssue "10005" "T-5" "Add index" "Ready to Size"
    (Some (mkParent "7" "Seventh")).

(** A tracker whose first page of board 42 holds one sprint and is not the
    last, and whose second page fails. *)
Definition failing_second_page : Http :=
  mkHttp
    (fun boardId at_ =>
       if (at_ =? 0) then Resolved (Some (mkPage (Some [january]) false (Some 100)))
       else Rejected)
    (fun _ => Rejected)
    (fun _ => Rejected).

(** A tracker with one page of three sprints for every board, sprints [S1]
    and [S2] in the sprint field of every ticket, and two tickets ready to
    size in every sprint. *)
Definition tracker : Http :=
  mkHttp
    (fun boardId at_ =>
       Resolved (Some (mkPage (Some [january; march; february]) true
                         (Some 3))))
    (fun ticketKey => Resolved (Some (mkAgileIssue (Some (js_array [S1; S2])))))
    (fun jql => Resolved (Some (mkSearch (Some [T1; T2])))).


(** A tracker that does not answer. *)
Definition unreachable : Http :=
  mkHttp (fun _ _ => Rejected) (fun _ => Rejected) (fun _ => Rejected).

Definition env (name : string) : option string :=
  if (name =? "JIRA_BASE_URL")%string then Some "https://x.atlassian.net"
  else if (name =? "JIRA_EMAIL")%string then Some "dev@example.com"
  else if (name =? "JIRA_API_TOKEN")%string then Some "token"
  else if (name =? "JIRA_BOARD_ID")%string then Some "42"
  else None.

Definition no_env (name : string) : option string := None.

Definition fresh : World := mkWorld [] None false.
Definition stale : World := mkWorld [] (Some "old content") false.

End Examples.

(** ** The diagnostic path: [getAllBoards] and [checkSpecificTicket] *)

Record Board : Type := mkBoard {
  board_id : Z;
  board_name : string
}.

Record BoardsPage : Type := mkBoards {
  board_values : option (list Board)
}.

(** [data] of the answer to [/rest/api/3/issue/<key>], reduced to what the
    program reads: [fields.status.name] and [fields["cf[10007]"]]. *)
Record TicketDetail : Type := mkTicketDetail {
  detail_status : string;
  detail_cf10007 : JsValue
}.

(** The two requests only the diagnostic path makes. *)
Record Diagnostics : Type := mkDiagnostics {
  get_boards : Response BoardsPage;
  get_issue : string -> Response TicketDetail      (* ticket key *)
}.

Section Diagnostic.

Variable jiraClient : Http.
Variable diagnostics : Diagnostics.
Variable Date_getTime : string -> option Z.
Context {engine : Engine}.

Definition getAllBoards : IO (list Board) :=
  try_catch
    (data <- await (get_boards diagnostics) ;;
     match data with
     | Some (mkBoards (Some boards)) => ret boards
     | _ => ret []
     end)
    (fun error =>
       console_error "Error fetching boards:" (Some error) ;;
       ret []).

(** The [for] loop of [checkSpecificTicket] over the boards: [Some] of the
    board's id when the loop ends by the [return] in its body. *)
Fixpoint find_board (fuel : nat) (boards : list Board) (sprint : Sprint)
  : IO (option Z) :=
  match boards with
  | [] => ret None
  | board :: rest =>
      console_log ("Checking board: " ++ board_name board ++ " (ID: "
                   ++ Number_toString (board_id board) ++ ")") ;;
      found <- getAllSprints jiraClient Date_getTime fuel
                 (Number_toString (board_id board)) ;;
      match find (fun s => sprint_id s =? sprint_id sprint) found with
      | Some matchingSprint =>
          console_log ("Found matching sprint on board: " ++ board_name board
                       ++ " (ID: " ++ Number_toString (board_id board) ++ ")") ;;
          console_log ("Using board ID " ++ Number_toString (board_id board)
                       ++ " for further processing") ;;
          ret (Some (board_id board))
      | None => find_board fuel rest sprint
      end
  end.

(** [sprintId ? parseInt(sprintId.toString()) : null]; of the numbers an
    identifier can be, 0 is the falsy one. *)
Definition sprintId_result (sprintId : option Z) : option Z :=
  match sprintId with
  | Some id =>
      if id =? 0 then None else Some (parseInt (Number_toString id))
  | None => None
  end.

Definition checkSpecificTicket (fuel : nat) (ticketKey : string)
  : IO (option Z) :=
  try_catch
    (console_log (LF ++ "===== CHECKING TICKET " ++ ticketKey ++ " =====") ;;
     data <- await (get_issue diagnostics ticketKey) ;;
     ticket <- lift (Some match data with
                          | Some t => Normal t
                          | None => Throw TypeError
                          end) ;;
     console_log ("Status: " ++ detail_status ticket) ;;
     let customSprint := detail_cf10007 ticket in
     looked <-
       (if truthy customSprint && Array_isArray customSprint
           && (0 <? length (elements_of customSprint))%nat
        then
          match nth_error (elements_of customSprint)
                  (length (elements_of customSprint) - 1) with
          | Some sprint =>
              console_log ("Sprint: " ++ sprint_name sprint ++ " (ID: "
                           ++ Number_toString (sprint_id sprint) ++ ")") ;;
              console_log ("Sprint State: " ++ sprint_state sprint) ;;
              console_log "Searching for the board containing this sprint..." ;;
              boards <- getAllBoards ;;
              console_log ("Found " ++ length_toString boards
                           ++ " boards in total") ;;
              returned <- find_board fuel boards sprint ;;
              ret (Some (sprint_id sprint), returned)
          | None => throw TypeError
          end
        else
          console_log "This ticket is not in any sprint" ;;
          ret (None, None)) ;;
     match snd looked with
     | Some boardId => ret (Some boardId)
     | None =>
         let sprintId := fst looked in
         let searchQuery := "key = " ++ ticketKey ++ " AND status = " ++ dquote
                            ++ "Ready to Size" ++ dquote in
         console_log (LF ++ "Trying direct search with: " ++ searchQuery) ;;
         searchResult <- await (get_search jiraClient searchQuery) ;;
         found <- lift (Some match searchResult with
                             | Some r => Normal (search_issues r)
                             | None => Throw TypeError
                             end) ;;
         match found with
         | Some (_ :: _) => console_log "Found the ticket with direct search!"
         | _ => console_log "Direct search failed to find the ticket"
         end ;;
         ret (sprintId_result sprintId)
     end)
    (fun error =>
       console_error "Error checking specific ticket:" (Some error) ;;
       ret None).

End Diagnostic.

(** ** Further notions *)

(** The query [getReadyToSizeIssuesFromSprint] sends for a sprint. *)
Definition ready_to_size_jql {engine : Engine} (sprintId : Z) : string :=
  "cf[10007] = " ++ Number_toString sprintId ++ " AND status = " ++ dquote
  ++ "Ready to Size" ++ dquote.

(** What [getReadyToSizeIssuesFromSprint] returns: the tickets of the
    answer, or none. *)
Definition ready_value {engine : Engine} (jiraClient : Http) (sprintId : Z)
  : list JiraIssue :=
  match get_search jiraClient (ready_to_size_jql sprintId) with
  | Resolved (Some (mkSearch (Some found))) => found
  | _ => []
  end.

(** The ticket-detail request of [getSprintFromAgileAPI] fails, or its
    answer has no [data] or no [fields]. *)
Definition agile_lookup_fails (jiraClient : Http) (ticketKey : string)
  : Prop :=
  get_agile_issue jiraClient ticketKey = Rejected
  \/ get_agile_issue jiraClient ticketKey = Resolved None
  \/ get_agile_issue jiraClient ticketKey
     = Resolved (Some (mkAgileIssue None)).

(** The sprints a page answer carries into the collection. *)
Definition page_values (jiraClient : Http) (boardId : string) (at_ : Z)
  : list Sprint :=
  match get_board_sprints jiraClient boardId at_ with
  | Resolved (Some (mkPage (Some vs) _ _)) => vs
  | _ => []
  end.

(** The offsets of the first [k] requests of the loop: 0, 50, 100, ... *)
Definition offsets (k : nat) : list Z :=
  map (fun i => maxResults * Z.of_nat i) (seq 0 k).

(** What [getAllBoards] returns. *)
Definition boards_value (diagnostics : Diagnostics) : list Board :=
  match get_boards diagnostics with
  | Resolved (Some (mkBoards (Some boards))) => boards
  | _ => []
  end.

(** Some ticket of the list has a parent whose key names a member of
    [Object.prototype]. *)
Definition has_inherited_key (l : list JiraIssue) : bool :=
  existsb (fun issue =>
             match parent issue with
             | Some p => isInherited (parent_key p)
             | None => false
             end) l.

(** The tracker pages the sprints [all] of a board as asked: at offset
    [at_] it answers with the 50 sprints from there on and the total, and says
    "last" only when nothing follows. *)
Definition serves_pages (jiraClient : Http) (boardId : string)
  (all : list Sprint) : Prop :=
  forall k : nat,
    exists last,
      get_board_sprints jiraClient boardId (maxResults * Z.of_nat k)
      = Resolved
          (Some (mkPage (Some (firstn 50 (skipn (50 * k) all))) last
                   (Some (Z.of_nat (length all)))))
      /\ (last = true -> (length all <= 50 * k + 50)%nat).

(** The tracker answers every request for the board with an empty page
    that is not the last and has no total, or a total never reached. *)
Definition stalls (jiraClient : Http) (boardId : string) : Prop :=
  forall at_,
    exists tot,
      get_board_sprints jiraClient boardId at_
      = Resolved (Some (mkPage (Some []) false tot))
      /\ match tot with Some t => at_ < t | None => True end.

(** What [getAllSprints] returns, when it returns. *)
Definition getAllSprints_value {engine : Engine} (jiraClient : Http)
  (Date_getTime : string -> option Z) (fuel : nat) (boardId : string)
  : option (list Sprint) :=
  match fetch_loop jiraClient fuel boardId fetch_start with
  | Some (Normal collected) => Some (sortSprints Date_getTime collected)
  | Some (Throw _) => Some []
  | None => None
  end.

(** The sprints of the board, as [getAllSprints] returns them, hold one with
    the identifier [id]. *)
Definition board_lists {engine : Engine} (jiraClient : Http)
  (Date_getTime : string -> option Z)
  (fuel : nat) (id : Z) (board : Board) : Prop :=
  exists found s,
    getAllSprints_value jiraClient Date_getTime fuel
      (Number_toString (board_id board)) = Some found
    /\ In s found /\ sprint_id s = id.

Definition board_lacks {engine : Engine} (jiraClient : Http)
  (Date_getTime : string -> option Z)
  (fuel : nat) (id : Z) (board : Board) : Prop :=
  exists found,
    getAllSprints_value jiraClient Date_getTime fuel
      (Number_toString (board_id board)) = Some found
    /\ forall s, In s found -> sprint_id s <> id.

(** The keys of a list in the order of their first occurrence. *)
Fixpoint first_occurrences (seen keys : list string) : list string :=
  match keys with
  | [] => []
  | k :: rest =>
      if existsb (String.eqb k) seen then first_occurrences seen rest
      else k :: first_occurrences (k :: seen) rest
  end.

(** The tickets of a mapping in the order the formatter renders them. *)
Definition rendered_tickets (epicGroups : EpicGroup) : list JiraIssue :=
  flat_map (fun entry => issues (snd entry)) (Object_entries epicGroups).

Module MoreExamples.

(** A board of 120 sprints, served in pages of 50. *)
Definition sprint_number (n : nat) : Sprint :=
  mkSprint (Z.of_nat n) "Sprint" "closed" None None.

Definition long_board : list Sprint := map sprint_number (seq 0 120).

Definition paging_tracker : Http :=
  mkHttp
    (fun boardId at_ =>
       Resolved
         (Some (mkPage
                  (Some (firstn 50 (skipn (Z.to_nat at_) long_board)))
                  (120 <=? at_ + 50)
                  (Some 120))))
    (fun _ => Rejected)
    (fun _ => Rejected).

(** A tracker that answers every page request with an empty page that is
    not the last. *)
Definition stalling_tracker : Http :=
  mkHttp
    (fun boardId at_ => Resolved (Some (mkPage (Some []) false None)))
    (fun _ => Rejected)
    (fun _ => Rejected).

Definition T_inherited : JiraIssue :=
  mkIssue "10006" "T-6" "Override" "Ready to Size"
    (Some (mkParent "toString" "Printing")).

Definition boards : list Board := [mkBoard 7 "Ops"; mkBoard 42 "Dev"].

(** Board 7 lists no sprint, board 42 lists sprint 3. *)
Definition two_boards : Http :=
  mkHttp
    (fun boardId at_ =>
       if (boardId =? "42")%string
       then Resolved (Some (mkPage (Some [Examples.march]) true (Some 1)))
       else Resolved (Some (mkPage (Some []) true (Some 0))))
    (fun _ => Rejected)
    (fun _ => Resolved (Some (mkSearch (Some [])))).

Definition ticket_in_march : Diagnostics :=
  mkDiagnostics
    (Resolved (Some (mkBoards (Some boards))))
    (fun _ =>
       Resolved (Some (mkTicketDetail "Ready to Size"
                         (js_array [Examples.january; Examples.march])))).

Definition ticket_in_february : Diagnostics :=
  mkDiagnostics
    (Resolved (Some (mkBoards (Some boards))))
    (fun _ =>
       Resolved (Some (mkTicketDetail "Ready to Size"
                         (js_array [Examples.february])))).

Definition ticket_without_sprint : Diagnostics :=
  mkDiagnostics
    (Resolved (Some (mkBoards (Some boards))))
    (fun _ =>
       Resolved (Some (mkTicketDetail "Ready to Size" (js_array [])))).

End MoreExamples.

(** The examples run on [simple_engine]. *)
#[global] Existing Instance simple_engine.

(** ** Theorems *)

Lemma filter_head_find {A} (p : A -> bool) (l : list A) :
  nth_error (filter p l) 0 = find p l.
Proof.
  induction l as [|x l IH]; simpl; [reflexivity|].
  destruct (p x); simpl; [reflexivity | exact IH].
Qed.

Lemma filter_empty_find {A} (p : A -> bool) (l : list A) :
  (0 <? length (filter p l))%nat = false -> find p l = None.
Proof.
  intros H. rewrite <- filter_head_find.
  destruct (filter p l); [reflexivity | discriminate].
Qed.

Lemma filter_nonempty_find {A} (p : A -> bool) (l : list A) :
  (0 <? length (filter p l))%nat = true -> exists x, find p l = Some x.
Proof.
  intros H. rewrite <- filter_head_find.
  destruct (filter p l) as [|x ?]; [discriminate | now exists x].
Qed.

(** ** The object model *)

Lemma getOwn_set o k g k' :
  getOwn (set o k g) k' = if (k =? k')%string then Some g else getOwn o k'.
Proof.
  induction o as [|[k0 g0] o IH]; simpl; [reflexivity|].
  destruct (k0 =? k)%string eqn:E0; simpl.
  - apply String.eqb_eq in E0. subst k0.
    destruct (k =? k')%string; reflexivity.
  - rewrite IH. destruct (k0 =? k')%string eqn:E1; [|reflexivity].
    apply String.eqb_eq in E1. subst k'.
    rewrite String.eqb_sym, E0. reflexivity.
Qed.

Lemma set_fresh o k g :
  getOwn o k = None -> set o k g = (o ++ [(k, g)])%list.
Proof.
  induction o as [|[k0 g0] o IH]; simpl; [reflexivity|].
  destruct (k0 =? k)%string; [discriminate|].
  intros H. rewrite (IH H). reflexivity.
Qed.

Lemma getOwn_push o k issue k' :
  getOwn (push_issue o k issue) k'
  = if (k =? k')%string
    then option_map (fun g => mkGroup (epicName g) (issues g ++ [issue]))
           (getOwn o k')
    else getOwn o k'.
Proof.
  induction o as [|[k0 g0] o IH]; simpl.
  - destruct (k =? k')%string; reflexivity.
  - destruct (k0 =? k)%string eqn:E0; simpl.
    + apply String.eqb_eq in E0. subst k0.
      destruct (k =? k')%string; reflexivity.
    + rewrite IH. destruct (k0 =? k')%string eqn:E1; [|reflexivity].
      apply String.eqb_eq in E1. subst k'.
      rewrite String.eqb_sym, E0. reflexivity.
Qed.

Lemma keys_push o k issue : map fst (push_issue o k issue) = map fst o.
Proof.
  induction o as [|[k0 g0] o IH]; simpl; [reflexivity|].
  destruct (k0 =? k)%string; simpl; [reflexivity | now rewrite IH].
Qed.

Lemma getOwn_None_keys o k : getOwn o k = None <-> ~ In k (map fst o).
Proof.
  induction o as [|[k0 g0] o IH]; simpl.
  - tauto.
  - destruct (k0 =? k)%string eqn:E.
    + apply String.eqb_eq in E. split; [discriminate | tauto].
    + apply String.eqb_neq in E. tauto.
Qed.

Lemma getOwn_In o k g : NoDup (map fst o) -> (getOwn o k = Some g <-> In (k, g) o).
Proof.
  induction o as [|[k0 g0] o IH]; simpl; intros ND.
  - split; [discriminate | tauto].
  - inversion ND as [|? ? Hnot ND']; subst.
    destruct (k0 =? k)%string eqn:E.
    + apply String.eqb_eq in E. subst k0. split.
      * intros [= ->]. now left.
      * intros [[= ->]|Hin]; [reflexivity|].
        exfalso. apply Hnot. change k with (fst (k, g)). now apply in_map.
    + apply String.eqb_neq in E. rewrite (IH ND'). split; [tauto|].
      intros [[= -> _]|Hin]; [congruence | exact Hin].
Qed.

Lemma getOwn_delete o k k' :
  NoDup (map fst o) ->
  getOwn (delete o k) k' = if (k =? k')%string then None else getOwn o k'.
Proof.
  induction o as [|[k0 g0] o IH]; simpl; intros ND.
  - destruct (k =? k')%string; reflexivity.
  - inversion ND as [|? ? Hnot ND']; subst.
    destruct (k0 =? k)%string eqn:E0; simpl.
    + apply String.eqb_eq in E0. subst k0.
      destruct (k =? k')%string eqn:E1; [|reflexivity].
      apply String.eqb_eq in E1. subst k'. now apply getOwn_None_keys.
    + rewrite (IH ND'). destruct (k0 =? k')%string eqn:E1; [|reflexivity].
      apply String.eqb_eq in E1. subst k'.
      rewrite String.eqb_sym, E0. reflexivity.
Qed.

Lemma keys_delete o k : incl (map fst (delete o k)) (map fst o).
Proof.
  induction o as [|[k0 g0] o IH]; simpl; [apply incl_refl|].
  destruct (k0 =? k)%string; simpl.
  - apply incl_tl, incl_refl.
  - intros x [<-|Hx]; [now left | right; now apply IH].
Qed.

Lemma NoDup_keys_delete o k : NoDup (map fst o) -> NoDup (map fst (delete o k)).
Proof.
  induction o as [|[k0 g0] o IH]; simpl; intros ND; [constructor|].
  inversion ND as [|? ? Hnot ND']; subst.
  destruct (k0 =? k)%string; simpl; [exact ND'|].
  constructor; [|now apply IH].
  intros Hin. apply Hnot. now apply (keys_delete o k).
Qed.

Lemma find_app {A} (p : A -> bool) (l1 l2 : list A) :
  find p (l1 ++ l2)
  = match find p l1 with Some x => Some x | None => find p l2 end.
Proof.
  induction l1 as [|x l1 IH]; simpl; [reflexivity|].
  destruct (p x); [reflexivity | exact IH].
Qed.

Lemma find_split {A} (p : A -> bool) (l : list A) (x : A) :
  find p l = Some x ->
  exists before after,
    l = (before ++ x :: after)%list /\ p x = true
    /\ forall y, In y before -> p y = false.
Proof.
  induction l as [|y l IH]; simpl; [discriminate|].
  destruct (p y) eqn:E.
  - intros [= ->]. exists [], l. repeat split; [exact E | intros ? []].
  - intros H. destruct (IH H) as (before & after & -> & Hp & Hb).
    exists (y :: before), after. repeat split; [exact Hp|].
    intros z [<-|Hz]; [exact E | now apply Hb].
Qed.

(** ** Sorting *)

Section SortFacts.
Context {A : Type}.
Variable comparefn : A -> A -> Z.

Lemma sort_insert_perm element prefix_rev :
  Permutation (sort_insert comparefn element prefix_rev)
    (element :: prefix_rev).
Proof.
  induction prefix_rev as [|tmp below IH]; simpl; [reflexivity|].
  destruct (0 <? comparefn tmp element); [|reflexivity].
  rewrite IH. apply perm_swap.
Qed.

Lemma sort_fold_perm a : forall prefix_rev,
  Permutation
    (fold_left (fun p element => sort_insert comparefn element p) a prefix_rev)
    (a ++ prefix_rev).
Proof.
  induction a as [|x a IH]; simpl; intros prefix_rev; [reflexivity|].
  rewrite IH, sort_insert_perm. symmetry. apply Permutation_middle.
Qed.

Lemma insertion_sort_perm a : Permutation (insertion_sort comparefn a) a.
Proof.
  unfold insertion_sort. rewrite <- Permutation_rev, sort_fold_perm.
  now rewrite app_nil_r.
Qed.

(** The elements of a class no member of which compares as greater than
    another are never passed by one another: their subsequence is the one of
    the input. *)
Variable domain : A -> Prop.
Variable class : A -> bool.
Hypothesis together : forall tmp element,
  domain tmp -> domain element -> class tmp = true -> class element = true ->
  comparefn tmp element <= 0.

Lemma sort_insert_domain element prefix_rev :
  domain element -> Forall domain prefix_rev ->
  Forall domain (sort_insert comparefn element prefix_rev).
Proof.
  intros He Hd. eapply Permutation_Forall;
    [symmetry; apply sort_insert_perm | now constructor].
Qed.

Lemma sort_insert_class element prefix_rev :
  domain element -> Forall domain prefix_rev ->
  filter class (sort_insert comparefn element prefix_rev)
  = filter class (element :: prefix_rev).
Proof.
  intros He. induction prefix_rev as [|tmp below IH]; intros Hd;
    [reflexivity|].
  inversion Hd as [|? ? Ht Hb]; subst.
  cbn [sort_insert].
  destruct (0 <? comparefn tmp element) eqn:E; [|reflexivity].
  apply Z.ltb_lt in E. cbn [filter] in *. rewrite (IH Hb).
  destruct (class tmp) eqn:Ct, (class element) eqn:Ce; try reflexivity.
  pose proof (together tmp element Ht He Ct Ce). lia.
Qed.

Lemma sort_fold_class a : forall prefix_rev,
  Forall domain a -> Forall domain prefix_rev ->
  filter class
    (fold_left (fun p element => sort_insert comparefn element p) a prefix_rev)
  = (rev (filter class a) ++ filter class prefix_rev)%list.
Proof.
  induction a as [|x a IH]; intros prefix_rev Ha Hd; [reflexivity|].
  inversion Ha; subst.
  cbn [fold_left].
  rewrite IH, sort_insert_class by auto using sort_insert_domain.
  cbn [filter]. destruct (class x); cbn [rev]; [|reflexivity].
  now rewrite <- app_assoc.
Qed.

Lemma insertion_sort_class a :
  Forall domain a ->
  filter class (insertion_sort comparefn a) = filter class a.
Proof.
  intros Ha. unfold insertion_sort.
  rewrite filter_rev, sort_fold_class by (auto; constructor).
  cbn [filter]. now rewrite app_nil_r, rev_involutive.
Qed.
End SortFacts.

Section SortOrder.
Context {A : Type}.
Variable comparefn : A -> A -> Z.
Variable domain : A -> Prop.
Variable before : A -> A -> Prop.
Hypothesis moves : forall tmp element,
  domain tmp -> domain element -> 0 < comparefn tmp element ->
  before element tmp.
Hypothesis stays : forall tmp element,
  domain tmp -> domain element -> comparefn tmp element <= 0 ->
  before tmp element.
Hypothesis before_trans : forall a b c,
  domain a -> domain b -> domain c -> before a b -> before b c -> before a c.

Lemma sort_insert_sorted element prefix_rev :
  domain element -> Forall domain prefix_rev ->
  StronglySorted (fun x y => before y x) prefix_rev ->
  StronglySorted (fun x y => before y x)
    (sort_insert comparefn element prefix_rev).
Proof.
  intros He. induction prefix_rev as [|tmp below IH]; intros Hd Hs.
  - repeat constructor.
  - cbn [sort_insert]. inversion Hd as [|? ? Ht Hb]; subst.
    inversion Hs as [|? ? Hs' Hall]; subst.
    destruct (0 <? comparefn tmp element) eqn:E.
    + apply Z.ltb_lt in E. constructor; [now apply IH|].
      eapply Permutation_Forall;
        [symmetry; apply sort_insert_perm|].
      constructor; [now apply moves | exact Hall].
    + apply Z.ltb_ge in E. constructor; [exact Hs|].
      constructor; [now apply stays|].
      rewrite Forall_forall in *. intros y Hy.
      apply (before_trans y tmp element); auto.
Qed.

Lemma sort_fold_sorted a : forall prefix_rev,
  Forall domain a -> Forall domain prefix_rev ->
  StronglySorted (fun x y => before y x) prefix_rev ->
  StronglySorted (fun x y => before y x)
    (fold_left (fun p element => sort_insert comparefn element p) a prefix_rev).
Proof.
  induction a as [|x a IH]; intros prefix_rev Ha Hd Hs; [exact Hs|].
  inversion Ha; subst. cbn [fold_left]. apply IH; [assumption | |].
  - eapply Permutation_Forall; [symmetry; apply sort_insert_perm|].
    now constructor.
  - now apply sort_insert_sorted.
Qed.

Lemma StronglySorted_snoc (R : A -> A -> Prop) l x :
  StronglySorted R l -> Forall (fun y => R y x) l ->
  StronglySorted R (l ++ [x]).
Proof.
  induction 1 as [|y l Hs IH Hy]; intros Hall; simpl.
  - repeat constructor.
  - inversion Hall; subst. constructor; [now apply IH|].
    apply Forall_app. split; [exact Hy | now constructor].
Qed.

Lemma StronglySorted_rev (R : A -> A -> Prop) l :
  StronglySorted (fun x y => R y x) l -> StronglySorted R (rev l).
Proof.
  induction 1 as [|y l Hs IH Hy]; simpl; [constructor|].
  apply StronglySorted_snoc; [exact IH|].
  rewrite Forall_forall in *. intros z Hz. apply Hy. now apply in_rev.
Qed.

Lemma insertion_sort_sorted a :
  Forall domain a -> StronglySorted before (insertion_sort comparefn a).
Proof.
  intros Ha. apply StronglySorted_rev, sort_fold_sorted;
    [exact Ha | constructor | constructor].
Qed.

Lemma StronglySorted_firstn (R : A -> A -> Prop) n : forall l,
  StronglySorted R l -> StronglySorted R (firstn n l).
Proof.
  induction n as [|n IH]; intros l Hs; [constructor|].
  destruct l as [|x l]; [constructor|]. simpl.
  inversion Hs as [|? ? Hs' Hall]; subst. constructor; [now apply IH|].
  rewrite Forall_forall in *. intros y Hy. apply Hall.
  rewrite <- (firstn_skipn n l). apply in_or_app. now left.
Qed.
End SortOrder.

(** *** Consistent comparison functions *)

Section Consistent.
Context {A : Type}.
Variable comparefn : A -> A -> Z.
Variable a : list A.
Hypothesis Hconsistent : consistent comparefn a.

Lemma consistent_flip x y :
  In x a -> In y a -> 0 < comparefn x y -> comparefn y x < 0.
Proof.
  destruct Hconsistent as (Hrefl & Hsym & _ & _ & Hgt).
  intros Hx Hy Hxy.
  destruct (Z.lt_trichotomy (comparefn y x) 0) as [H|[H|H]]; [exact H| |].
  - pose proof (Hsym y x Hy Hx H). lia.
  - pose proof (Hgt x y x Hx Hy Hx Hxy H). pose proof (Hrefl x Hx). lia.
Qed.

Lemma consistent_le_trans x y z :
  In x a -> In y a -> In z a ->
  comparefn x y <= 0 -> comparefn y z <= 0 -> comparefn x z <= 0.
Proof.
  pose proof consistent_flip as Hflip.
  destruct Hconsistent as (Hrefl & Hsym & Heq & Hlt & Hgt).
  intros Hx Hy Hz Hxy Hyz.
  destruct (Z_le_gt_dec (comparefn x z) 0) as [H|H]; [exact H|].
  assert (Hzx : comparefn z x < 0) by (apply Hflip; auto; lia).
  destruct (Z.eq_dec (comparefn x y) 0) as [Exy|Nxy],
           (Z.eq_dec (comparefn y z) 0) as [Eyz|Nyz].
  - pose proof (Heq x y z Hx Hy Hz Exy Eyz). lia.
  - assert (Hyx : comparefn y x < 0) by (apply (Hlt y z x); auto; lia).
    pose proof (Hsym x y Hx Hy Exy). lia.
  - assert (Hzy : comparefn z y < 0) by (apply (Hlt z x y); auto; lia).
    pose proof (Hsym y z Hy Hz Eyz). lia.
  - pose proof (Hlt x y z Hx Hy Hz). lia.
Qed.

Lemma insertion_sort_ordered :
  StronglySorted (fun x y => comparefn x y <= 0) (insertion_sort comparefn a).
Proof.
  apply (insertion_sort_sorted comparefn (fun x => In x a)).
  - intros tmp element Ht He H. pose proof (consistent_flip _ _ Ht He H). lia.
  - intros tmp element _ _ H. exact H.
  - intros x y z Hx Hy Hz. now apply consistent_le_trans.
  - now apply Forall_forall.
Qed.

Lemma insertion_sort_stable x :
  In x a ->
  filter (fun y => comparefn x y =? 0) (insertion_sort comparefn a)
  = filter (fun y => comparefn x y =? 0) a.
Proof.
  destruct Hconsistent as (_ & Hsym & Heq & _ & _).
  intros Hx. apply (insertion_sort_class comparefn (fun y => In y a)).
  - intros tmp element Ht He Ct Ce.
    apply Z.eqb_eq in Ct. apply Z.eqb_eq in Ce.
    pose proof (Hsym x tmp Hx Ht Ct) as Htx.
    pose proof (Heq tmp x element Ht Hx He Htx Ce). lia.
  - now apply Forall_forall.
Qed.
End Consistent.

Lemma parseInt_decimal (n : Z) : @parseInt simple_engine (decimal n) = n.
Proof.
  unfold parseInt, simple_engine, decimal.
  rewrite NilZero.isi.
  - apply DecimalZ.of_to.
  - destruct n as [|p|p]; try discriminate.
    cbn. intros [= H]. now apply (DecimalPos.Unsigned.to_uint_nonnil p).
  - destruct n as [|p|p]; try discriminate.
    cbn. intros [= H]. now apply (DecimalPos.Unsigned.to_uint_nonnil p).
Qed.

Lemma simple_engine_conforms : Conforming simple_engine.
Proof.
  constructor.
  - intros A comparefn a. apply insertion_sort_perm.
  - intros A comparefn a. apply insertion_sort_ordered.
  - intros A comparefn a. apply insertion_sort_stable.
  - reflexivity.
  - intros n _. apply parseInt_decimal.
Qed.

Lemma StronglySorted_impl {A} (R R' : A -> A -> Prop) (l : list A) :
  (forall x y, R x y -> R' x y) ->
  StronglySorted R l -> StronglySorted R' l.
Proof.
  intros HR. induction 1 as [|x l Hs IH Hx]; constructor; [exact IH|].
  rewrite Forall_forall in *. auto.
Qed.

Lemma filter_all {A} (p : A -> bool) (l : list A) :
  (forall x, In x l -> p x = true) -> filter p l = l.
Proof.
  induction l as [|x l IH]; intros H; [reflexivity|].
  cbn [filter]. rewrite (H x) by now left.
  f_equal. apply IH. intros y Hy. apply H. now right.
Qed.

Section SprintOrder.
Variable Date_getTime : string -> option Z.

Lemma compareStartDate_times a b :
  compareStartDate Date_getTime a b
  = match start_time Date_getTime a, start_time Date_getTime b with
    | Some ta, Some tb => tb - ta
    | _, _ => 0
    end.
Proof.
  unfold compareStartDate, start_time.
  destruct (startDate a) as [da|], (startDate b) as [db|]; try reflexivity.
  - destruct (not_string da), (not_string db), (Date_getTime da),
      (Date_getTime db); reflexivity.
  - now destruct (if not_string da then None else Date_getTime da).
Qed.

Lemma compareStartDate_undated a b :
  dated Date_getTime a = false \/ dated Date_getTime b = false ->
  compareStartDate Date_getTime a b = 0.
Proof.
  rewrite compareStartDate_times. unfold dated.
  destruct (start_time Date_getTime a), (start_time Date_getTime b);
    intros [H|H]; try discriminate; reflexivity.
Qed.

Lemma compareStartDate_not_earlier a b :
  compareStartDate Date_getTime a b <= 0 -> not_earlier Date_getTime a b.
Proof.
  rewrite compareStartDate_times. unfold not_earlier.
  destruct (start_time Date_getTime a), (start_time Date_getTime b);
    try exact (fun _ => I). lia.
Qed.

(** The comparison function is a consistent one for sprints that all have
    a start time, and for sprints none of which has. *)
Lemma compareStartDate_consistent collected :
  Forall (fun s => dated Date_getTime s = true) collected
  \/ Forall (fun s => dated Date_getTime s = false) collected ->
  consistent (compareStartDate Date_getTime) collected.
Proof.
  intros [Hall|Hall]; rewrite Forall_forall in Hall.
  - assert (Ht : forall s, In s collected ->
                          exists t, start_time Date_getTime s = Some t).
    { intros s Hs. specialize (Hall s Hs). unfold dated in Hall.
      destruct (start_time Date_getTime s) as [t|]; [eauto | discriminate]. }
    repeat split.
    + intros x Hx. rewrite compareStartDate_times.
      destruct (Ht x Hx) as (tx & ->). lia.
    + intros x y Hx Hy. rewrite !compareStartDate_times.
      destruct (Ht x Hx) as (tx & ->), (Ht y Hy) as (ty & ->). lia.
    + intros x y z Hx Hy Hz. rewrite !compareStartDate_times.
      destruct (Ht x Hx) as (tx & ->), (Ht y Hy) as (ty & ->),
        (Ht z Hz) as (tz & ->). lia.
    + intros x y z Hx Hy Hz. rewrite !compareStartDate_times.
      destruct (Ht x Hx) as (tx & ->), (Ht y Hy) as (ty & ->),
        (Ht z Hz) as (tz & ->). lia.
    + intros x y z Hx Hy Hz. rewrite !compareStartDate_times.
      destruct (Ht x Hx) as (tx & ->), (Ht y Hy) as (ty & ->),
        (Ht z Hz) as (tz & ->). lia.
  - assert (H0 : forall x y, In x collected ->
                             compareStartDate Date_getTime x y = 0)
      by (intros x y Hx; apply compareStartDate_undated; left; auto).
    repeat split.
    + intros x Hx. now apply H0.
    + intros x y Hx Hy _. now apply H0.
    + intros x y z Hx Hy Hz _ _. now apply H0.
    + intros x y z Hx Hy Hz H. rewrite (H0 x y Hx) in H. lia.
    + intros x y z Hx Hy Hz H. rewrite (H0 x y Hx) in H. lia.
Qed.

Context {engine : Engine}.


Hypothesis Hengine : Conforming engine.


Lemma sortSprints_perm collected :
  (length collected <= 1000)%nat ->
  Permutation (sortSprints Date_getTime collected) collected.
Proof.
  intros Hlen.
  pose proof (sort_rearranges engine Hengine _
                (compareStartDate Date_getTime) collected) as Hperm.
  unfold sortSprints, slice0. rewrite firstn_all2; [exact Hperm|].
  rewrite (Permutation_length Hperm). exact Hlen.
Qed.

Lemma sortSprints_sorted collected :
  Forall (fun s => dated Date_getTime s = true) collected ->
  sorted_by_start_date Date_getTime (sortSprints Date_getTime collected).
Proof.
  intros Hd. unfold sorted_by_start_date, sortSprints, slice0.
  apply StronglySorted_firstn.
  apply (StronglySorted_impl
           (fun x y => compareStartDate Date_getTime x y <= 0));
    [apply compareStartDate_not_earlier|].
  apply (sort_sorts engine Hengine).
  apply compareStartDate_consistent. now left.
Qed.

Lemma sortSprints_as_fetched collected :
  Forall (fun s => dated Date_getTime s = false) collected ->
  sortSprints Date_getTime collected
  = slice0 MAX_SPRINTS_TO_FETCH collected.
Proof.
  intros Hu. unfold sortSprints. f_equal.
  pose proof (sort_rearranges engine Hengine _
                (compareStartDate Date_getTime) collected) as Hperm.
  destruct collected as [|x rest].
  - now apply Permutation_nil.
  - pose proof (sort_stable engine Hengine _ (compareStartDate Date_getTime)
                  (x :: rest)
                  (compareStartDate_consistent _ (or_intror Hu))
                  x (or_introl eq_refl)) as Hstable.
    assert (Hx : forall y, (compareStartDate Date_getTime x y =? 0) = true).
    { intros y. apply Z.eqb_eq, compareStartDate_undated. left.
      now inversion Hu. }
    rewrite !filter_all in Hstable by auto. exact Hstable.
Qed.
End SprintOrder.

(** ** The Epic Grouper *)

(** What one turn of the [forEach] does to [epicGroups]: the ticket is
    appended to the group of its key, created last when the object does not
    own it yet. *)
Lemma organize_step_spec epicGroups issue epicGroups' :
  getOwn epicGroups NO_EPIC <> None ->
  organize_step epicGroups issue = Normal epicGroups' ->
  exists name old,
    match getOwn epicGroups (group_key issue) with
    | Some g =>
        name = epicName g /\ old = issues g
        /\ map fst epicGroups' = map fst epicGroups
    | None =>
        (exists p, parent issue = Some p /\ name = parent_summary p)
        /\ old = []
        /\ map fst epicGroups' = (map fst epicGroups ++ [group_key issue])%list
    end
    /\ forall k',
        getOwn epicGroups' k'
        = if (group_key issue =? k')%string
          then Some (mkGroup name (old ++ [issue]))
          else getOwn epicGroups k'.
Proof.
  intros Hsentinel. unfold organize_step, group_key.
  destruct (parent issue) as [p|].
  - unfold get.
    destruct (getOwn epicGroups (parent_key p)) as [g|] eqn:E.
    + rewrite E. intros [= <-].
      exists (epicName g), (issues g). split.
      * repeat split. apply keys_push.
      * intros k'. rewrite getOwn_push.
        destruct (parent_key p =? k')%string eqn:Ek; [|reflexivity].
        apply String.eqb_eq in Ek. subst k'. now rewrite E.
    + destruct (isInherited (parent_key p)).
      * rewrite E. discriminate.
      * rewrite getOwn_set, String.eqb_refl. intros [= <-].
        exists (parent_summary p), []. split.
        -- split; [now exists p|]. split; [reflexivity|].
           rewrite keys_push, (set_fresh _ _ _ E), map_app. reflexivity.
        -- intros k'. rewrite getOwn_push, getOwn_set.
           destruct (parent_key p =? k')%string; reflexivity.
  - unfold get. destruct (getOwn epicGroups NO_EPIC) as [g|] eqn:E; [|tauto].
    intros [= <-]. exists (epicName g), (issues g). split.
    + repeat split. apply keys_push.
    + intros k'. rewrite getOwn_push.
      destruct (NO_EPIC =? k')%string eqn:Ek; [|reflexivity].
      apply String.eqb_eq in Ek. subst k'. now rewrite E.
Qed.

Lemma organize_step_total epicGroups issue :
  getOwn epicGroups NO_EPIC <> None ->
  (forall p, parent issue = Some p -> isInherited (parent_key p) = false) ->
  exists epicGroups', organize_step epicGroups issue = Normal epicGroups'.
Proof.
  intros Hsentinel Hplain. unfold organize_step.
  destruct (parent issue) as [p|].
  - unfold get.
    destruct (getOwn epicGroups (parent_key p)) as [g|] eqn:E.
    + rewrite E. eauto.
    + rewrite (Hplain p eq_refl).
      rewrite getOwn_set, String.eqb_refl. eauto.
  - unfold get. destruct (getOwn epicGroups NO_EPIC); [eauto | tauto].
Qed.

Lemma filter_none {A} (p : A -> bool) (l : list A) :
  (forall x, In x l -> p x = false) -> filter p l = [].
Proof.
  induction l as [|x l IH]; simpl; intros H; [reflexivity|].
  rewrite (H x (or_introl eq_refl)). apply IH. intros y Hy. apply H. now right.
Qed.

Lemma find_none {A} (p : A -> bool) (l : list A) :
  (forall x, In x l -> p x = false) -> find p l = None.
Proof.
  induction l as [|x l IH]; simpl; intros H; [reflexivity|].
  rewrite (H x (or_introl eq_refl)). apply IH. intros y Hy. apply H. now right.
Qed.

Lemma references_group_key k issue :
  references k issue = true -> group_key issue = k.
Proof.
  unfold references, group_key.
  destruct (parent issue); [apply String.eqb_eq | discriminate].
Qed.

Lemma grouped_step epicGroups seen issue epicGroups' :
  grouped epicGroups seen ->
  organize_step epicGroups issue = Normal epicGroups' ->
  grouped epicGroups' (seen ++ [issue]).
Proof.
  intros [Hkeys Hhead Hissues Hall Hname] Hstep.
  assert (Hsentinel : getOwn epicGroups NO_EPIC <> None).
  { destruct Hhead as (g & rest & ->). simpl. discriminate. }
  destruct (organize_step_spec _ _ _ Hsentinel Hstep)
    as (name & old & Hcase & Hget).
  assert (Hfresh : getOwn epicGroups (group_key issue) = None ->
                   forall i, In i seen -> group_key i <> group_key issue).
  { intros E i Hi Ei. apply (Hall i Hi). now rewrite Ei. }
  constructor.
  - destruct (getOwn epicGroups (group_key issue)) eqn:E.
    + destruct Hcase as (_ & _ & ->). exact Hkeys.
    + destruct Hcase as (_ & _ & ->).
      apply NoDup_app; [exact Hkeys | repeat constructor; intros [] |].
      intros x Hx [<-|[]]. now apply getOwn_None_keys in E.
  - destruct Hhead as (g & rest & ->).
    assert (Hk : exists tl, map fst epicGroups' = NO_EPIC :: tl).
    { destruct (getOwn ((NO_EPIC, g) :: rest) (group_key issue));
        destruct Hcase as (_ & _ & ->); simpl; eauto. }
    destruct Hk as (tl & Hk). destruct epicGroups' as [|[k0 g0] rest'];
      [discriminate|]. simpl in Hk. injection Hk as -> _. eauto.
  - intros k g. rewrite Hget, filter_app. simpl.
    unfold in_group at 2.
    destruct (group_key issue =? k)%string eqn:Ek.
    + apply String.eqb_eq in Ek. subst k. intros [= <-]. simpl. f_equal.
      destruct (getOwn epicGroups (group_key issue)) eqn:E.
      * destruct Hcase as (_ & -> & _). now apply Hissues.
      * destruct Hcase as (_ & -> & _). symmetry. apply filter_none.
        intros i Hi. apply String.eqb_neq. now apply Hfresh.
    + intros Hk. rewrite app_nil_r. now apply Hissues.
  - intros i Hi. rewrite Hget.
    apply in_app_or in Hi. destruct Hi as [Hi|[<-|[]]].
    + destruct (group_key issue =? group_key i)%string;
        [discriminate | now apply Hall].
    + rewrite String.eqb_refl. discriminate.
  - intros k g. rewrite Hget, find_app. simpl.
    destruct (group_key issue =? k)%string eqn:Ek.
    + apply String.eqb_eq in Ek. subst k. intros [= <-] Hne. simpl.
      destruct (getOwn epicGroups (group_key issue)) eqn:E.
      * destruct Hcase as (-> & _ & _).
        destruct (Hname _ _ E Hne) as (first & p & -> & Hp & Hn). eauto.
      * destruct Hcase as ((p & Hp & ->) & _ & _).
        rewrite find_none.
        -- unfold references. rewrite Hp.
           assert (group_key issue = parent_key p) as <-
               by (unfold group_key; now rewrite Hp).
           rewrite String.eqb_refl. eauto.
        -- intros i Hi. destruct (references (group_key issue) i) eqn:Er;
             [|reflexivity].
           apply references_group_key in Er. now apply Hfresh in Er.
    + intros Hk Hne. destruct (Hname _ _ Hk Hne) as (first & p & -> & Hp & Hn).
      eauto.
Qed.

Lemma grouped_forEach l : forall epicGroups seen epicGroups',
  grouped epicGroups seen ->
  organize_forEach epicGroups l = Normal epicGroups' ->
  grouped epicGroups' (seen ++ l).
Proof.
  induction l as [|issue l IH]; simpl; intros epicGroups seen epicGroups' Hg.
  - intros [= <-]. now rewrite app_nil_r.
  - destruct (organize_step epicGroups issue) as [next|] eqn:Hstep;
      [|discriminate].
    intros Hrest.
    replace (seen ++ issue :: l)%list with ((seen ++ [issue]) ++ l)%list
      by (rewrite <- app_assoc; reflexivity).
    eapply IH; [|exact Hrest]. eapply grouped_step; eassumption.
Qed.

Lemma grouped_sentinel epicGroups seen :
  grouped epicGroups seen -> getOwn epicGroups NO_EPIC <> None.
Proof.
  intros [_ (g & rest & ->) _ _ _]. simpl. discriminate.
Qed.

Lemma organize_forEach_total l : forall epicGroups seen,
  grouped epicGroups seen -> plain_keys l ->
  exists epicGroups', organize_forEach epicGroups l = Normal epicGroups'.
Proof.
  induction l as [|issue l IH]; simpl; intros epicGroups seen Hg Hplain.
  - eauto.
  - destruct (organize_step_total epicGroups issue) as (next & Hstep).
    + eapply grouped_sentinel; eassumption.
    + intros p Hp. apply (Hplain issue p); [now left | exact Hp].
    + rewrite Hstep. apply (IH next (seen ++ [issue])%list).
      * eapply grouped_step; eassumption.
      * intros i p Hi. apply Hplain. now right.
Qed.

Lemma grouped_start :
  grouped (set [] NO_EPIC (mkGroup "Tasks without Epic" [])) [].
Proof.
  constructor; cbn [set getOwn map fst filter In find].
  - repeat constructor. intros [].
  - eauto.
  - intros k g. destruct (NO_EPIC =? k)%string; [|discriminate].
    now intros [= <-].
  - intros issue [].
  - intros k g. destruct (NO_EPIC =? k)%string eqn:E; [|discriminate].
    apply String.eqb_eq in E. congruence.
Qed.

(** The result of the grouper is the object after the [forEach], without
    the sentinel group when that group is empty. *)
Lemma organize_inv l epicGroups :
  organizeIssuesByEpic l = Normal epicGroups ->
  exists full g0,
    grouped full l /\ getOwn full NO_EPIC = Some g0
    /\ ((issues g0 = [] /\ epicGroups = delete full NO_EPIC)
        \/ (issues g0 <> [] /\ epicGroups = full)).
Proof.
  unfold organizeIssuesByEpic.
  destruct (organize_forEach _ l) as [full|] eqn:Hloop; [|discriminate].
  pose proof (grouped_forEach l _ [] _ grouped_start Hloop) as Hg.
  simpl in Hg. unfold get.
  destruct (getOwn full NO_EPIC) as [g0|] eqn:E.
  - destruct (issues g0) as [|i rest] eqn:Ei; simpl; intros [= <-];
      exists full, g0; rewrite Ei;
      (split; [exact Hg|]); (split; [exact E|]).
    + left. now split.
    + right. split; [discriminate | reflexivity].
  - now apply grouped_sentinel in Hg.
Qed.

Lemma organize_total l :
  plain_keys l -> exists epicGroups, organizeIssuesByEpic l = Normal epicGroups.
Proof.
  intros Hplain. unfold organizeIssuesByEpic.
  destruct (organize_forEach_total l _ [] grouped_start Hplain) as (full & Hloop).
  rewrite Hloop.
  pose proof (grouped_forEach l _ [] _ grouped_start Hloop) as Hg.
  unfold get. destruct (getOwn full NO_EPIC) as [g0|] eqn:E.
  - destruct (length (issues g0) =? 0)%nat; eauto.
  - now apply grouped_sentinel in Hg.
Qed.

Lemma organize_keys l epicGroups :
  organizeIssuesByEpic l = Normal epicGroups -> NoDup (map fst epicGroups).
Proof.
  intros H. destruct (organize_inv _ _ H) as (full & g0 & Hg & _ & [[_ ->]|[_ ->]]).
  - apply NoDup_keys_delete, Hg.
  - apply Hg.
Qed.

Lemma organize_lookup l epicGroups k :
  organizeIssuesByEpic l = Normal epicGroups ->
  exists full,
    grouped full l
    /\ (getOwn epicGroups k = getOwn full k
        \/ (k = NO_EPIC /\ getOwn epicGroups k = None
            /\ filter (in_group NO_EPIC) l = [])).
Proof.
  intros H. destruct (organize_inv _ _ H) as (full & g0 & Hg & E & [[E0 ->]|[_ ->]]).
  - exists full. split; [exact Hg|].
    rewrite getOwn_delete by apply Hg.
    destruct (NO_EPIC =? k)%string eqn:Ek; [|now left].
    apply String.eqb_eq in Ek. subst k. right. repeat split.
    rewrite <- (grouped_issues _ _ Hg _ _ E). exact E0.
  - exists full. split; [exact Hg | now left].
Qed.

Lemma organize_issues l epicGroups k g :
  organizeIssuesByEpic l = Normal epicGroups ->
  getOwn epicGroups k = Some g -> issues g = filter (in_group k) l.
Proof.
  intros H Hk. destruct (organize_lookup l epicGroups k H) as (full & Hg & [E|(_ & E & _)]).
  - apply (grouped_issues _ _ Hg). now rewrite <- E.
  - congruence.
Qed.

Lemma organize_member l epicGroups issue :
  organizeIssuesByEpic l = Normal epicGroups ->
  In issue l ->
  exists g, getOwn epicGroups (group_key issue) = Some g /\ In issue (issues g).
Proof.
  intros H Hi.
  assert (Hin : In issue (filter (in_group (group_key issue)) l)).
  { apply filter_In. split; [exact Hi|]. apply String.eqb_refl. }
  destruct (organize_lookup l epicGroups (group_key issue) H)
    as (full & Hg & [E|(Ek & _ & E)]).
  - destruct (getOwn epicGroups (group_key issue)) as [g|] eqn:Eg.
    + exists g. split; [reflexivity|].
      now rewrite (organize_issues _ _ _ _ H Eg).
    + symmetry in E. now apply (grouped_all _ _ Hg) in E.
  - rewrite Ek, E in Hin. destruct Hin.
Qed.

Lemma organize_sentinel l epicGroups :
  organizeIssuesByEpic l = Normal epicGroups ->
  (getOwn epicGroups NO_EPIC <> None
   <-> exists issue, In issue l /\ group_key issue = NO_EPIC).
Proof.
  intros H. split.
  - destruct (getOwn epicGroups NO_EPIC) as [g|] eqn:E; [intros _ | tauto].
    destruct (organize_inv _ _ H) as (full & g0 & Hg & E0 & [[_ ->]|[Hne ->]]).
    + rewrite getOwn_delete, String.eqb_refl in E by apply Hg. discriminate.
    + rewrite (grouped_issues _ _ Hg _ _ E0) in Hne.
      destruct (filter (in_group NO_EPIC) l) as [|i rest] eqn:Ef; [tauto|].
      assert (Hi : In i (filter (in_group NO_EPIC) l)) by (rewrite Ef; now left).
      apply filter_In in Hi. destruct Hi as [Hi Hk].
      exists i. split; [exact Hi | now apply String.eqb_eq].
  - intros (issue & Hi & Hk).
    destruct (organize_member _ _ _ H Hi) as (g & Hg & _).
    rewrite Hk in Hg. congruence.
Qed.

Lemma organize_name l epicGroups k g :
  organizeIssuesByEpic l = Normal epicGroups ->
  getOwn epicGroups k = Some g -> k <> NO_EPIC ->
  exists first p,
    find (references k) l = Some first /\ parent first = Some p
    /\ epicName g = parent_summary p.
Proof.
  intros H Hk Hne.
  destruct (organize_lookup l epicGroups k H) as (full & Hg & [E|(_ & E & _)]).
  - apply (grouped_name _ _ Hg); [now rewrite <- E | exact Hne].
  - congruence.
Qed.

Lemma organize_head l epicGroups :
  organizeIssuesByEpic l = Normal epicGroups ->
  getOwn epicGroups NO_EPIC <> None ->
  exists g rest, epicGroups = (NO_EPIC, g) :: rest.
Proof.
  intros H Hs.
  destruct (organize_inv _ _ H) as (full & g0 & Hg & E0 & [[_ ->]|[Hne ->]]).
  - rewrite getOwn_delete, String.eqb_refl in Hs by apply Hg. tauto.
  - apply Hg.
Qed.

Lemma organize_key_origin l epicGroups k :
  organizeIssuesByEpic l = Normal epicGroups ->
  In k (map fst epicGroups) ->
  k = NO_EPIC
  \/ exists issue p, In issue l /\ parent issue = Some p /\ parent_key p = k.
Proof.
  intros H Hk. destruct (String.eqb_spec k NO_EPIC) as [->|Hne]; [now left|].
  right. destruct (getOwn epicGroups k) as [g|] eqn:E.
  - destruct (organize_name _ _ _ _ H E Hne) as (first & p & Hf & Hp & _).
    apply find_some in Hf. destruct Hf as [Hin Hr].
    exists first, p. repeat split; [exact Hin | exact Hp |].
    unfold references in Hr. rewrite Hp in Hr. now apply String.eqb_eq.
  - now apply getOwn_None_keys in E.
Qed.

(** ** The Command Formatter *)

Lemma append_assoc (a b c : string) : (a ++ b) ++ c = a ++ (b ++ c).
Proof. induction a as [|ch a IH]; simpl; [reflexivity | now rewrite IH]. Qed.

Lemma append_nil_r (a : string) : a ++ "" = a.
Proof. induction a as [|ch a IH]; simpl; [reflexivity | now rewrite IH]. Qed.

Lemma append_issues_join base l : forall output,
  fold_left (append_issue base) l output
  = output ++ join (map (command_line base) l).
Proof.
  induction l as [|issue l IH]; simpl; intros output.
  - now rewrite append_nil_r.
  - rewrite IH. unfold append_issue, command_line.
    repeat first [rewrite append_assoc | progress simpl]. reflexivity.
Qed.

Lemma append_groups_render base entries : forall output,
  fold_left (append_group base) entries output
  = output ++ render base entries.
Proof.
  induction entries as [|entry entries IH]; simpl; intros output.
  - unfold render. simpl. now rewrite append_nil_r.
  - rewrite IH. unfold append_group, render, render_group. simpl.
    rewrite append_issues_join.
    repeat first [rewrite append_assoc | progress simpl]. reflexivity.
Qed.

Lemma generateSlackCommands_render base epicGroups :
  generateSlackCommands base epicGroups
  = render base (Object_entries epicGroups).
Proof. unfold generateSlackCommands. now rewrite append_groups_render. Qed.

(** Without a key that is an array index, the entries come in creation
    order. *)
Lemma Object_entries_plain (o : EpicGroup) :
  (forall k, In k (map fst o) -> isArrayIndex k = false) ->
  Object_entries o = o.
Proof.
  intros H. unfold Object_entries.
  rewrite filter_none, filter_all; [reflexivity | |].
  - intros [k g] Hin. simpl. rewrite (H k); [reflexivity|].
    change k with (fst (k, g)). now apply in_map.
  - intros [k g] Hin. simpl. apply H.
    change k with (fst (k, g)). now apply in_map.
Qed.

(** C5 (as amended). On every ticket list whose parent keys name no member
    of [Object.prototype] the Epic Grouper returns a mapping; and whenever it
    returns one, the keys of the mapping are distinct, the group of a key
    holds exactly the tickets of that key, in their order of arrival (the key
    of a ticket being the key of its parent epic, or the sentinel when it has
    no parent), every ticket is in the group of its key, and, when no parent
    key is the sentinel key itself, the sentinel group is present if and only
    if some ticket has no parent. *)
Theorem organizeIssuesByEpic_partition (l : list JiraIssue) :
  (plain_keys l ->
   exists epicGroups, organizeIssuesByEpic l = Normal epicGroups)
  /\ forall epicGroups,
      organizeIssuesByEpic l = Normal epicGroups ->
      NoDup (map fst epicGroups)
      /\ (forall k g, In (k, g) epicGroups -> issues g = filter (in_group k) l)
      /\ (forall issue, In issue l ->
          exists g, In (group_key issue, g) epicGroups /\ In issue (issues g))
      /\ (no_sentinel_key l ->
          (In NO_EPIC (map fst epicGroups)
           <-> exists issue, In issue l /\ parent issue = None)).
Proof.
  split; [apply organize_total|].
  intros epicGroups H. pose proof (organize_keys _ _ H) as Hnd.
  split; [exact Hnd|]. split; [|split].
  - intros k g Hin. apply (organize_issues _ _ _ _ H).
    now apply getOwn_In.
  - intros issue Hi. destruct (organize_member _ _ _ H Hi) as (g & Hg & Hin).
    exists g. split; [now apply getOwn_In | exact Hin].
  - intros Hno. split.
    + intros Hin. assert (Hs : getOwn epicGroups NO_EPIC <> None).
      { intros E. now apply getOwn_None_keys in E. }
      apply (organize_sentinel _ _ H) in Hs. destruct Hs as (issue & Hi & Hk).
      exists issue. split; [exact Hi|]. unfold group_key in Hk.
      destruct (parent issue) as [p|] eqn:Hp; [|reflexivity].
      now apply (Hno issue p Hi) in Hk.
    + intros (issue & Hi & Hp).
      assert (Hs : getOwn epicGroups NO_EPIC <> None).
      { apply (organize_sentinel _ _ H). exists issue. split; [exact Hi|].
        unfold group_key. now rewrite Hp. }
      destruct (in_dec string_dec NO_EPIC (map fst epicGroups)) as [Hin|Hout];
        [exact Hin|]. now apply getOwn_None_keys in Hout.
Qed.

(** C6 (as amended). For every mapping, the Formatter emits, for each group
    in the order of [Object.entries] (the keys that are array indices first,
    in ascending numeric order, then the other keys in insertion order; so
    plain insertion order when no key is an array index), one line
    "/pp <baseUrl>/browse/<key> <summary>" and a newline per ticket of the
    group, then one blank line; for the group [EPIC-1] with the single ticket
    [T-1], "Fix bug", and the base URL https://x.atlassian.net, the output is
    that one line and a blank line. *)
Theorem generateSlackCommands_format :
  (forall base epicGroups,
      generateSlackCommands base epicGroups
      = join (map (fun entry =>
                     join (map (fun ticket =>
                                  "/pp " ++ base ++ "/browse/"
                                  ++ issue_key ticket ++ " " ++ summary ticket
                                  ++ LF)
                             (issues (snd entry)))
                     ++ LF)
                (Object_entries epicGroups)))
  /\ (forall epicGroups,
      (forall k, In k (map fst epicGroups) -> isArrayIndex k = false) ->
      Object_entries epicGroups = epicGroups)
  /\ generateSlackCommands "https://x.atlassian.net"
       [("EPIC-1", mkGroup "Login" [Examples.T1])]
     = "/pp https://x.atlassian.net/browse/T-1 Fix bug" ++ LF ++ LF.
Proof.
  split; [|split; [exact Object_entries_plain | reflexivity]].
  intros base epicGroups. apply generateSlackCommands_render.
Qed.

(** C9 (as amended). In the Epic Grouper, the name of the group of an epic
    key other than the sentinel key is the parent summary of the first ticket
    of the list that references the key: later tickets that reference the
    key, whatever parent summary they carry, leave the name as it is, and are
    in the group all the same. *)
Theorem organizeIssuesByEpic_first_name_wins
  (l : list JiraIssue) (epicGroups : EpicGroup) (k : string) (g : Group) :
  organizeIssuesByEpic l = Normal epicGroups ->
  In (k, g) epicGroups ->
  k <> NO_EPIC ->
  exists before first p after,
    l = (before ++ first :: after)%list
    /\ (forall earlier, In earlier before -> references k earlier = false)
    /\ parent first = Some p /\ parent_key p = k
    /\ epicName g = parent_summary p
    /\ issues g = filter (references k) l.
Proof.
  intros H Hin Hne. pose proof (organize_keys _ _ H) as Hnd.
  apply (getOwn_In _ _ _ Hnd) in Hin.
  destruct (organize_name _ _ _ _ H Hin Hne) as (first & p & Hf & Hp & Hn).
  destruct (find_split _ _ _ Hf) as (before & after & Hl & Hr & Hb).
  exists before, first, p, after. repeat split; try assumption.
  - unfold references in Hr. rewrite Hp in Hr. now apply String.eqb_eq.
  - rewrite (organize_issues _ _ _ _ H Hin). apply filter_ext.
    intros issue. unfold in_group, references, group_key.
    destruct (parent issue); [reflexivity|].
    apply String.eqb_neq. congruence.
Qed.

(** C10 (as amended). When some ticket has no parent and no parent key is
    an array index, the sentinel group is the first entry of the mapping the
    Epic Grouper returns, it holds every ticket without a parent, and the
    Formatter renders its lines before those of every other group. *)
Theorem sentinel_group_first
  (base : string) (l : list JiraIssue) (epicGroups : EpicGroup) :
  organizeIssuesByEpic l = Normal epicGroups ->
  (exists issue, In issue l /\ parent issue = None) ->
  no_index_key l ->
  exists g rest,
    Object_entries epicGroups = (NO_EPIC, g) :: rest
    /\ (forall issue, In issue l -> parent issue = None -> In issue (issues g))
    /\ generateSlackCommands base epicGroups
       = render_group base (NO_EPIC, g) ++ render base rest.
Proof.
  intros H (issue & Hi & Hp) Hno.
  assert (Hs : getOwn epicGroups NO_EPIC <> None).
  { apply (organize_sentinel _ _ H). exists issue. split; [exact Hi|].
    unfold group_key. now rewrite Hp. }
  destruct (organize_head _ _ H Hs) as (g & rest & Hshape).
  assert (Hentries : Object_entries epicGroups = epicGroups).
  { apply Object_entries_plain. intros k Hk.
    destruct (organize_key_origin _ _ _ H Hk) as [->|(i & p & Hil & Hpi & <-)];
      [reflexivity | now apply (Hno i p)]. }
  exists g, rest. split; [now rewrite Hentries|]. split.
  - intros i Hil Hpi.
    destruct (organize_member _ _ _ H Hil) as (g' & Hg' & Hin).
    unfold group_key in Hg'. rewrite Hpi, Hshape in Hg'. simpl in Hg'.
    now injection Hg' as ->.
  - rewrite generateSlackCommands_render, Hentries, Hshape. reflexivity.
Qed.

(** ** The grouper and the formatter on examples *)

Lemma organizeIssuesByEpic_partition_witness :
  plain_keys [Examples.T1; Examples.T2; Examples.T3]
  /\ no_sentinel_key [Examples.T1; Examples.T2; Examples.T3]
  /\ exists epicGroups,
      organizeIssuesByEpic [Examples.T1; Examples.T2; Examples.T3]
      = Normal epicGroups
      /\ NoDup (map fst epicGroups)
      /\ (forall issue, In issue [Examples.T1; Examples.T2; Examples.T3] ->
          exists g, In (group_key issue, g) epicGroups /\ In issue (issues g))
      /\ (In NO_EPIC (map fst epicGroups)
          <-> exists issue,
              In issue [Examples.T1; Examples.T2; Examples.T3]
              /\ parent issue = None).
Proof.
  assert (Hplain : plain_keys [Examples.T1; Examples.T2; Examples.T3]).
  { intros issue p [<-|[<-|[<-|[]]]] [= <-]; reflexivity. }
  assert (Hno : no_sentinel_key [Examples.T1; Examples.T2; Examples.T3]).
  { intros issue p [<-|[<-|[<-|[]]]] [= <-]; discriminate. }
  split; [exact Hplain|]. split; [exact Hno|].
  destruct (organizeIssuesByEpic_partition
              [Examples.T1; Examples.T2; Examples.T3]) as [Hreturns Hgroups].
  destruct (Hreturns Hplain) as (epicGroups & H).
  destruct (Hgroups epicGroups H) as (Hnd & _ & Hall & Hs).
  exists epicGroups. repeat split; auto; now apply Hs.
Defined.

(** C5, as stated, fails: a ticket whose parent key is the sentinel key goes
    to the sentinel group, which is then present though every ticket has a
    parent. *)
Lemma sentinel_key_collision :
  organizeIssuesByEpic [Examples.T_sentinel]
  = Normal [(NO_EPIC, mkGroup "Tasks without Epic" [Examples.T_sentinel])]
  /\ ~ (In NO_EPIC
          (map fst [(NO_EPIC,
                     mkGroup "Tasks without Epic" [Examples.T_sentinel])])
        <-> exists issue,
            In issue [Examples.T_sentinel] /\ parent issue = None).
Proof.
  split; [reflexivity|].
  intros [Hpresent _].
  destruct (Hpresent (or_introl eq_refl)) as (issue & [<-|[]] & Hp).
  discriminate.
Qed.

Lemma organizeIssuesByEpic_first_name_wins_witness :
  organizeIssuesByEpic [Examples.T1; Examples.T2; Examples.T3]
  = Normal [(NO_EPIC, mkGroup "Tasks without Epic" [Examples.T2]);
            ("EPIC-1", mkGroup "Login" [Examples.T1; Examples.T3])]
  /\ exists before first p after,
      [Examples.T1; Examples.T2; Examples.T3]
      = (before ++ first :: after)%list
      /\ parent first = Some p
      /\ epicName (mkGroup "Login" [Examples.T1; Examples.T3])
         = parent_summary p.
Proof.
  split; [reflexivity|].
  destruct (organizeIssuesByEpic_first_name_wins
              [Examples.T1; Examples.T2; Examples.T3]
              [(NO_EPIC, mkGroup "Tasks without Epic" [Examples.T2]);
               ("EPIC-1", mkGroup "Login" [Examples.T1; Examples.T3])]
              "EPIC-1" (mkGroup "Login" [Examples.T1; Examples.T3]))
    as (before & first & p & after & Hl & _ & Hp & _ & Hn & _).
  - reflexivity.
  - right. left. reflexivity.
  - discriminate.
  - exists before, first, p, after. repeat split; assumption.
Defined.

(** C9, as stated, fails on the sentinel key: the sentinel group is created
    before any ticket is seen, so a ticket whose parent key is the sentinel
    key finds the group there, and the name stays the one of the sentinel, not
    the parent summary the ticket carries. *)
Lemma sentinel_name_kept :
  parent Examples.T_sentinel = Some (mkParent NO_EPIC "Leftovers")
  /\ organizeIssuesByEpic [Examples.T_sentinel]
     = Normal [(NO_EPIC, mkGroup "Tasks without Epic" [Examples.T_sentinel])]
  /\ epicName (mkGroup "Tasks without Epic" [Examples.T_sentinel])
     <> "Leftovers".
Proof. repeat split. discriminate. Qed.

Lemma generateSlackCommands_format_witness :
  Object_entries
    [(NO_EPIC, mkGroup "Tasks without Epic" [Examples.T2]);
     ("EPIC-1", mkGroup "Login" [Examples.T1; Examples.T3])]
  = [(NO_EPIC, mkGroup "Tasks without Epic" [Examples.T2]);
     ("EPIC-1", mkGroup "Login" [Examples.T1; Examples.T3])].
Proof.
  destruct generateSlackCommands_format as (_ & Hplain & _).
  apply Hplain. intros k [<-|[<-|[]]]; reflexivity.
Defined.

(** C6, as stated, fails: the group of the key "7" was inserted after the
    sentinel group and is rendered before it. *)
Lemma index_key_rendered_first :
  generateSlackCommands "https://x.atlassian.net"
    [(NO_EPIC, mkGroup "Tasks without Epic" [Examples.T2]);
     ("7", mkGroup "Seventh" [Examples.T_index])]
  = render "https://x.atlassian.net"
      [("7", mkGroup "Seventh" [Examples.T_index]);
       (NO_EPIC, mkGroup "Tasks without Epic" [Examples.T2])]
  /\ generateSlackCommands "https://x.atlassian.net"
       [(NO_EPIC, mkGroup "Tasks without Epic" [Examples.T2]);
        ("7", mkGroup "Seventh" [Examples.T_index])]
     <> render "https://x.atlassian.net"
          [(NO_EPIC, mkGroup "Tasks without Epic" [Examples.T2]);
           ("7", mkGroup "Seventh" [Examples.T_index])].
Proof. split; [reflexivity | discriminate]. Qed.

Lemma sentinel_group_first_witness :
  exists g rest,
    Object_entries
      [(NO_EPIC, mkGroup "Tasks without Epic" [Examples.T2]);
       ("EPIC-1", mkGroup "Login" [Examples.T1; Examples.T3])]
    = (NO_EPIC, g) :: rest
    /\ generateSlackCommands "https://x.atlassian.net"
         [(NO_EPIC, mkGroup "Tasks without Epic" [Examples.T2]);
          ("EPIC-1", mkGroup "Login" [Examples.T1; Examples.T3])]
       = render_group "https://x.atlassian.net" (NO_EPIC, g)
         ++ render "https://x.atlassian.net" rest.
Proof.
  destruct (sentinel_group_first "https://x.atlassian.net"
              [Examples.T1; Examples.T2; Examples.T3]
              [(NO_EPIC, mkGroup "Tasks without Epic" [Examples.T2]);
               ("EPIC-1", mkGroup "Login" [Examples.T1; Examples.T3])])
    as (g & rest & He & _ & Hout).
  - reflexivity.
  - exists Examples.T2. split; [right; left; reflexivity | reflexivity].
  - intros issue p [<-|[<-|[<-|[]]]] [= <-]; reflexivity.
  - exists g, rest. split; assumption.
Defined.

(** C10, as stated, fails: the key "7" is an array index, so its group is
    enumerated before the sentinel group, and the line of the ticket under
    epic "7" comes before the line of the ticket without a parent. *)
Lemma index_key_precedes_sentinel :
  parent Examples.T2 = None
  /\ organizeIssuesByEpic [Examples.T_index; Examples.T2]
     = Normal [(NO_EPIC, mkGroup "Tasks without Epic" [Examples.T2]);
               ("7", mkGroup "Seventh" [Examples.T_index])]
  /\ Object_entries
       [(NO_EPIC, mkGroup "Tasks without Epic" [Examples.T2]);
        ("7", mkGroup "Seventh" [Examples.T_index])]
     = [("7", mkGroup "Seventh" [Examples.T_index]);
        (NO_EPIC, mkGroup "Tasks without Epic" [Examples.T2])]
  /\ generateSlackCommands "https://x.atlassian.net"
       [(NO_EPIC, mkGroup "Tasks without Epic" [Examples.T2]);
        ("7", mkGroup "Seventh" [Examples.T_index])]
     = "/pp https://x.atlassian.net/browse/T-5 Add index" ++ LF ++ LF
       ++ "/pp https://x.atlassian.net/browse/T-2 Write docs" ++ LF ++ LF.
Proof. repeat split. Qed.

(** ** Computations *)

Lemma post_bind {A B} (m : IO A) (k : A -> IO B) w
  (P : Completion A -> World -> Prop) (Q : Completion B -> World -> Prop) :
  post m w P ->
  (forall a w1, P (Normal a) w1 -> post (k a) w1 Q) ->
  (forall e w1, P (Throw e) w1 -> Q (Throw e) w1) ->
  post (bind m k) w Q.
Proof.
  intros Hm Hk He r w'. unfold bind.
  destruct (m w) as [[[a|e] w1]|] eqn:E; [| |discriminate].
  - intros H. exact (Hk a w1 (Hm _ _ E) r w' H).
  - intros [= <- <-]. exact (He e w1 (Hm _ _ E)).
Qed.

Lemma post_try_catch {A} (body : IO A) (handler : Thrown -> IO A) w
  (P Q : Completion A -> World -> Prop) :
  post body w P ->
  (forall a w1, P (Normal a) w1 -> Q (Normal a) w1) ->
  (forall e w1, P (Throw e) w1 -> post (handler e) w1 Q) ->
  post (try_catch body handler) w Q.
Proof.
  intros Hb Hn Hh r w'. unfold try_catch.
  destruct (body w) as [[[a|e] w1]|] eqn:E; [| |discriminate].
  - intros [= <- <-]. exact (Hn a w1 (Hb _ _ E)).
  - intros H. exact (Hh e w1 (Hb _ _ E) r w' H).
Qed.

Lemma post_weaken {A} (m : IO A) w (P Q : Completion A -> World -> Prop) :
  post m w P -> (forall r w', P r w' -> Q r w') -> post m w Q.
Proof. intros Hm HPQ r w' H. apply HPQ, (Hm _ _ H). Qed.

Lemma logged_only_refl w : logged_only w w.
Proof. repeat split. exists []. now rewrite app_nil_r. Qed.

Lemma logged_only_trans w1 w2 w3 :
  logged_only w1 w2 -> logged_only w2 w3 -> logged_only w1 w3.
Proof.
  intros (Hf1 & Hr1 & m1 & Hc1) (Hf2 & Hr2 & m2 & Hc2).
  repeat split; [congruence | congruence |].
  exists (m1 ++ m2)%list. rewrite Hc2, Hc1. now rewrite app_assoc.
Qed.

Lemma only_logs_ret {A} (a : A) : only_logs (ret a).
Proof. intros w r w' [= <- <-]. apply logged_only_refl. Qed.

Lemma only_logs_throw {A} e : only_logs (@throw A e).
Proof. intros w r w' [= <- <-]. apply logged_only_refl. Qed.

Lemma only_logs_lift {A} (c : option (Completion A)) : only_logs (lift c).
Proof.
  intros w r w'. unfold lift. destruct c; [|discriminate].
  intros [= <- <-]. apply logged_only_refl.
Qed.

Lemma only_logs_await {D} (r : Response D) : only_logs (await r).
Proof. destruct r; [apply only_logs_throw | apply only_logs_ret]. Qed.

Lemma only_logs_console_log message : only_logs (console_log message).
Proof. intros w r w' [= <- <-]. repeat split. simpl. eauto. Qed.

Lemma only_logs_console_error message error :
  only_logs (console_error message error).
Proof. intros w r w' [= <- <-]. repeat split. simpl. eauto. Qed.

Lemma only_logs_bind {A B} (m : IO A) (k : A -> IO B) :
  only_logs m -> (forall a, only_logs (k a)) -> only_logs (bind m k).
Proof.
  intros Hm Hk w. eapply post_bind; [apply Hm | |].
  - intros a w1 H1 r w' H. eapply logged_only_trans; [exact H1|].
    exact (Hk a w1 r w' H).
  - intros e w1 H1. exact H1.
Qed.

Lemma only_logs_try_catch {A} (body : IO A) (handler : Thrown -> IO A) :
  only_logs body -> (forall e, only_logs (handler e)) ->
  only_logs (try_catch body handler).
Proof.
  intros Hb Hh w. eapply post_try_catch; [apply Hb | |].
  - intros a w1 H1. exact H1.
  - intros e w1 H1 r w' H. eapply logged_only_trans; [exact H1|].
    exact (Hh e w1 r w' H).
Qed.

Lemma only_logs_forEach {A} (l : list A) (callback : A -> IO unit) :
  (forall x, only_logs (callback x)) -> only_logs (forEach l callback).
Proof.
  intros Hc. induction l as [|x l IH]; simpl.
  - apply only_logs_ret.
  - apply only_logs_bind; [apply Hc | intros _; exact IH].
Qed.

Ltac only_logs_step :=
  first
    [ apply only_logs_ret
    | apply only_logs_throw
    | apply only_logs_lift
    | apply only_logs_await
    | apply only_logs_console_log
    | apply only_logs_console_error
    | apply only_logs_forEach; intros ?
    | apply only_logs_bind; [|intros ?]
    | apply only_logs_try_catch; [|intros ?]
    | match goal with
      | |- only_logs (if ?b then _ else _) => destruct b
      | |- only_logs (match ?x with _ => _ end) => destruct x
      | |- only_logs (let _ := _ in _) => cbv zeta
      end ].

Lemma post_any {A} (m : IO A) w : post m w (fun _ _ => True).
Proof. intros r w' _. exact I. Qed.

Lemma post_and {A} (m : IO A) w (P Q : Completion A -> World -> Prop) :
  post m w P -> post m w Q -> post m w (fun r w' => P r w' /\ Q r w').
Proof. intros HP HQ r w' H. split; [exact (HP _ _ H) | exact (HQ _ _ H)]. Qed.

Lemma last_entry_snoc c entry file ro :
  last_entry (mkWorld (c ++ [entry]) file ro) = Some entry.
Proof.
  unfold last_entry. simpl. rewrite length_app. simpl.
  replace (length c + 1 - 1)%nat with (length c) by lia.
  rewrite nth_error_app2 by lia. now rewrite Nat.sub_diag.
Qed.

Lemma completes_ret {A} (a : A) : completes (ret a).
Proof. intros w. unfold ret. eauto. Qed.

Lemma completes_throw {A} e : completes (@throw A e).
Proof. intros w. unfold throw. eauto. Qed.

Lemma completes_lift {A} (c : Completion A) : completes (lift (Some c)).
Proof. intros w. unfold lift. eauto. Qed.

Lemma completes_await {D} (r : Response D) : completes (await r).
Proof. destruct r; [apply completes_throw | apply completes_ret]. Qed.

Lemma completes_console_log message : completes (console_log message).
Proof. intros w. unfold console_log. eauto. Qed.

Lemma completes_console_error message error :
  completes (console_error message error).
Proof. intros w. unfold console_error. eauto. Qed.

Lemma completes_writeFileSync data : completes (writeFileSync data).
Proof. intros w. unfold writeFileSync. destruct (fs_read_only w); eauto. Qed.

Lemma completes_bind {A B} (m : IO A) (k : A -> IO B) :
  completes m -> (forall a, completes (k a)) -> completes (bind m k).
Proof.
  intros Hm Hk w. unfold bind. destruct (Hm w) as ([a|e] & w1 & ->); [|eauto].
  apply Hk.
Qed.

Lemma completes_try_catch {A} (body : IO A) (handler : Thrown -> IO A) :
  completes body -> (forall e, completes (handler e)) ->
  completes (try_catch body handler).
Proof.
  intros Hb Hh w. unfold try_catch.
  destruct (Hb w) as ([a|e] & w1 & ->); [eauto|]. apply Hh.
Qed.

Lemma completes_forEach {A} (l : list A) (callback : A -> IO unit) :
  (forall x, completes (callback x)) -> completes (forEach l callback).
Proof.
  intros Hc. induction l as [|x l IH]; simpl.
  - apply completes_ret.
  - apply completes_bind; [apply Hc | intros _; exact IH].
Qed.

Ltac completes_step :=
  first
    [ apply completes_ret
    | apply completes_throw
    | apply completes_lift
    | apply completes_await
    | apply completes_console_log
    | apply completes_console_error
    | apply completes_writeFileSync
    | apply completes_forEach; intros ?
    | apply completes_bind; [|intros ?]
    | apply completes_try_catch; [|intros ?]
    | match goal with
      | |- completes (if ?b then _ else _) => destruct b
      | |- completes (match ?x with _ => _ end) => destruct x
      | |- completes (let _ := _ in _) => cbv zeta
      end ].

Section ProgramFacts.
Variable process_env : string -> option string.
Variable process_argv_2 : option string.
Variable jiraClient : Http.
Variable Date_getTime : string -> option Z.
Context {engine : Engine}.

Lemma only_logs_getAllSprints fuel boardId :
  only_logs (getAllSprints jiraClient Date_getTime fuel boardId).
Proof. unfold getAllSprints. repeat only_logs_step. Qed.

Lemma only_logs_getNextSprint fuel boardId :
  only_logs (getNextSprint jiraClient Date_getTime fuel boardId).
Proof.
  unfold getNextSprint.
  repeat first [apply only_logs_getAllSprints | only_logs_step].
Qed.

Lemma only_logs_getReadyToSizeIssuesFromSprint sprintId :
  only_logs (getReadyToSizeIssuesFromSprint jiraClient sprintId).
Proof. unfold getReadyToSizeIssuesFromSprint. repeat only_logs_step. Qed.

Lemma only_logs_getSprintFromAgileAPI ticketKey :
  only_logs (getSprintFromAgileAPI jiraClient ticketKey).
Proof. unfold getSprintFromAgileAPI. repeat only_logs_step. Qed.

Lemma only_logs_report found : only_logs (report process_env found).
Proof. unfold report. repeat only_logs_step. Qed.

(** *** The loop of [getAllSprints] *)

Lemma fetch_loop_after_turns k boardId : forall st st' fuel,
  turns jiraClient k boardId st = Some st' ->
  fetch_loop jiraClient (k + fuel) boardId st
  = fetch_loop jiraClient fuel boardId st'.
Proof.
  induction k as [|k IH]; simpl; intros st st' fuel.
  - now intros [= ->].
  - destruct (fetch_continues st); [|discriminate].
    destruct (fetch_page jiraClient boardId st) as [next|]; [|discriminate].
    apply IH.
Qed.

(** A productive tracker makes every turn of the loop collect a sprint or
    end the loop, so the loop ends within [MAX_SPRINTS_TO_FETCH] turns. *)
Lemma fetch_loop_productive boardId :
  productive jiraClient boardId ->
  forall fuel st,
    (MAX_SPRINTS_TO_FETCH - length (sprints st) <= fuel)%nat ->
    fetch_loop jiraClient fuel boardId st <> None.
Proof.
  intros Hprod. induction fuel as [|fuel IH]; intros st Hfuel.
  - simpl. unfold fetch_continues.
    destruct (length (sprints st) <? MAX_SPRINTS_TO_FETCH)%nat eqn:E.
    + apply Nat.ltb_lt in E. lia.
    + rewrite andb_false_r. discriminate.
  - simpl. destruct (fetch_continues st) eqn:Hc; [|discriminate].
    unfold fetch_page.
    destruct (get_board_sprints jiraClient boardId (startAt st))
      as [|[[[vs|] last tot]|]] eqn:Hget; try discriminate.
    + destruct vs as [|v vs].
      * cbn [length]. rewrite (Hprod _ _ _ Hget).
        destruct fuel; simpl; discriminate.
      * apply IH. cbn [sprints]. rewrite length_app. cbn [length].
        unfold fetch_continues in Hc. apply andb_true_iff in Hc.
        destruct Hc as [_ Hc]. apply Nat.ltb_lt in Hc. lia.
    + destruct fuel; simpl; discriminate.
    + destruct fuel; simpl; discriminate.
Qed.

Lemma getAllSprints_returns fuel boardId collected w :
  fetch_loop jiraClient fuel boardId fetch_start = Some (Normal collected) ->
  getAllSprints jiraClient Date_getTime fuel boardId w
  = Some (Normal (sortSprints Date_getTime collected), w).
Proof.
  intros H. unfold getAllSprints, try_catch, bind, lift. now rewrite H.
Qed.

Lemma getAllSprints_catches fuel boardId error w :
  fetch_loop jiraClient fuel boardId fetch_start = Some (Throw error) ->
  getAllSprints jiraClient Date_getTime fuel boardId w
  = Some (Normal [],
          mkWorld
            (console w
             ++ [console_error_entry
                   ("Error fetching sprints for board " ++ boardId ++ ":")
                   (Some error)])
            (slack_commands_md w) (fs_read_only w)).
Proof.
  intros H. unfold getAllSprints, try_catch, bind, lift. now rewrite H.
Qed.

Lemma completes_getAllSprints fuel boardId :
  fetch_loop jiraClient fuel boardId fetch_start <> None ->
  completes (getAllSprints jiraClient Date_getTime fuel boardId).
Proof.
  intros H w.
  destruct (fetch_loop jiraClient fuel boardId fetch_start) as [[c|e]|] eqn:E;
    [| |tauto].
  - rewrite (getAllSprints_returns _ _ _ _ E). eauto.
  - rewrite (getAllSprints_catches _ _ _ _ E). eauto.
Qed.

Lemma completes_getNextSprint fuel boardId :
  fetch_loop jiraClient fuel boardId fetch_start <> None ->
  completes (getNextSprint jiraClient Date_getTime fuel boardId).
Proof.
  intros H. unfold getNextSprint.
  repeat first [apply (completes_getAllSprints _ _ H) | completes_step].
Qed.

Lemma completes_getReadyToSizeIssuesFromSprint sprintId :
  completes (getReadyToSizeIssuesFromSprint jiraClient sprintId).
Proof. unfold getReadyToSizeIssuesFromSprint. repeat completes_step. Qed.

Lemma completes_getSprintFromAgileAPI ticketKey :
  completes (getSprintFromAgileAPI jiraClient ticketKey).
Proof. unfold getSprintFromAgileAPI. repeat completes_step. Qed.

Lemma completes_report found : completes (report process_env found).
Proof. unfold report. repeat completes_step. Qed.

Lemma completes_ticket_mode ticketKey :
  completes (ticket_mode process_env jiraClient ticketKey).
Proof.
  unfold ticket_mode.
  repeat first [ apply completes_getSprintFromAgileAPI
               | apply completes_getReadyToSizeIssuesFromSprint
               | apply completes_report
               | completes_step ].
Qed.

Lemma completes_board_mode fuel :
  fetch_loop jiraClient fuel (JIRA_BOARD_ID process_env) fetch_start <> None ->
  completes (board_mode process_env jiraClient Date_getTime fuel).
Proof.
  intros H. unfold board_mode.
  repeat first [ apply (completes_getNextSprint _ _ H)
               | apply completes_getReadyToSizeIssuesFromSprint
               | apply completes_report
               | completes_step ].
Qed.

Lemma only_logs_board_mode fuel :
  only_logs (board_mode process_env jiraClient Date_getTime fuel).
Proof.
  unfold board_mode.
  repeat first [ apply only_logs_getNextSprint
               | apply only_logs_getReadyToSizeIssuesFromSprint
               | apply only_logs_report
               | only_logs_step ].
Qed.

End ProgramFacts.

Section OrchestratorFacts.
Variable process_env : string -> option string.
Variable process_argv_2 : option string.
Variable jiraClient : Http.
Variable Date_getTime : string -> option Z.
Context {engine : Engine}.

Lemma report_post found w :
  post (report process_env found) w
    (fun r w' =>
       match r with
       | Normal rendered => reported (JIRA_BASE_URL process_env) w' rendered
       | Throw _ => True
       end).
Proof.
  intros r w'. unfold report, bind, console_log, lift, ret.
  destruct (organizeIssuesByEpic found) as [epicGroups|e] eqn:E;
    intros [= <- <-]; [|exact I].
  exists found, epicGroups. repeat split; [exact E|].
  cbn [console]. apply in_or_app. right. now left.
Qed.

Lemma ticket_mode_post ticketKey w :
  post (ticket_mode process_env jiraClient ticketKey) w
    (fun r w' =>
       match r with
       | Normal t =>
           t <> Failed /\ failure_logged t w'
           /\ (t = Done ->
               exists rendered,
                 reported (JIRA_BASE_URL process_env) w' rendered
                 /\ slack_commands_md w' = Some rendered)
       | Throw _ => True
       end).
Proof.
  unfold ticket_mode.
  eapply post_bind; [apply post_any | intros _ w1 _ | intros; exact I].
  eapply post_bind; [apply post_any | intros _ w2 _ | intros; exact I].
  eapply post_bind; [apply post_any | intros sprint w3 _ | intros; exact I].
  destruct sprint as [sprint|].
  - eapply post_bind; [apply post_any | intros _ w4 _ | intros; exact I].
    eapply post_bind; [apply post_any | intros _ w5 _ | intros; exact I].
    eapply post_bind; [apply post_any | intros found w6 _ | intros; exact I].
    destruct (length found =? 0)%nat.
    + intros r w' [= <- <-]. split; [discriminate|]. split; [|discriminate].
      eexists. apply last_entry_snoc.
    + eapply post_bind; [apply report_post | | intros; exact I].
      intros rendered w7 Hrep r w'.
      unfold bind, writeFileSync, console_log, ret.
      destruct (fs_read_only w7); intros [= <- <-]; [exact I|].
      split; [discriminate|]. split; [exact I|]. intros _.
      exists rendered. split; [|reflexivity].
      destruct Hrep as (fnd & epicGroups & H1 & H2 & H3).
      exists fnd, epicGroups. repeat split; try assumption.
      cbn [console]. apply in_or_app. now left.
  - intros r w' [= <- <-]. split; [discriminate|]. split; [|discriminate].
    eexists. apply last_entry_snoc.
Qed.

Lemma board_mode_post fuel w :
  post (board_mode process_env jiraClient Date_getTime fuel) w
    (fun r w' =>
       match r with
       | Normal t =>
           t <> Failed /\ failure_logged t w'
           /\ (t = Done -> exists rendered, reported (JIRA_BASE_URL process_env) w' rendered)
       | Throw _ => True
       end).
Proof.
  unfold board_mode. cbv zeta.
  eapply post_bind; [apply post_any | intros _ w1 _ | intros; exact I].
  eapply post_bind; [apply post_any | intros _ w2 _ | intros; exact I].
  eapply post_bind; [apply post_any | intros sprint w3 _ | intros; exact I].
  destruct sprint as [sprint|].
  - eapply post_bind; [apply post_any | intros _ w4 _ | intros; exact I].
    eapply post_bind; [apply post_any | intros _ w5 _ | intros; exact I].
    eapply post_bind; [apply post_any | intros found w6 _ | intros; exact I].
    destruct (length found =? 0)%nat.
    + intros r w' [= <- <-]. split; [discriminate|]. split; [|discriminate].
      eexists. apply last_entry_snoc.
    + eapply post_bind; [apply report_post | | intros; exact I].
      intros rendered w7 Hrep r w' [= <- <-].
      split; [discriminate|]. split; [exact I|]. intros _.
      now exists rendered.
  - intros r w' [= <- <-]. split; [discriminate|]. split; [|discriminate].
    eexists. apply last_entry_snoc.
Qed.

(** [main] never throws; what it logged tells how it ended; and when it
    reached the report, the rendered text is on the console, and in the
    file exactly when a ticket was named. *)
Lemma main_post fuel w :
  post (main process_env process_argv_2 jiraClient Date_getTime fuel) w
    (fun r w' =>
       exists t,
         r = Normal t /\ failure_logged t w'
         /\ (t = Done ->
             exists rendered,
               reported (JIRA_BASE_URL process_env) w' rendered
               /\ match ticket_argument process_argv_2 with
                  | Some _ => slack_commands_md w' = Some rendered
                  | None => slack_commands_md w' = slack_commands_md w
                  end)).
Proof.
  unfold main.
  eapply post_try_catch with
    (P := fun r w' =>
            match r with
            | Normal t =>
                t <> Failed /\ failure_logged t w'
                /\ (t = Done ->
                    exists rendered,
                      reported (JIRA_BASE_URL process_env) w' rendered
                      /\ match ticket_argument process_argv_2 with
                         | Some _ => slack_commands_md w' = Some rendered
                         | None =>
                             slack_commands_md w' = slack_commands_md w
                         end)
            | Throw _ => True
            end).
  - destruct (ticket_argument process_argv_2) as [ticketKey|].
    + apply ticket_mode_post.
    + eapply post_weaken;
        [apply post_and; [apply board_mode_post | apply only_logs_board_mode]|].
      intros [t|e] w' [H1 H2]; [|exact I].
      destruct H1 as (Hne & Hlog & Hdone). repeat split; try assumption.
      intros Ht. destruct (Hdone Ht) as (rendered & Hrep).
      exists rendered. split; [exact Hrep | apply H2].
  - intros t w1 (Hne & Hlog & Hdone). exists t. auto.
  - intros e w1 _ r w' [= <- <-]. exists Failed.
    split; [reflexivity|]. split; [|discriminate].
    exists e. apply last_entry_snoc.
Qed.

Lemma completes_main fuel :
  ticket_argument process_argv_2 <> None
  \/ fetch_loop jiraClient fuel (JIRA_BOARD_ID process_env) fetch_start
     <> None ->
  completes (main process_env process_argv_2 jiraClient Date_getTime fuel).
Proof.
  intros H. unfold main. apply completes_try_catch.
  - destruct (ticket_argument process_argv_2) as [ticketKey|].
    + apply completes_ticket_mode.
    + apply completes_board_mode. destruct H as [H|H]; [tauto | exact H].
  - intros e. repeat completes_step.
Qed.

End OrchestratorFacts.

(** ** The Sprint Repository *)

(** C2 (as amended). When a page request fails during sprint listing, after
    any number of pages that were fetched and did not end the loop,
    [getAllSprints] logs the error and returns the empty sequence: the
    sprints collected from the earlier pages are dropped, and the failure is
    not propagated. *)
Theorem getAllSprints_failure_returns_empty {engine : Engine}
  (jiraClient : Http) (Date_getTime : string -> option Z)
  (fuel : nat) (boardId : string) (k : nat) (st : FetchState) (w : World) :
  turns jiraClient k boardId fetch_start = Some st ->
  fetch_continues st = true ->
  get_board_sprints jiraClient boardId (startAt st) = Rejected ->
  (k < fuel)%nat ->
  getAllSprints jiraClient Date_getTime fuel boardId w
  = Some (Normal [],
          mkWorld
            (console w
             ++ [console_error_entry
                   ("Error fetching sprints for board " ++ boardId ++ ":")
                   (Some RequestError)])
            (slack_commands_md w) (fs_read_only w)).
Proof.
  intros Hturns Hcont Hfail Hfuel. apply getAllSprints_catches.
  replace fuel with (k + S (fuel - S k))%nat by lia.
  rewrite (fetch_loop_after_turns _ _ _ _ _ _ Hturns).
  simpl. rewrite Hcont. unfold fetch_page. now rewrite Hfail.
Qed.

Lemma getAllSprints_failure_returns_empty_witness :
  turns Examples.failing_second_page 1 "42" fetch_start
  = Some (mkFetch [Examples.january] 50 false)
  /\ getAllSprints Examples.failing_second_page Examples.Date_getTime 5 "42"
       Examples.fresh
     = Some (Normal [],
             mkWorld
               [console_error_entry "Error fetching sprints for board 42:"
                  (Some RequestError)]
               None false).
Proof.
  split; [reflexivity|].
  apply (getAllSprints_failure_returns_empty Examples.failing_second_page
           Examples.Date_getTime 5 "42" 1
           (mkFetch [Examples.january] 50 false) Examples.fresh).
  - reflexivity.
  - reflexivity.
  - reflexivity.
  - lia.
Defined.

(** C2, as stated, fails: the first page brought one sprint, the request
    for the second page fails, and the sprint collected so far is not in what
    [getAllSprints] returns. *)
Lemma partial_results_dropped :
  exists st result w',
    turns Examples.failing_second_page 1 "42" fetch_start = Some st
    /\ sprints st = [Examples.january]
    /\ get_board_sprints Examples.failing_second_page "42" (startAt st)
       = Rejected
    /\ getAllSprints Examples.failing_second_page Examples.Date_getTime 5 "42"
         Examples.fresh
       = Some (Normal result, w')
    /\ result <> sprints st
    /\ ~ In Examples.january result.
Proof.
  exists (mkFetch [Examples.january] 50 false), [].
  eexists. repeat split; try reflexivity.
  - discriminate.
  - intros [].
Qed.





Lemma nth_error_last {A} (earlier : list A) (latest : A) :
  nth_error (earlier ++ [latest]) (length (earlier ++ [latest]) - 1)
  = Some latest.
Proof.
  rewrite length_app. simpl.
  replace (length earlier + 1 - 1)%nat with (length earlier) by lia.
  rewrite nth_error_app2 by lia. now rewrite Nat.sub_diag.
Qed.

(** C4. [getSprintFromAgileAPI] returns the last element of the sprint
    field of the ticket when the field is a non-empty array, and nothing when
    the field is missing, is not an array, or is empty; on the field
    [[S1; S2]] it returns [S2]. *)
Theorem getSprintFromAgileAPI_last {engine : Engine}
  (jiraClient : Http) (ticketKey : string) (w : World) :
  (forall earlier latest,
      get_agile_issue jiraClient ticketKey
      = Resolved (Some (mkAgileIssue (Some (js_array (earlier ++ [latest]))))) ->
      exists w',
        getSprintFromAgileAPI jiraClient ticketKey w
        = Some (Normal (Some latest), w'))
  /\ (forall field,
      get_agile_issue jiraClient ticketKey
      = Resolved (Some (mkAgileIssue (Some field))) ->
      field = js_undefined \/ Array_isArray field = false
      \/ field = js_array [] ->
      exists w',
        getSprintFromAgileAPI jiraClient ticketKey w = Some (Normal None, w'))
  /\ (get_agile_issue jiraClient ticketKey
      = Resolved (Some (mkAgileIssue
                          (Some (js_array [Examples.S1; Examples.S2])))) ->
      exists w',
        getSprintFromAgileAPI jiraClient ticketKey w
        = Some (Normal (Some Examples.S2), w')).
Proof.
  assert (Hlast : forall earlier latest,
      get_agile_issue jiraClient ticketKey
      = Resolved (Some (mkAgileIssue (Some (js_array (earlier ++ [latest]))))) ->
      exists w',
        getSprintFromAgileAPI jiraClient ticketKey w
        = Some (Normal (Some latest), w')); [|split; [exact Hlast | split]].
  - intros earlier latest Hget.
    unfold getSprintFromAgileAPI, try_catch, bind, await, lift.
    rewrite Hget. cbn [ret read_sprint_field truthy Array_isArray elements_of andb].
    rewrite nth_error_last.
    assert (Hlen : (0 <? length (earlier ++ [latest]))%nat = true).
    { apply Nat.ltb_lt. rewrite length_app. simpl. lia. }
    rewrite Hlen. destruct latest. eexists. reflexivity.
  - intros field Hget Hfield.
    unfold getSprintFromAgileAPI, try_catch, bind, await, lift.
    rewrite Hget. cbn [ret read_sprint_field].
    assert (Hcond : truthy field && Array_isArray field
                    && (0 <? length (elements_of field))%nat = false).
    { destruct Hfield as [->|[H| ->]]; [reflexivity | | reflexivity].
      rewrite H. now rewrite andb_false_r. }
    rewrite Hcond. eexists. reflexivity.
  - exact (Hlast [Examples.S1] Examples.S2).
Qed.

Lemma getSprintFromAgileAPI_last_witness :
  exists w',
    getSprintFromAgileAPI Examples.tracker "PROJ-123" Examples.fresh
    = Some (Normal (Some Examples.S2), w').
Proof.
  destruct (getSprintFromAgileAPI_last Examples.tracker "PROJ-123"
              Examples.fresh) as (_ & _ & Hexample).
  apply Hexample. reflexivity.
Defined.

(** ** The Run Orchestrator *)

(** C7. The process ends with a non-zero code only when a required
    configuration value is missing: then it ends with code 1 whatever the
    rest, after the diagnostic.  With the configuration complete, every run
    that ends, ends with code 0, [main] having returned without an exception
    and having logged how it ended when it did not reach the report; and the
    run does end, in ticket mode always, and in board mode when the tracker
    never answers with an empty page that is not the last one. *)
Theorem program_exit_code {engine : Engine}
  (process_env : string -> option string) (process_argv_2 : option string)
  (jiraClient : Http) (Date_getTime : string -> option Z) :
  (config_missing process_env = true ->
   forall fuel w,
   exists w',
     program process_env process_argv_2 jiraClient Date_getTime fuel w
     = Some (mkOutcome 1 w')
     /\ last_entry w'
        = Some (console_error_entry
                  "Missing required environment variables. Please check your .env file."
                  None))
  /\ (config_missing process_env = false ->
      (forall fuel w out,
          program process_env process_argv_2 jiraClient Date_getTime fuel w
          = Some out ->
          exit_code out = 0
          /\ exists t,
              main process_env process_argv_2 jiraClient Date_getTime fuel w
              = Some (Normal t, final out)
              /\ failure_logged t (final out))
      /\ (ticket_argument process_argv_2 <> None
          \/ productive jiraClient (JIRA_BOARD_ID process_env) ->
          forall fuel w,
            (MAX_SPRINTS_TO_FETCH <= fuel)%nat ->
            exists out,
              program process_env process_argv_2 jiraClient Date_getTime fuel w
              = Some out)).
Proof.
  split.
  - intros Hmissing fuel w. unfold program. rewrite Hmissing.
    unfold console_error. eexists. split; [reflexivity|].
    apply last_entry_snoc.
  - intros Hconfig. split.
    + intros fuel w out. unfold program. rewrite Hconfig.
      destruct (main process_env process_argv_2 jiraClient Date_getTime fuel w)
        as [[r w']|] eqn:E; [|discriminate].
      destruct (main_post _ _ _ _ _ _ _ _ E) as (t & -> & Hlog & _).
      intros [= <-]. split; [reflexivity|]. exists t. now split.
    + intros Hends fuel w Hfuel. unfold program. rewrite Hconfig.
      destruct (completes_main process_env process_argv_2 jiraClient
                  Date_getTime fuel) with (w := w) as (r & w' & E).
      * destruct Hends as [Hticket|Hprod]; [now left | right].
        apply fetch_loop_productive; [exact Hprod|].
        cbn [sprints fetch_start length]. lia.
      * rewrite E. destruct r; eauto.
Qed.

Lemma program_exit_code_witness :
  (exists w',
      program Examples.no_env None Examples.unreachable Examples.Date_getTime 0
        Examples.fresh
      = Some (mkOutcome 1 w'))
  /\ (exists out,
      program Examples.env None Examples.unreachable Examples.Date_getTime
        MAX_SPRINTS_TO_FETCH Examples.fresh
      = Some out
      /\ exit_code out = 0).
Proof.
  split.
  - destruct (program_exit_code Examples.no_env None Examples.unreachable
                Examples.Date_getTime) as [Hmissing _].
    destruct (Hmissing eq_refl 0%nat Examples.fresh) as (w' & Hrun & _).
    now exists w'.
  - destruct (program_exit_code Examples.env None Examples.unreachable
                Examples.Date_getTime) as [_ Hcomplete].
    destruct (Hcomplete eq_refl) as [Hzero Hends].
    assert (Hprod : productive Examples.unreachable
                      (JIRA_BOARD_ID Examples.env))
      by (intros at_ last tot H; discriminate H).
    destruct (Hends (or_intror Hprod) MAX_SPRINTS_TO_FETCH Examples.fresh
                (le_n _))
      as (out & Hrun).
    exists out. split; [exact Hrun|]. exact (proj1 (Hzero _ _ _ Hrun)).
Defined.

(** A run in board mode against a tracker that does not answer: the
    failure is logged where it is caught, no sprint is found, and the process
    ends with code 0 without touching the file. *)
Example run_against_unreachable_tracker :
  program Examples.env None Examples.unreachable Examples.Date_getTime 5
    Examples.stale
  = Some
      (mkOutcome 0
         (mkWorld
            [console_log_entry
               (LF ++ "===== PROCEEDING WITH BOARD ID 42 =====");
             console_log_entry "Fetching next sprint...";
             console_error_entry "Error fetching sprints for board 42:"
               (Some RequestError);
             console_log_entry "Found 0 total sprints for board 42";
             console_log_entry "=== RECENT SPRINTS ===";
             console_log_entry "Found 0 future sprints";
             console_log_entry
               "No future sprints found, checking for active sprints...";
             console_error_entry "No future sprint found." None]
            (Some "old content") false)).
Proof. reflexivity. Qed.

(** C8. On a run that reaches the report, the rendered text is printed on
    the console; it is the whole content of the output file afterwards when a
    ticket was named on the command line, whatever the file held, and the
    file is left as it was when none was. *)
Theorem output_file_only_in_ticket_mode {engine : Engine}
  (process_env : string -> option string) (process_argv_2 : option string)
  (jiraClient : Http) (Date_getTime : string -> option Z)
  (fuel : nat) (w w' : World) :
  main process_env process_argv_2 jiraClient Date_getTime fuel w
  = Some (Normal Done, w') ->
  exists rendered,
    reported (JIRA_BASE_URL process_env) w' rendered
    /\ match ticket_argument process_argv_2 with
       | Some _ => slack_commands_md w' = Some rendered
       | None => slack_commands_md w' = slack_commands_md w
       end.
Proof.
  intros E. destruct (main_post _ _ _ _ _ _ _ _ E) as (t & [= <-] & _ & Hdone).
  now apply Hdone.
Qed.

Lemma output_file_only_in_ticket_mode_witness :
  (exists w' rendered,
      main Examples.env (Some "PROJ-123") Examples.tracker
        Examples.Date_getTime 5 Examples.stale
      = Some (Normal Done, w')
      /\ slack_commands_md w' = Some rendered
      /\ In (console_log_entry rendered) (console w'))
  /\ (exists w',
      main Examples.env None Examples.tracker Examples.Date_getTime 5
        Examples.stale
      = Some (Normal Done, w')
      /\ slack_commands_md w' = Some "old content").
Proof.
  split.
  - assert (E : exists w',
               main Examples.env (Some "PROJ-123") Examples.tracker
                 Examples.Date_getTime 5 Examples.stale
               = Some (Normal Done, w'))
      by (vm_compute; eexists; reflexivity).
    destruct E as (w' & E).
    destruct (output_file_only_in_ticket_mode _ _ _ _ _ _ _ E)
      as (rendered & (_ & _ & _ & _ & Hin) & Hfile).
    exists w', rendered. repeat split; assumption.
  - assert (E : exists w',
               main Examples.env None Examples.tracker
                 Examples.Date_getTime 5 Examples.stale
               = Some (Normal Done, w'))
      by (vm_compute; eexists; reflexivity).
    destruct E as (w' & E).
    destruct (output_file_only_in_ticket_mode _ _ _ _ _ _ _ E)
      as (rendered & _ & Hfile).
    exists w'. split; assumption.
Defined.

(** ** The Sprint Selector *)

Lemma selectNextSprint_spec (allSprints : list Sprint) :
  selectNextSprint allSprints = selector_spec allSprints.
Proof.
  unfold selectNextSprint, selector_spec.
  destruct (0 <? length (filter isFutureNonDevOps allSprints))%nat eqn:Hf.
  - destruct (filter_nonempty_find _ _ Hf) as [x Hx].
    rewrite filter_head_find, Hx. reflexivity.
  - rewrite (filter_empty_find _ _ Hf).
    destruct (0 <? length (filter isActive allSprints))%nat eqn:Ha.
    + destruct (filter_nonempty_find _ _ Ha) as [x Hx].
      rewrite filter_head_find, Hx. reflexivity.
    + rewrite (filter_empty_find _ _ Ha).
      destruct allSprints; reflexivity.
Qed.

Lemma forEach_returns {A} (l : list A) (callback : A -> IO unit) :
  (forall x w, exists w', callback x w = Some (Normal tt, w')) ->
  forall w, exists w', forEach l callback w = Some (Normal tt, w').
Proof.
  intros Hc. induction l as [|x l IH]; simpl; intros w.
  - unfold ret. eauto.
  - unfold bind. destruct (Hc x w) as (w1 & ->). apply IH.
Qed.

(** [getNextSprint] returns what the selector picks among the sprints
    [getAllSprints] returned. *)
Lemma getNextSprint_selects {engine : Engine}
  (jiraClient : Http) (Date_getTime : string -> option Z)
  (fuel : nat) (boardId : string) (w w1 : World) (allSprints : list Sprint) :
  getAllSprints jiraClient Date_getTime fuel boardId w
  = Some (Normal allSprints, w1) ->
  exists w2,
    getNextSprint jiraClient Date_getTime fuel boardId w
    = Some (Normal (selectNextSprint allSprints), w2).
Proof.
  intros Hall. unfold getNextSprint, try_catch.
  unfold bind at 1. rewrite Hall.
  unfold bind at 1. cbn [console_log].
  unfold bind at 1. cbn [console_log].
  unfold bind at 1.
  match goal with
  | |- context [forEach allSprints ?cb ?w0] =>
      destruct (forEach_returns allSprints cb) with (w := w0) as (w3 & ->)
  end.
  - intros sprint w0. unfold bind, console_log. eauto.
  - unfold selectNextSprint, bind, console_log, ret. cbv zeta.
    destruct (0 <? length (filter isFutureNonDevOps allSprints))%nat; [eauto|].
    destruct (0 <? length (filter isActive allSprints))%nat; [eauto|].
    destruct (0 <? length allSprints)%nat; eauto.
Qed.

(** C1. Three-tier fallback of the Sprint Selector: on every sequence of
    sprints the selector returns the first sprint whose state is "future" and
    whose name does not contain "DevOps" when there is one, else the first
    sprint whose state is "active" when there is one, else the first sprint
    of the sequence when it is not empty, else nothing; and that is what
    [getNextSprint] returns on the sequence [getAllSprints] gave it. *)
Theorem getNextSprint_three_tier
  {engine : Engine} (allSprints : list Sprint) :
  selectNextSprint allSprints
  = match find isFutureNonDevOps allSprints with
    | Some s => Some s
    | None =>
        match find isActive allSprints with
        | Some s => Some s
        | None => hd_error allSprints
        end
    end
  /\ forall jiraClient Date_getTime fuel boardId w w1,
      getAllSprints jiraClient Date_getTime fuel boardId w
      = Some (Normal allSprints, w1) ->
      exists w2,
        getNextSprint jiraClient Date_getTime fuel boardId w
        = Some (Normal (selector_spec allSprints), w2).
Proof.
  split; [apply selectNextSprint_spec|].
  intros jiraClient Date_getTime fuel boardId w w1 Hall.
  rewrite <- selectNextSprint_spec. eapply getNextSprint_selects, Hall.
Qed.

Lemma getNextSprint_three_tier_witness :
  exists w2,
    getNextSprint Examples.tracker Examples.Date_getTime 5 "42" Examples.fresh
    = Some (Normal (Some Examples.march), w2).
Proof.
  destruct (getNextSprint_three_tier
              [Examples.march; Examples.february; Examples.january])
    as [_ Hio].
  apply (Hio Examples.tracker Examples.Date_getTime 5%nat "42" Examples.fresh
           Examples.fresh).
  reflexivity.
Defined.

(** ** More on the Sprint Repository *)

Lemma firstn_firstn_skipn {A} (n m : nat) (l : list A) :
  (firstn n l ++ firstn m (skipn n l))%list = firstn (n + m) l.
Proof.
  revert l. induction n as [|n IH]; intros l; simpl; [reflexivity|].
  destruct l as [|x l]; simpl.
  - now rewrite firstn_nil.
  - now rewrite IH.
Qed.

Section Paging.
Variable jiraClient : Http.
Variable Date_getTime : string -> option Z.
Context {engine : Engine}.
Variable boardId : string.

Lemma turns_collects k : forall st st',
  turns jiraClient k boardId st = Some st' ->
  sprints st'
  = (sprints st
     ++ flat_map (fun o => page_values jiraClient boardId (startAt st + o))
          (offsets k))%list
  /\ (isLast st' = false -> startAt st' = startAt st + maxResults * Z.of_nat k).
Proof.
  induction k as [|k IH]; intros st st'.
  - simpl. intros [= <-]. rewrite app_nil_r. split; [reflexivity|]. lia.
  - cbn [turns]. destruct (fetch_continues st); [|discriminate].
    unfold offsets. cbn [seq map]. rewrite <- seq_shift, map_map.
    cbn [flat_map].
    destruct (fetch_page jiraClient boardId st) as [next|] eqn:Hpage;
      [|discriminate].
    intros Hturns. destruct (IH _ _ Hturns) as [Hs Ha].
    assert (Hnext :
      sprints next
      = (sprints st ++ page_values jiraClient boardId (startAt st))%list
      /\ (isLast next = false -> startAt next = startAt st + maxResults)).
    { unfold fetch_page, page_values in *.
      destruct (get_board_sprints jiraClient boardId (startAt st))
        as [|[[[vs|] last tot]|]]; try discriminate;
        injection Hpage as <-; cbn [sprints startAt isLast];
        rewrite ?app_nil_r; split; try reflexivity; discriminate. }
    destruct Hnext as [Hn1 Hn2].
    assert (Hlast : isLast next = false \/ k = O).
    { destruct (isLast next) eqn:E; [right | now left].
      destruct k; [reflexivity|]. cbn [turns] in Hturns.
      unfold fetch_continues in Hturns. rewrite E in Hturns. discriminate. }
    rewrite Z.mul_0_r, Z.add_0_r. split.
    + rewrite Hs, Hn1, <- app_assoc. do 2 f_equal. unfold offsets.
      destruct Hlast as [Hl| ->]; [|reflexivity].
      rewrite (Hn2 Hl), !flat_map_concat_map, !map_map.
      f_equal. apply map_ext. intros i. f_equal. lia.
    + intros Hl'. destruct Hlast as [Hl| ->].
      * rewrite (Ha Hl'), (Hn2 Hl). lia.
      * simpl in Hturns. injection Hturns as <-. rewrite (Hn2 Hl'). lia.
Qed.

Lemma fetch_loop_unfold fuel st :
  fetch_loop jiraClient fuel boardId st
  = if fetch_continues st then
      match fuel with
      | O => None
      | S fuel' =>
          match fetch_page jiraClient boardId st with
          | Normal st' => fetch_loop jiraClient fuel' boardId st'
          | Throw e => Some (Throw e)
          end
      end
    else Some (Normal (sprints st)).
Proof. destruct fuel; reflexivity. Qed.

Lemma fetch_loop_serves all :
  serves_pages jiraClient boardId all ->
  forall fuel k,
    (20 <= k + fuel)%nat -> (k <= 20)%nat ->
    (k = 0%nat \/ (50 * k < length all)%nat) ->
    fetch_loop jiraClient fuel boardId
      (mkFetch (firstn (50 * k) all) (maxResults * Z.of_nat k) false)
    = Some (Normal (firstn 1000 all)).
Proof.
  intros Hserves. induction fuel as [|fuel IH]; intros k Hfuel Hk Hreach;
    rewrite fetch_loop_unfold; unfold fetch_continues;
    cbn [sprints isLast negb andb]; rewrite length_firstn;
    unfold MAX_SPRINTS_TO_FETCH;
    destruct (Nat.min (50 * k) (length all) <? 1000)%nat eqn:Hcap.
  - apply Nat.ltb_lt in Hcap. lia.
  - apply Nat.ltb_ge in Hcap. replace (50 * k)%nat with 1000%nat by lia.
    reflexivity.
  - apply Nat.ltb_lt in Hcap.
    destruct (Hserves k) as (last & Hget & Hlast).
    unfold fetch_page. cbn [startAt sprints]. rewrite Hget.
    rewrite firstn_firstn_skipn, length_firstn, length_skipn.
    destruct (last
              || (Z.of_nat (length all)
                  <=? maxResults * Z.of_nat k
                      + Z.of_nat (Nat.min 50 (length all - 50 * k))))
      eqn:Hend.
    + rewrite fetch_loop_unfold. unfold fetch_continues.
      cbn [sprints isLast negb andb].
      assert (Hall : (length all <= 50 * k + 50)%nat).
      { apply orb_true_iff in Hend. destruct Hend as [->|Hend]; [now apply Hlast|].
        apply Z.leb_le in Hend. unfold maxResults in Hend. lia. }
      rewrite !firstn_all2 by lia. reflexivity.
    + apply orb_false_iff in Hend. destruct Hend as [_ Hend].
      apply Z.leb_gt in Hend. unfold maxResults in Hend.
      replace (50 * k + 50)%nat with (50 * S k)%nat by lia.
      replace (maxResults * Z.of_nat k + maxResults)
        with (maxResults * Z.of_nat (S k)) by (unfold maxResults; lia).
      apply IH; lia.
  - apply Nat.ltb_ge in Hcap. replace (50 * k)%nat with 1000%nat by lia.
    reflexivity.
Qed.

Lemma fetch_loop_stalls :
  stalls jiraClient boardId ->
  forall fuel st,
    isLast st = false ->
    (length (sprints st) < MAX_SPRINTS_TO_FETCH)%nat ->
    fetch_loop jiraClient fuel boardId st = None.
Proof.
  intros Hstalls. induction fuel as [|fuel IH]; intros st Hlast Hlen;
    rewrite fetch_loop_unfold; unfold fetch_continues; rewrite Hlast;
    apply Nat.ltb_lt in Hlen as Hlt; rewrite Hlt; cbn [negb andb];
    [reflexivity|].
  destruct (Hstalls (startAt st)) as (tot & Hget & Htot).
  unfold fetch_page. rewrite Hget. apply IH; cbn [isLast sprints].
  - cbn [length orb]. destruct tot as [t|]; [|reflexivity].
    apply Z.leb_gt. simpl. lia.
  - now rewrite app_nil_r.
Qed.

End Paging.

(** X1. The loop of [getAllSprints] asks for the pages at the offsets 0, 50,
    100, ... whatever the number of sprints a page brings, and collects what
    the pages bring, in that order: after [k] turns the collected sprints are
    those of the first [k] pages, and the next offset is [50 * k]. *)
Theorem getAllSprints_pages_by_fifty
  (jiraClient : Http) (boardId : string) (k : nat) (st : FetchState) :
  turns jiraClient k boardId fetch_start = Some st ->
  sprints st = flat_map (page_values jiraClient boardId) (offsets k)
  /\ (isLast st = false -> startAt st = 50 * Z.of_nat k).
Proof.
  intros H. destruct (turns_collects jiraClient boardId k _ _ H) as [Hs Ha].
  split; [exact Hs | exact Ha].
Qed.

Lemma getAllSprints_pages_by_fifty_witness :
  exists st,
    turns Examples.failing_second_page 1 "42" fetch_start = Some st
    /\ sprints st = [Examples.january] /\ startAt st = 50.
Proof.
  exists (mkFetch [Examples.january] 50 false).
  destruct (getAllSprints_pages_by_fifty Examples.failing_second_page "42" 1
              (mkFetch [Examples.january] 50 false) eq_refl) as [Hs Ha].
  split; [reflexivity | split; [exact Hs | exact (Ha eq_refl)]].
Defined.

(** X2. Against a tracker that pages the sprints of a board as asked,
    [getAllSprints] ends within 20 requests, and what it sorts is the first
    1000 sprints of the board in the tracker's order (all of them when the
    board has at most 1000): on a conforming engine it returns a
    rearrangement of these, sorted non-increasing by start date when each of
    them has a start time, and as the tracker listed them when none has.  The
    cap is applied before the sort. *)
Theorem getAllSprints_honest_paging
  {engine : Engine} (jiraClient : Http) (Date_getTime : string -> option Z)
  (boardId : string) (all : list Sprint) (fuel : nat) (w : World) :
  Conforming engine ->
  serves_pages jiraClient boardId all ->
  (20 <= fuel)%nat ->
  exists result,
    getAllSprints jiraClient Date_getTime fuel boardId w
    = Some (Normal result, w)
    /\ Permutation result (firstn 1000 all)
    /\ (Forall (fun s => dated Date_getTime s = true) (firstn 1000 all) ->
        sorted_by_start_date Date_getTime result)
    /\ (Forall (fun s => dated Date_getTime s = false) (firstn 1000 all) ->
        result = firstn 1000 all).
Proof.
  intros Hengine Hserves Hfuel.
  exists (sortSprints Date_getTime (firstn 1000 all)).
  split.
  - apply getAllSprints_returns.
    apply (fetch_loop_serves jiraClient boardId all Hserves fuel 0%nat);
      [lia | lia | now left].
  - split; [apply sortSprints_perm; [exact Hengine | apply firstn_le_length]|].
    split; [now apply sortSprints_sorted|].
    intros Hnone. rewrite (sortSprints_as_fetched _ Hengine _ Hnone).
    unfold slice0. apply firstn_all2, firstn_le_length.
Qed.

Lemma paging_tracker_serves :
  serves_pages MoreExamples.paging_tracker "42" MoreExamples.long_board.
Proof.
  intros k. exists (120 <=? maxResults * Z.of_nat k + 50).
  split.
  - cbn [MoreExamples.paging_tracker get_board_sprints].
    replace (Z.to_nat (maxResults * Z.of_nat k)) with (50 * k)%nat
      by (unfold maxResults; lia).
    reflexivity.
  - intros H. apply Z.leb_le in H.
    change (length MoreExamples.long_board) with 120%nat.
    unfold maxResults in H. lia.
Qed.

Lemma getAllSprints_honest_paging_witness :
  getAllSprints MoreExamples.paging_tracker Examples.Date_getTime 20 "42"
    Examples.fresh
  = Some (Normal MoreExamples.long_board, Examples.fresh).
Proof.
  destruct (getAllSprints_honest_paging MoreExamples.paging_tracker
              Examples.Date_getTime "42" MoreExamples.long_board 20
              Examples.fresh simple_engine_conforms paging_tracker_serves
              (le_n 20))
    as (result & Hret & _ & _ & Hsame).
  rewrite Hret, Hsame; [reflexivity|].
  change (firstn 1000 MoreExamples.long_board) with MoreExamples.long_board.
  apply Forall_forall. intros s Hs.
  apply in_map_iff in Hs. destruct Hs as (n & <- & _). reflexivity.
Defined.

(** X3. Against a tracker that answers every page request with an empty
    page that is not the last, the loop of [getAllSprints] never ends: no
    number of turns is enough for it to return. *)
Theorem getAllSprints_never_returns {engine : Engine}
  (jiraClient : Http) (Date_getTime : string -> option Z) (boardId : string)
  (fuel : nat) (w : World) :
  stalls jiraClient boardId ->
  getAllSprints jiraClient Date_getTime fuel boardId w = None.
Proof.
  intros Hstalls. unfold getAllSprints, try_catch, bind, lift.
  rewrite (fetch_loop_stalls jiraClient boardId Hstalls fuel fetch_start);
    [reflexivity | reflexivity |].
  unfold MAX_SPRINTS_TO_FETCH. simpl. lia.
Qed.

Lemma getAllSprints_never_returns_witness :
  getAllSprints MoreExamples.stalling_tracker Examples.Date_getTime 1000 "42"
    Examples.fresh
  = None.
Proof.
  apply getAllSprints_never_returns.
  intros at_. exists None. split; [reflexivity | exact I].
Defined.

(** X4. On a conforming engine, when the loop collected at most 1000
    sprints, what [getAllSprints] returns is a rearrangement of them: the
    sort loses and repeats no sprint. *)
Theorem getAllSprints_rearranges
  {engine : Engine} (jiraClient : Http) (Date_getTime : string -> option Z)
  (fuel : nat) (boardId : string) (w : World) (collected : list Sprint) :
  Conforming engine ->
  fetch_loop jiraClient fuel boardId fetch_start = Some (Normal collected) ->
  (length collected <= 1000)%nat ->
  exists result,
    getAllSprints jiraClient Date_getTime fuel boardId w
    = Some (Normal result, w)
    /\ Permutation result collected.
Proof.
  intros Hengine Hloop Hlen. exists (sortSprints Date_getTime collected).
  split; [now apply getAllSprints_returns | now apply sortSprints_perm].
Qed.

Lemma getAllSprints_rearranges_witness :
  exists result,
    getAllSprints Examples.tracker Examples.Date_getTime 5 "42" Examples.fresh
    = Some (Normal result, Examples.fresh)
    /\ Permutation result
         [Examples.january; Examples.march; Examples.february].
Proof.
  apply (getAllSprints_rearranges Examples.tracker Examples.Date_getTime 5
           "42" Examples.fresh
           [Examples.january; Examples.march; Examples.february]).
  - exact simple_engine_conforms.
  - reflexivity.
  - simpl. lia.
Defined.

(** ** More on the Sprint Selector *)

Lemma prefix_append (p s : string) :
  String.prefix p s = true <-> exists rest, s = p ++ rest.
Proof.
  revert s. induction p as [|c p IH]; intros s.
  - split; [intros _; now exists s | now destruct s].
  - destruct s as [|d s]; cbn [String.prefix append].
    + split; [discriminate | intros (rest & H); discriminate].
    + destruct (ascii_dec c d) as [->|Hne].
      * rewrite IH. split; intros (rest & H); exists rest.
        -- now rewrite H.
        -- now injection H.
      * split; [discriminate|]. intros (rest & H). injection H as H1 _.
        congruence.
Qed.

Lemma includes_substring (s sub : string) :
  includes s sub = true <-> exists before after, s = before ++ sub ++ after.
Proof.
  induction s as [|c s IH]; cbn [includes].
  - rewrite orb_false_r, prefix_append. split.
    + intros (rest & H). now exists "", rest.
    + intros (before & after & H). destruct before; [now exists after|].
      discriminate.
  - rewrite orb_true_iff, prefix_append, IH. split.
    + intros [(rest & H)|(before & after & H)].
      * now exists "", rest.
      * exists (String c before), after. simpl. now rewrite H.
    + intros (before & after & H). destruct before as [|d before].
      * left. now exists after.
      * right. injection H as _ H. now exists before, after.
Qed.

(** X5. A sprint is eligible for the first tier of [getNextSprint] exactly
    when its state is "future" and "DevOps" occurs nowhere in its name, with
    that very case: no part of the name, before and after, leaves "DevOps"
    between. *)
Theorem isFutureNonDevOps_iff (sprint : Sprint) :
  isFutureNonDevOps sprint = true
  <-> sprint_state sprint = "future"
      /\ ~ exists before after,
            sprint_name sprint = before ++ "DevOps" ++ after.
Proof.
  unfold isFutureNonDevOps.
  rewrite andb_true_iff, String.eqb_eq, negb_true_iff.
  rewrite <- includes_substring.
  destruct (includes (sprint_name sprint) "DevOps"); split; intros [H1 H2];
    split; auto; try discriminate. now exfalso.
Qed.

Lemma find_In {A} (p : A -> bool) (l : list A) (x : A) :
  find p l = Some x -> In x l.
Proof. intros H. now apply find_some in H. Qed.

(** X6. The selector finds a sprint whenever the board has one, and never
    makes one up: it returns nothing exactly on the empty sequence, and what
    it returns is a sprint of the sequence. *)
Theorem selectNextSprint_some (allSprints : list Sprint) :
  (selectNextSprint allSprints = None <-> allSprints = [])
  /\ forall s, selectNextSprint allSprints = Some s -> In s allSprints.
Proof.
  rewrite selectNextSprint_spec. unfold selector_spec. split.
  - split.
    + destruct (find isFutureNonDevOps allSprints); [discriminate|].
      destruct (find isActive allSprints); [discriminate|].
      now destruct allSprints.
    + now intros ->.
  - intros s.
    destruct (find isFutureNonDevOps allSprints) eqn:Hf.
    + intros [= <-]. exact (find_In _ _ _ Hf).
    + destruct (find isActive allSprints) eqn:Ha.
      * intros [= <-]. exact (find_In _ _ _ Ha).
      * destruct allSprints; [discriminate|]. intros [= <-]. now left.
Qed.

Lemma selectNextSprint_some_witness :
  In Examples.march [Examples.march; Examples.february; Examples.january].
Proof.
  destruct (selectNextSprint_some
              [Examples.march; Examples.february; Examples.january])
    as [_ Hin].
  apply Hin. reflexivity.
Defined.

Lemma StronglySorted_middle {A} (R : A -> A -> Prop) (l1 : list A) x l2 :
  StronglySorted R (l1 ++ x :: l2) -> Forall (R x) l2.
Proof.
  induction l1 as [|y l1 IH]; simpl; intros H; inversion H; subst; auto.
Qed.

Section Latest.
Variable Date_getTime : string -> option Z.

Lemma not_earlier_refl s : not_earlier Date_getTime s s.
Proof. unfold not_earlier. destruct (start_time Date_getTime s); [lia | exact I]. Qed.

(** In a sequence sorted by start date, the first sprint that passes a test
    starts no earlier than any other that passes it. *)
Lemma find_latest (p : Sprint -> bool) (l : list Sprint) (s : Sprint) :
  sorted_by_start_date Date_getTime l ->
  find p l = Some s ->
  forall s', In s' l -> p s' = true -> not_earlier Date_getTime s s'.
Proof.
  intros Hsorted Hfind s' Hin Hp.
  destruct (find_split _ _ _ Hfind) as (before & after & -> & _ & Hbefore).
  apply in_app_or in Hin. destruct Hin as [Hin|[<-|Hin]].
  - rewrite (Hbefore s' Hin) in Hp. discriminate.
  - apply not_earlier_refl.
  - apply StronglySorted_middle in Hsorted.
    rewrite Forall_forall in Hsorted. now apply Hsorted.
Qed.

End Latest.

(** X7. On a conforming engine, when every collected sprint has a start
    date, the sprint [getNextSprint] picks from what [getAllSprints] returned
    is the one of
    its tier that starts latest: no eligible future sprint starts later than
    a future pick, no active sprint later than an active pick, and no sprint
    at all later than a pick of the last resort. *)
Theorem selectNextSprint_latest
  {engine : Engine} (Date_getTime : string -> option Z)
  (collected : list Sprint) (s : Sprint) :
  Conforming engine ->
  Forall (fun x => dated Date_getTime x = true) collected ->
  selectNextSprint (sortSprints Date_getTime collected) = Some s ->
  forall s',
    In s' (sortSprints Date_getTime collected) ->
    (isFutureNonDevOps s' = true -> not_earlier Date_getTime s s')
    /\ (isFutureNonDevOps s = false -> isActive s' = true ->
        not_earlier Date_getTime s s')
    /\ (isFutureNonDevOps s = false -> isActive s = false ->
        not_earlier Date_getTime s s').
Proof.
  intros Hengine Hdated Hsel s' Hin.
  pose proof (sortSprints_sorted Date_getTime Hengine collected Hdated)
    as Hsorted.
  rewrite selectNextSprint_spec in Hsel. unfold selector_spec in Hsel.
  destruct (find isFutureNonDevOps (sortSprints Date_getTime collected))
    as [x|] eqn:Hf.
  - injection Hsel as ->.
    pose proof (proj2 (find_some _ _ Hf)) as Hs.
    split; [|split]; try (intros Hno; congruence).
    now apply (find_latest Date_getTime isFutureNonDevOps _ _ Hsorted Hf).
  - split.
    { intros Hp. pose proof (List.find_none _ _ Hf s' Hin). congruence. }
    destruct (find isActive (sortSprints Date_getTime collected))
      as [x|] eqn:Ha.
    + injection Hsel as ->.
      pose proof (proj2 (find_some _ _ Ha)) as Hs.
      split; [|intros _ Hno; congruence].
      intros _. now apply (find_latest Date_getTime isActive _ _ Hsorted Ha).
    + split.
      { intros _ Hp. pose proof (List.find_none _ _ Ha s' Hin). congruence. }
      intros _ _.
      destruct (sortSprints Date_getTime collected) as [|h rest];
        [discriminate|].
      injection Hsel as ->. destruct Hin as [<-|Hin].
      * apply not_earlier_refl.
      * inversion Hsorted as [|? ? _ Hall]; subst.
        rewrite Forall_forall in Hall. now apply Hall.
Qed.

Lemma selectNextSprint_latest_witness :
  not_earlier Examples.Date_getTime Examples.march Examples.march.
Proof.
  destruct (selectNextSprint_latest Examples.Date_getTime
              [Examples.january; Examples.march; Examples.february]
              Examples.march) with (s' := Examples.march) as [Hfuture _].
  - exact simple_engine_conforms.
  - repeat constructor.
  - reflexivity.
  - left. reflexivity.
  - apply Hfuture. reflexivity.
Defined.

(** ** More on the Epic Grouper and the Formatter *)

(** X8. No group of the mapping the Epic Grouper returns is empty: the
    formatter never renders a group of no line. *)
Theorem organizeIssuesByEpic_no_empty_group
  (l : list JiraIssue) (epicGroups : EpicGroup) (k : string) (g : Group) :
  organizeIssuesByEpic l = Normal epicGroups ->
  In (k, g) epicGroups ->
  issues g <> [].
Proof.
  intros H Hin. pose proof (organize_keys _ _ H) as Hnd.
  apply (getOwn_In _ _ _ Hnd) in Hin.
  destruct (String.eqb_spec k NO_EPIC) as [->|Hne].
  - destruct (organize_inv _ _ H) as (full & g0 & Hg & E0 & [[_ ->]|[Hn ->]]).
    + rewrite getOwn_delete, String.eqb_refl in Hin by apply Hg. discriminate.
    + congruence.
  - destruct (organize_name _ _ _ _ H Hin Hne) as (first & p & Hf & Hp & _).
    apply find_some in Hf. destruct Hf as [Hl Hr].
    rewrite (organize_issues _ _ _ _ H Hin). intros Hnil.
    assert (Hmem : In first (filter (in_group k) l)).
    { apply filter_In. split; [exact Hl|]. unfold in_group.
      now rewrite (references_group_key _ _ Hr), String.eqb_refl. }
    rewrite Hnil in Hmem. destruct Hmem.
Qed.

Lemma organizeIssuesByEpic_no_empty_group_witness :
  issues (mkGroup "Login" [Examples.T1; Examples.T3]) <> [].
Proof.
  apply (organizeIssuesByEpic_no_empty_group
           [Examples.T1; Examples.T2; Examples.T3]
           [(NO_EPIC, mkGroup "Tasks without Epic" [Examples.T2]);
            ("EPIC-1", mkGroup "Login" [Examples.T1; Examples.T3])]
           "EPIC-1").
  - reflexivity.
  - right. left. reflexivity.
Defined.

Lemma existsb_eqb_In (k : string) (seen : list string) :
  existsb (String.eqb k) seen = true <-> In k seen.
Proof.
  rewrite existsb_exists. split.
  - intros (x & Hx & E). apply String.eqb_eq in E. now subst.
  - intros H. exists k. split; [exact H | apply String.eqb_refl].
Qed.

Lemma first_occurrences_In seen keys k :
  In k (first_occurrences seen keys) <-> In k keys /\ ~ In k seen.
Proof.
  revert seen. induction keys as [|x keys IH]; intros seen; simpl.
  - tauto.
  - destruct (existsb (String.eqb x) seen) eqn:E.
    + apply existsb_eqb_In in E. rewrite IH. split.
      * tauto.
      * intros [[<-|H] Hn]; tauto.
    + assert (Hx : ~ In x seen).
      { intros Hx. apply existsb_eqb_In in Hx. congruence. }
      simpl. rewrite IH. simpl. split.
      * intros [<-|[H Hn]]; [tauto|]. split; [tauto|]. intros Hs. apply Hn.
        now right.
      * intros [[<-|H] Hn]; [now left|].
        destruct (string_dec x k) as [->|Hne]; [now left|].
        right. split; [exact H|]. intros [E'|Hs]; tauto.
Qed.

Lemma first_occurrences_snoc keys : forall seen k,
  first_occurrences seen (keys ++ [k])
  = (first_occurrences seen keys
     ++ if existsb (String.eqb k) (seen ++ keys) then [] else [k])%list.
Proof.
  induction keys as [|x keys IH]; intros seen k; simpl.
  - rewrite app_nil_r. now destruct (existsb (String.eqb k) seen).
  - destruct (existsb (String.eqb x) seen) eqn:E.
    + rewrite IH. f_equal.
      assert (Hiff : existsb (String.eqb k) (seen ++ keys)
                     = existsb (String.eqb k) (seen ++ x :: keys)).
      { apply existsb_eqb_In in E. apply eq_true_iff_eq.
        rewrite !existsb_eqb_In, !in_app_iff. simpl. split; [tauto|].
        intros [H|[<-|H]]; tauto. }
      now rewrite Hiff.
    + simpl. rewrite IH. f_equal.
      assert (Hiff : existsb (String.eqb k) ((x :: seen) ++ keys)
                     = existsb (String.eqb k) (seen ++ x :: keys)).
      { apply eq_true_iff_eq.
        rewrite !existsb_eqb_In. simpl. rewrite !in_app_iff. simpl. tauto. }
      now rewrite Hiff.
Qed.

Lemma keys_forEach l : forall epicGroups seen epicGroups',
  grouped epicGroups seen ->
  map fst epicGroups
  = NO_EPIC :: first_occurrences [NO_EPIC] (map group_key seen) ->
  organize_forEach epicGroups l = Normal epicGroups' ->
  map fst epicGroups'
  = NO_EPIC :: first_occurrences [NO_EPIC] (map group_key (seen ++ l)).
Proof.
  induction l as [|issue l IH]; simpl; intros epicGroups seen epicGroups' Hg Hk.
  - intros [= <-]. now rewrite app_nil_r.
  - destruct (organize_step epicGroups issue) as [next|] eqn:Hstep;
      [|discriminate].
    intros Hrest.
    replace (seen ++ issue :: l)%list with ((seen ++ [issue]) ++ l)%list
      by (rewrite <- app_assoc; reflexivity).
    apply (IH next); [eapply grouped_step; eassumption | | exact Hrest].
    destruct (organize_step_spec _ _ _ (grouped_sentinel _ _ Hg) Hstep)
      as (name & old & Hcase & _).
    rewrite map_app. cbn [map]. rewrite first_occurrences_snoc.
    assert (Hown : existsb (String.eqb (group_key issue))
                     ([NO_EPIC] ++ map group_key seen)
                   = match getOwn epicGroups (group_key issue) with
                     | Some _ => true
                     | None => false
                     end).
    { apply eq_true_iff_eq. rewrite existsb_eqb_In.
      destruct (getOwn epicGroups (group_key issue)) eqn:E.
      - split; [reflexivity|]. intros _.
        assert (Hin : In (group_key issue) (map fst epicGroups)).
        { destruct (in_dec string_dec (group_key issue) (map fst epicGroups));
            [assumption|]. apply getOwn_None_keys in n. congruence. }
        rewrite Hk in Hin. destruct Hin as [<-|Hin]; [now left|].
        apply first_occurrences_In in Hin. right. tauto.
      - split; [|discriminate]. intros Hin. exfalso.
        apply getOwn_None_keys in E. apply E. rewrite Hk.
        destruct Hin as [<-|Hin]; [now left|].
        destruct (string_dec NO_EPIC (group_key issue)) as [<-|Hne];
          [now left|].
        right. apply first_occurrences_In. split; [exact Hin|].
        intros [E'|[]]; tauto. }
    rewrite Hown.
    destruct (getOwn epicGroups (group_key issue));
      destruct Hcase as (_ & _ & ->); rewrite Hk.
    + now rewrite app_nil_r.
    + reflexivity.
Qed.

(** X9. The groups of the mapping come in the order in which their keys
    first occur in the ticket list, behind the sentinel group when there is
    one. *)
Theorem organizeIssuesByEpic_key_order
  (l : list JiraIssue) (epicGroups : EpicGroup) :
  organizeIssuesByEpic l = Normal epicGroups ->
  map fst epicGroups
  = ((if existsb (in_group NO_EPIC) l then [NO_EPIC] else [])
     ++ first_occurrences [NO_EPIC] (map group_key l))%list.
Proof.
  unfold organizeIssuesByEpic.
  destruct (organize_forEach _ l) as [full|] eqn:Hloop; [|discriminate].
  pose proof (grouped_forEach l _ [] _ grouped_start Hloop) as Hg.
  pose proof (keys_forEach l _ [] _ grouped_start eq_refl Hloop) as Hk.
  simpl in Hg, Hk. unfold get.
  destruct (getOwn full NO_EPIC) as [g0|] eqn:E;
    [|now apply grouped_sentinel in Hg].
  pose proof (grouped_issues _ _ Hg _ _ E) as Hi.
  destruct (grouped_head _ _ Hg) as (g & rest & ->).
  assert (Hex : existsb (in_group NO_EPIC) l
                = negb (length (issues g0) =? 0)%nat).
  { rewrite Hi. clear. induction l as [|x l IH]; [reflexivity|].
    simpl. destruct (in_group NO_EPIC x); [reflexivity | exact IH]. }
  rewrite Hex.
  destruct (length (issues g0) =? 0)%nat; intros [= <-]; simpl.
  - simpl in Hk. now injection Hk.
  - exact Hk.
Qed.

Lemma organizeIssuesByEpic_key_order_witness :
  map fst
    [(NO_EPIC, mkGroup "Tasks without Epic" [Examples.T2]);
     ("EPIC-1", mkGroup "Login" [Examples.T1; Examples.T3])]
  = [NO_EPIC; "EPIC-1"].
Proof.
  rewrite (organizeIssuesByEpic_key_order
             [Examples.T1; Examples.T2; Examples.T3]
             [(NO_EPIC, mkGroup "Tasks without Epic" [Examples.T2]);
              ("EPIC-1", mkGroup "Login" [Examples.T1; Examples.T3])]
             eq_refl).
  reflexivity.
Defined.

Lemma Object_entries_perm (o : EpicGroup) : Permutation (Object_entries o) o.
Proof.
  unfold Object_entries. rewrite insertion_sort_perm.
  induction o as [|[k g] o IH]; simpl; [reflexivity|].
  destruct (isArrayIndex k); simpl.
  - now constructor.
  - rewrite <- Permutation_middle. now constructor.
Qed.

Section Partition.
Context {A : Type}.
Variable key : A -> string.

Lemma flat_map_filter_skip (x : A) (l : list A) (keys : list string) :
  ~ In (key x) keys ->
  flat_map (fun k => filter (fun y => (key y =? k)%string) (x :: l)) keys
  = flat_map (fun k => filter (fun y => (key y =? k)%string) l) keys.
Proof.
  induction keys as [|k keys IH]; intros Hout; [reflexivity|].
  cbn [flat_map]. f_equal.
  - cbn [filter]. destruct (String.eqb_spec (key x) k) as [E|E];
      [|reflexivity].
    exfalso. apply Hout. left. now symmetry.
  - apply IH. intros H. apply Hout. now right.
Qed.

Lemma flat_map_filter_cons (x : A) (l : list A) (keys : list string) :
  NoDup keys -> In (key x) keys ->
  Permutation
    (flat_map (fun k => filter (fun y => (key y =? k)%string) (x :: l)) keys)
    (x :: flat_map (fun k => filter (fun y => (key y =? k)%string) l) keys).
Proof.
  induction keys as [|k keys IH]; intros Hnd Hin; [destruct Hin|].
  inversion Hnd as [|? ? Hout Hnd']; subst. cbn [flat_map].
  destruct (String.eqb_spec (key x) k) as [E|E].
  - subst k. rewrite flat_map_filter_skip by exact Hout.
    cbn [filter]. rewrite String.eqb_refl. reflexivity.
  - destruct Hin as [Hin|Hin]; [congruence|].
    rewrite (IH Hnd' Hin). cbn [filter].
    apply String.eqb_neq in E. rewrite E.
    symmetry. apply Permutation_middle.
Qed.

Lemma partition_by_key (l : list A) (keys : list string) :
  NoDup keys -> (forall x, In x l -> In (key x) keys) ->
  Permutation
    (flat_map (fun k => filter (fun y => (key y =? k)%string) l) keys) l.
Proof.
  intros Hnd. induction l as [|x l IH]; intros Hall.
  - clear. induction keys as [|k keys IH]; [reflexivity | exact IH].
  - rewrite flat_map_filter_cons; [|exact Hnd | apply Hall; now left].
    constructor. apply IH. intros y Hy. apply Hall. now right.
Qed.
End Partition.

(** X10. Grouping and rendering lose and repeat no ticket: the tickets of
    the groups, taken in the order the formatter renders them, are a
    rearrangement of the ticket list. *)
Theorem rendered_tickets_rearrange
  (l : list JiraIssue) (epicGroups : EpicGroup) :
  organizeIssuesByEpic l = Normal epicGroups ->
  Permutation (rendered_tickets epicGroups) l.
Proof.
  intros H. unfold rendered_tickets.
  rewrite (Permutation_flat_map _ (Object_entries_perm epicGroups)).
  pose proof (organize_keys _ _ H) as Hnd.
  assert (Heq : flat_map (fun entry => issues (snd entry)) epicGroups
                = flat_map (fun k => filter (fun y => (group_key y =? k)%string) l)
                    (map fst epicGroups)).
  { rewrite !flat_map_concat_map, map_map. f_equal.
    apply map_ext_in. intros [k g] Hin. simpl.
    apply (organize_issues _ _ _ _ H). now apply getOwn_In. }
  rewrite Heq. apply partition_by_key; [exact Hnd|].
  intros x Hx. destruct (organize_member _ _ _ H Hx) as (g & Hg & _).
  destruct (in_dec string_dec (group_key x) (map fst epicGroups)) as [Hin|Hout];
    [exact Hin|]. apply getOwn_None_keys in Hout. congruence.
Qed.

Lemma rendered_tickets_rearrange_witness :
  Permutation
    (rendered_tickets
       [(NO_EPIC, mkGroup "Tasks without Epic" [Examples.T2]);
        ("7", mkGroup "Seventh" [Examples.T_index])])
    [Examples.T_index; Examples.T2].
Proof.
  apply (rendered_tickets_rearrange [Examples.T_index; Examples.T2]).
  reflexivity.
Defined.

Lemma organize_step_throws epicGroups issue p :
  parent issue = Some p -> isInherited (parent_key p) = true ->
  getOwn epicGroups (parent_key p) = None ->
  organize_step epicGroups issue = Throw TypeError.
Proof.
  intros Hp Hi Hown. unfold organize_step, get. rewrite Hp. cbv zeta.
  rewrite Hown, Hi. cbv iota. rewrite Hown. reflexivity.
Qed.

Lemma organize_step_error epicGroups issue e :
  organize_step epicGroups issue = Throw e -> e = TypeError.
Proof.
  unfold organize_step. destruct (parent issue) as [p|]; cbv zeta.
  - destruct (get _ (parent_key p)); [discriminate | |]; now intros [= <-].
  - destruct (get epicGroups NO_EPIC); [discriminate | |]; now intros [= <-].
Qed.

Lemma organize_forEach_throws l : forall epicGroups seen,
  grouped epicGroups seen ->
  (forall k, isInherited k = true -> getOwn epicGroups k = None) ->
  has_inherited_key l = true ->
  organize_forEach epicGroups l = Throw TypeError.
Proof.
  induction l as [|issue l IH]; simpl; intros epicGroups seen Hg Hnone Hbad;
    [discriminate|].
  destruct (organize_step epicGroups issue) as [next|e] eqn:Hstep.
  - apply (IH next (seen ++ [issue])%list).
    + eapply grouped_step; eassumption.
    + intros k Hk.
      destruct (organize_step_spec _ _ _ (grouped_sentinel _ _ Hg) Hstep)
        as (name & old & _ & Hget).
      rewrite Hget. destruct (String.eqb_spec (group_key issue) k) as [E|E];
        [|now apply Hnone].
      exfalso. unfold group_key in E. destruct (parent issue) as [p|] eqn:Hp.
      * subst k. rewrite (organize_step_throws _ _ _ Hp Hk (Hnone _ Hk)) in Hstep.
        discriminate.
      * subst k. discriminate.
    + apply orb_true_iff in Hbad. destruct Hbad as [Hbad|Hbad]; [|exact Hbad].
      exfalso. destruct (parent issue) as [p|] eqn:Hp; [|discriminate].
      rewrite (organize_step_throws _ _ _ Hp Hbad (Hnone _ Hbad)) in Hstep.
      discriminate.
  - now rewrite (organize_step_error _ _ _ Hstep).
Qed.

Lemma has_inherited_key_plain l :
  has_inherited_key l = false -> plain_keys l.
Proof.
  intros H issue p Hin Hp.
  destruct (isInherited (parent_key p)) eqn:E; [|reflexivity].
  assert (Hex : has_inherited_key l = true).
  { apply existsb_exists. exists issue. split; [exact Hin|]. now rewrite Hp. }
  congruence.
Qed.

Lemma organizeIssuesByEpic_inherited (l : list JiraIssue) :
  has_inherited_key l = true -> organizeIssuesByEpic l = Throw TypeError.
Proof.
  intros Hbad. unfold organizeIssuesByEpic.
  rewrite (organize_forEach_throws l _ [] grouped_start); [reflexivity | |
    exact Hbad].
  intros k Hk. cbn [set getOwn].
  destruct (String.eqb_spec NO_EPIC k) as [<-|_]; [discriminate|reflexivity].
Qed.

(** X11. The Epic Grouper throws a [TypeError] exactly when some ticket has
    a parent whose key names a member every object inherits, such as
    "toString" or "constructor"; on every other ticket list it returns a
    mapping. *)
Theorem organizeIssuesByEpic_throws (l : list JiraIssue) :
  (has_inherited_key l = true -> organizeIssuesByEpic l = Throw TypeError)
  /\ (has_inherited_key l = false ->
      exists epicGroups, organizeIssuesByEpic l = Normal epicGroups).
Proof.
  split; [apply organizeIssuesByEpic_inherited|].
  intros Hplain. apply organize_total. now apply has_inherited_key_plain.
Qed.

Lemma organizeIssuesByEpic_throws_witness :
  organizeIssuesByEpic [Examples.T1; MoreExamples.T_inherited]
  = Throw TypeError
  /\ exists epicGroups,
      organizeIssuesByEpic [Examples.T1; Examples.T2] = Normal epicGroups.
Proof.
  split.
  - apply (proj1 (organizeIssuesByEpic_throws
                    [Examples.T1; MoreExamples.T_inherited])).
    reflexivity.
  - apply (proj2 (organizeIssuesByEpic_throws [Examples.T1; Examples.T2])).
    reflexivity.
Defined.

(** ** More on the requests and the orchestrator *)

Lemma post_value {A} (m : IO A) w x w0 (Q : Completion A -> World -> Prop) :
  m w = Some (x, w0) -> Q x w0 -> post m w Q.
Proof. intros E HQ r w' H. rewrite E in H. now injection H as <- <-. Qed.

Lemma post_bind_value {A B} (m : IO A) (k : A -> IO B) w a w1
  (Q : Completion B -> World -> Prop) :
  m w = Some (Normal a, w1) -> post (k a) w1 Q -> post (bind m k) w Q.
Proof. intros E Hk r w'. unfold bind. rewrite E. apply Hk. Qed.

Lemma try_catch_normal {A} (body : IO A) (handler : Thrown -> IO A) w :
  (forall e w1, post (handler e) w1 (fun r _ => exists a, r = Normal a)) ->
  post (try_catch body handler) w (fun r _ => exists a, r = Normal a).
Proof.
  intros Hh. eapply post_try_catch with (P := fun _ _ => True).
  - apply post_any.
  - intros a w1 _. now exists a.
  - intros e w1 _. apply Hh.
Qed.

Lemma log_then_ret_normal {A} message error (a : A) w1 :
  post (console_error message error ;; ret a) w1
    (fun r _ => exists a, r = Normal a).
Proof. intros r w' [= <- <-]. now exists a. Qed.

Section Requests.
Variable process_env : string -> option string.
Variable jiraClient : Http.
Variable Date_getTime : string -> option Z.
Context {engine : Engine}.

Lemma getReadyToSizeIssuesFromSprint_returns sprintId w :
  exists w',
    getReadyToSizeIssuesFromSprint jiraClient sprintId w
    = Some (Normal (ready_value jiraClient sprintId), w')
    /\ logged_only w w'
    /\ (get_search jiraClient (ready_to_size_jql sprintId) = Rejected ->
        last_entry w'
        = Some (console_error_entry "Error fetching issues:"
                  (Some RequestError))).
Proof.
  unfold getReadyToSizeIssuesFromSprint, ready_value, try_catch, bind, await.
  cbv zeta. fold (ready_to_size_jql sprintId).
  cbn [console_log].
  destruct (get_search jiraClient (ready_to_size_jql sprintId))
    as [|[[[found|]]|]]; cbn; eexists; (split; [reflexivity|]);
    (split; [repeat split; cbn [console]; rewrite <- ?app_assoc; eauto|]);
    try discriminate.
  intros _. apply last_entry_snoc.
Qed.

Lemma getSprintFromAgileAPI_array ticketKey earlier latest w :
  get_agile_issue jiraClient ticketKey
  = Resolved (Some (mkAgileIssue (Some (js_array (earlier ++ [latest]))))) ->
  exists w',
    getSprintFromAgileAPI jiraClient ticketKey w
    = Some (Normal (Some latest), w')
    /\ logged_only w w'.
Proof.
  intros Hget.
  assert (E : exists w',
             getSprintFromAgileAPI jiraClient ticketKey w
             = Some (Normal (Some latest), w')).
  { unfold getSprintFromAgileAPI, try_catch, bind, await, lift.
    rewrite Hget.
    cbn [ret read_sprint_field truthy Array_isArray elements_of andb].
    rewrite nth_error_last.
    assert (Hlen : (0 <? length (earlier ++ [latest]))%nat = true).
    { apply Nat.ltb_lt. rewrite length_app. simpl. lia. }
    rewrite Hlen. destruct latest. eexists. reflexivity. }
  destruct E as (w' & E). exists w'. split; [exact E|].
  exact (only_logs_getSprintFromAgileAPI jiraClient ticketKey w _ _ E).
Qed.

Lemma getSprintFromAgileAPI_fails ticketKey w :
  agile_lookup_fails jiraClient ticketKey ->
  exists error,
    getSprintFromAgileAPI jiraClient ticketKey w
    = Some (Normal None,
            mkWorld
              (console w
               ++ [console_error_entry
                     ("Error getting sprint from Agile API for ticket "
                      ++ ticketKey ++ ":") (Some error)])
              (slack_commands_md w) (fs_read_only w)).
Proof.
  unfold getSprintFromAgileAPI, try_catch, bind, await, lift.
  intros [H|[H|H]]; rewrite H; eexists; reflexivity.
Qed.

Lemma getSprintFromAgileAPI_normal ticketKey w :
  exists r w',
    getSprintFromAgileAPI jiraClient ticketKey w = Some (Normal r, w')
    /\ logged_only w w'.
Proof.
  destruct (completes_getSprintFromAgileAPI jiraClient ticketKey w)
    as (r & w' & E).
  assert (Hn : exists a, r = Normal a).
  { unfold getSprintFromAgileAPI in E.
    refine (try_catch_normal _ _ w _ _ _ E).
    intros e w1. apply log_then_ret_normal. }
  destruct Hn as (a & ->). exists a, w'. split; [exact E|].
  exact (only_logs_getSprintFromAgileAPI jiraClient ticketKey w _ _ E).
Qed.

Lemma report_returns found epicGroups w :
  organizeIssuesByEpic found = Normal epicGroups ->
  exists w',
    report process_env found w
    = Some (Normal (generateSlackCommands (JIRA_BASE_URL process_env) epicGroups),
            w')
    /\ logged_only w w'
    /\ In (console_log_entry
             (generateSlackCommands (JIRA_BASE_URL process_env) epicGroups))
          (console w').
Proof.
  intros H. unfold report, bind, console_log, lift, ret. rewrite H.
  eexists. split; [reflexivity|]. unfold logged_only.
  cbn [console slack_commands_md fs_read_only]. split.
  - repeat split. rewrite <- !app_assoc. eauto.
  - apply in_or_app. right. now left.
Qed.

Lemma report_throws found error w :
  organizeIssuesByEpic found = Throw error ->
  exists w',
    report process_env found w = Some (Throw error, w') /\ logged_only w w'.
Proof.
  intros H. unfold report, bind, console_log, lift, ret. rewrite H.
  eexists. split; [reflexivity|]. unfold logged_only.
  cbn [console slack_commands_md fs_read_only].
  repeat split. rewrite <- !app_assoc. eauto.
Qed.

End Requests.

(** X12. [getReadyToSizeIssuesFromSprint] always returns, never throws and
    touches nothing but the console: it returns the tickets of the answer to
    the query for the sprint, and no ticket when the request fails (the error
    is then the last line logged) or the answer holds no tickets. *)
Theorem getReadyToSizeIssuesFromSprint_value {engine : Engine}
  (jiraClient : Http) (sprintId : Z) (w : World) :
  exists w',
    getReadyToSizeIssuesFromSprint jiraClient sprintId w
    = Some (Normal
              match get_search jiraClient
                      ("cf[10007] = " ++ Number_toString sprintId
                       ++ " AND status = " ++ dquote ++ "Ready to Size"
                       ++ dquote) with
              | Resolved (Some (mkSearch (Some found))) => found
              | _ => []
              end, w')
    /\ logged_only w w'
    /\ (get_search jiraClient (ready_to_size_jql sprintId) = Rejected ->
        last_entry w'
        = Some (console_error_entry "Error fetching issues:"
                  (Some RequestError))).
Proof. apply getReadyToSizeIssuesFromSprint_returns. Qed.

Lemma getReadyToSizeIssuesFromSprint_value_witness :
  exists w',
    getReadyToSizeIssuesFromSprint Examples.unreachable 3 Examples.fresh
    = Some (Normal [], w')
    /\ last_entry w'
       = Some (console_error_entry "Error fetching issues:"
                 (Some RequestError)).
Proof.
  destruct (getReadyToSizeIssuesFromSprint_value Examples.unreachable 3
              Examples.fresh) as (w' & E & _ & Hlast).
  exists w'. split; [exact E | now apply Hlast].
Defined.

(** X13. [getSprintFromAgileAPI] always returns, never throws and touches
    nothing but the console; when the request fails, or the answer has no
    data or no fields, it returns nothing, and the last line logged is the
    error. *)
Theorem getSprintFromAgileAPI_never_throws {engine : Engine}
  (jiraClient : Http) (ticketKey : string) (w : World) :
  (exists r w',
      getSprintFromAgileAPI jiraClient ticketKey w = Some (Normal r, w')
      /\ logged_only w w')
  /\ (agile_lookup_fails jiraClient ticketKey ->
      exists error w',
        getSprintFromAgileAPI jiraClient ticketKey w = Some (Normal None, w')
        /\ last_entry w'
           = Some (console_error_entry
                     ("Error getting sprint from Agile API for ticket "
                      ++ ticketKey ++ ":") (Some error))).
Proof.
  split; [apply getSprintFromAgileAPI_normal|].
  intros Hfail.
  destruct (getSprintFromAgileAPI_fails jiraClient ticketKey w Hfail)
    as (error & E).
  eexists error, _. split; [exact E | apply last_entry_snoc].
Qed.

Lemma getSprintFromAgileAPI_never_throws_witness :
  exists error w',
    getSprintFromAgileAPI Examples.unreachable "PROJ-123" Examples.fresh
    = Some (Normal None, w')
    /\ last_entry w'
       = Some (console_error_entry
                 "Error getting sprint from Agile API for ticket PROJ-123:"
                 (Some error)).
Proof.
  apply (proj2 (getSprintFromAgileAPI_never_throws Examples.unreachable
                  "PROJ-123" Examples.fresh)).
  left. reflexivity.
Defined.

Lemma bind_eq {A B} (m : IO A) (k : A -> IO B) w a w1 :
  m w = Some (Normal a, w1) -> bind m k w = k a w1.
Proof. intros E. unfold bind. now rewrite E. Qed.

Lemma bind_throw_eq {A B} (m : IO A) (k : A -> IO B) w e w1 :
  m w = Some (Throw e, w1) -> bind m k w = Some (Throw e, w1).
Proof. intros E. unfold bind. now rewrite E. Qed.

Lemma logged_only_log w message :
  logged_only w
    (mkWorld (console w ++ [console_log_entry message]) (slack_commands_md w)
       (fs_read_only w)).
Proof. repeat split. simpl. eauto. Qed.

Lemma getAllSprints_value_returns {engine : Engine} jiraClient Date_getTime fuel boardId found w :
  getAllSprints_value jiraClient Date_getTime fuel boardId = Some found ->
  exists w',
    getAllSprints jiraClient Date_getTime fuel boardId w
    = Some (Normal found, w')
    /\ logged_only w w'.
Proof.
  unfold getAllSprints_value. intros H.
  assert (E : exists w',
             getAllSprints jiraClient Date_getTime fuel boardId w
             = Some (Normal found, w')).
  { destruct (fetch_loop jiraClient fuel boardId fetch_start)
      as [[collected|e]|] eqn:Hloop; [| |discriminate]; injection H as <-.
    - rewrite (getAllSprints_returns _ _ _ _ _ w Hloop). eauto.
    - rewrite (getAllSprints_catches _ _ _ _ _ w Hloop). eauto. }
  destruct E as (w' & E). exists w'. split; [exact E|].
  exact (only_logs_getAllSprints jiraClient Date_getTime fuel boardId w _ _ E).
Qed.

Section Runs.
Variable process_env : string -> option string.
Variable process_argv_2 : option string.
Variable jiraClient : Http.
Variable Date_getTime : string -> option Z.
Context {engine : Engine}.

(** The steps of both modes once a sprint is chosen and the query for it
    brought tickets. *)
Lemma ticket_mode_done ticketKey earlier latest found epicGroups w :
  get_agile_issue jiraClient ticketKey
  = Resolved (Some (mkAgileIssue (Some (js_array (earlier ++ [latest]))))) ->
  ready_value jiraClient (sprint_id latest) = found ->
  found <> [] ->
  organizeIssuesByEpic found = Normal epicGroups ->
  fs_read_only w = false ->
  exists w',
    ticket_mode process_env jiraClient ticketKey w = Some (Normal Done, w')
    /\ slack_commands_md w'
       = Some (generateSlackCommands (JIRA_BASE_URL process_env) epicGroups)
    /\ In (console_log_entry
             (generateSlackCommands (JIRA_BASE_URL process_env) epicGroups))
          (console w').
Proof.
  intros Hget Hfound Hne Horg Hrw. unfold ticket_mode.
  rewrite (bind_eq _ _ _ _ _ eq_refl), (bind_eq _ _ _ _ _ eq_refl).
  match goal with
  | |- context [bind (getSprintFromAgileAPI _ _) _ ?w2] =>
      destruct (getSprintFromAgileAPI_array jiraClient ticketKey earlier
                  latest w2 Hget) as (w3 & E3 & L3)
  end.
  rewrite (bind_eq _ _ _ _ _ E3).
  rewrite (bind_eq _ _ _ _ _ eq_refl), (bind_eq _ _ _ _ _ eq_refl).
  match goal with
  | |- context [bind (getReadyToSizeIssuesFromSprint _ _) _ ?w5] =>
      destruct (getReadyToSizeIssuesFromSprint_returns jiraClient
                  (sprint_id latest) w5) as (w6 & E6 & L6 & _)
  end.
  rewrite (bind_eq _ _ _ _ _ E6), Hfound.
  destruct found as [|issue found]; [congruence|]. cbn [length Nat.eqb].
  destruct (report_returns process_env _ _ w6 Horg) as (w7 & E7 & L7 & Hin).
  rewrite (bind_eq _ _ _ _ _ E7).
  assert (Hro : fs_read_only w7 = false).
  { destruct L7 as (_ & -> & _). destruct L6 as (_ & -> & _).
    cbn [fs_read_only]. destruct L3 as (_ & -> & _). exact Hrw. }
  unfold bind, writeFileSync, console_log, ret. rewrite Hro.
  eexists. split; [reflexivity|]. cbn [slack_commands_md console].
  split; [reflexivity|]. apply in_or_app. now left.
Qed.

Lemma ticket_mode_fails ticketKey earlier latest found w :
  get_agile_issue jiraClient ticketKey
  = Resolved (Some (mkAgileIssue (Some (js_array (earlier ++ [latest]))))) ->
  ready_value jiraClient (sprint_id latest) = found ->
  found <> [] ->
  (exists error, organizeIssuesByEpic found = Throw error)
  \/ fs_read_only w = true ->
  exists error w',
    ticket_mode process_env jiraClient ticketKey w = Some (Throw error, w')
    /\ logged_only w w'.
Proof.
  intros Hget Hfound Hne Hcause. unfold ticket_mode.
  rewrite (bind_eq _ _ _ _ _ eq_refl), (bind_eq _ _ _ _ _ eq_refl).
  match goal with
  | |- context [bind (getSprintFromAgileAPI _ _) _ ?w2] =>
      destruct (getSprintFromAgileAPI_array jiraClient ticketKey earlier
                  latest w2 Hget) as (w3 & E3 & L3)
  end.
  rewrite (bind_eq _ _ _ _ _ E3).
  rewrite (bind_eq _ _ _ _ _ eq_refl), (bind_eq _ _ _ _ _ eq_refl).
  match goal with
  | |- context [bind (getReadyToSizeIssuesFromSprint _ _) _ ?w5] =>
      destruct (getReadyToSizeIssuesFromSprint_returns jiraClient
                  (sprint_id latest) w5) as (w6 & E6 & L6 & _)
  end.
  rewrite (bind_eq _ _ _ _ _ E6), Hfound.
  destruct found as [|issue found]; [congruence|]. cbn [length Nat.eqb].
  assert (L : logged_only w w6).
  { eapply logged_only_trans; [|exact L6].
    eapply logged_only_trans; [|apply logged_only_log].
    eapply logged_only_trans; [|apply logged_only_log].
    eapply logged_only_trans; [|exact L3].
    eapply logged_only_trans; [|apply logged_only_log].
    apply logged_only_log. }
  destruct (organizeIssuesByEpic (issue :: found)) as [epicGroups|error]
    eqn:Horg.
  - destruct Hcause as [(error & H)|Hro]; [discriminate|].
    destruct (report_returns process_env _ _ w6 Horg) as (w7 & E7 & L7 & _).
    rewrite (bind_eq _ _ _ _ _ E7).
    assert (Hro7 : fs_read_only w7 = true).
    { destruct L7 as (_ & -> & _). destruct L as (_ & -> & _). exact Hro. }
    unfold bind, writeFileSync. rewrite Hro7.
    exists FsError, w7. split; [reflexivity|].
    eapply logged_only_trans; eassumption.
  - destruct (report_throws process_env _ _ w6 Horg) as (w7 & E7 & L7).
    rewrite (bind_throw_eq _ _ _ _ _ E7).
    exists error, w7. split; [reflexivity|].
    eapply logged_only_trans; eassumption.
Qed.

Lemma board_mode_done fuel allSprints sprint found epicGroups w :
  getAllSprints_value jiraClient Date_getTime fuel (JIRA_BOARD_ID process_env)
  = Some allSprints ->
  selectNextSprint allSprints = Some sprint ->
  ready_value jiraClient (sprint_id sprint) = found ->
  found <> [] ->
  organizeIssuesByEpic found = Normal epicGroups ->
  exists w',
    board_mode process_env jiraClient Date_getTime fuel w
    = Some (Normal Done, w')
    /\ logged_only w w'
    /\ In (console_log_entry
             (generateSlackCommands (JIRA_BASE_URL process_env) epicGroups))
          (console w').
Proof.
  intros Hall Hsel Hfound Hne Horg.
  assert (E : exists w',
             board_mode process_env jiraClient Date_getTime fuel w
             = Some (Normal Done, w')
             /\ In (console_log_entry
                      (generateSlackCommands (JIRA_BASE_URL process_env)
                         epicGroups))
                   (console w')).
  { unfold board_mode. cbv zeta.
    rewrite (bind_eq _ _ _ _ _ eq_refl), (bind_eq _ _ _ _ _ eq_refl).
    match goal with
    | |- context [bind (getNextSprint _ _ _ _) _ ?w2] =>
        destruct (getAllSprints_value_returns jiraClient Date_getTime fuel
                    (JIRA_BOARD_ID process_env) allSprints w2 Hall)
          as (w0 & E0 & _);
        destruct (getNextSprint_selects _ _ _ _ _ _ _ E0) as (w3 & E3)
    end.
    rewrite (bind_eq _ _ _ _ _ E3), Hsel.
    rewrite (bind_eq _ _ _ _ _ eq_refl), (bind_eq _ _ _ _ _ eq_refl).
    match goal with
    | |- context [bind (getReadyToSizeIssuesFromSprint _ _) _ ?w5] =>
        destruct (getReadyToSizeIssuesFromSprint_returns jiraClient
                    (sprint_id sprint) w5) as (w6 & E6 & L6 & _)
    end.
    rewrite (bind_eq _ _ _ _ _ E6), Hfound.
    destruct found as [|issue found]; [congruence|]. cbn [length Nat.eqb].
    destruct (report_returns process_env _ _ w6 Horg) as (w7 & E7 & L7 & Hin).
    rewrite (bind_eq _ _ _ _ _ E7). unfold ret. eauto. }
  destruct E as (w' & E & Hin). exists w'. split; [exact E|].
  split; [|exact Hin].
  exact (only_logs_board_mode process_env jiraClient Date_getTime fuel w _ _ E).
Qed.

Lemma main_ticket_mode fuel ticketKey w :
  ticket_argument process_argv_2 = Some ticketKey ->
  main process_env process_argv_2 jiraClient Date_getTime fuel w
  = try_catch (ticket_mode process_env jiraClient ticketKey)
      (fun error => console_error "An error occurred:" (Some error) ;;
                    ret Failed) w.
Proof. intros H. unfold main. now rewrite H. Qed.

Lemma main_board_mode fuel w :
  ticket_argument process_argv_2 = None ->
  main process_env process_argv_2 jiraClient Date_getTime fuel w
  = try_catch (board_mode process_env jiraClient Date_getTime fuel)
      (fun error => console_error "An error occurred:" (Some error) ;;
                    ret Failed) w.
Proof. intros H. unfold main. now rewrite H. Qed.

End Runs.

Lemma frame_bind {A} (m : IO A) (k : A -> IO Terminal) w :
  only_logs m ->
  (forall a w1,
      post (k a) w1 (fun r w' => r = Normal Done \/ logged_only w1 w')) ->
  post (bind m k) w (fun r w' => r = Normal Done \/ logged_only w w').
Proof.
  intros Hm Hk. eapply post_bind; [apply Hm | |].
  - intros a w1 L r w' H. pose proof (Hk a w1 r w' H) as Hd.
    cbv beta in Hd, L |- *. destruct Hd as [Hd|L']; [left | right].
    + exact Hd.
    + eapply logged_only_trans; eassumption.
  - intros e w1 L. now right.
Qed.

Lemma frame_only_logs (m : IO Terminal) w :
  only_logs m ->
  post m w (fun r w' => r = Normal Done \/ logged_only w w').
Proof. intros Hm r w' H. right. exact (Hm w r w' H). Qed.

Lemma ticket_mode_frame {engine : Engine} process_env jiraClient ticketKey w :
  post (ticket_mode process_env jiraClient ticketKey) w
    (fun r w' => r = Normal Done \/ logged_only w w').
Proof.
  unfold ticket_mode.
  apply frame_bind; [apply only_logs_console_log | intros _ w1].
  apply frame_bind; [apply only_logs_console_log | intros _ w2].
  apply frame_bind; [apply only_logs_getSprintFromAgileAPI | intros sprint w3].
  destruct sprint as [sprint|];
    [|apply frame_only_logs; repeat only_logs_step].
  apply frame_bind; [apply only_logs_console_log | intros _ w4].
  apply frame_bind; [apply only_logs_console_log | intros _ w5].
  apply frame_bind;
    [apply only_logs_getReadyToSizeIssuesFromSprint | intros found w6].
  destruct (length found =? 0)%nat;
    [apply frame_only_logs; repeat only_logs_step|].
  apply frame_bind; [apply only_logs_report | intros rendered w7].
  intros r w'. unfold bind, writeFileSync, console_log, ret.
  destruct (fs_read_only w7); cbv beta iota; intros [= <- <-];
    [right | now left].
  apply logged_only_refl.
Qed.

(** X14. Whatever way a run of [main] ends short of the report - no sprint,
    no ticket, an error caught - the output file is as it was before the
    run. *)
Theorem main_keeps_file_unless_done {engine : Engine}
  (process_env : string -> option string) (process_argv_2 : option string)
  (jiraClient : Http) (Date_getTime : string -> option Z)
  (fuel : nat) (w w' : World) (t : Terminal) :
  main process_env process_argv_2 jiraClient Date_getTime fuel w
  = Some (Normal t, w') ->
  t <> Done ->
  slack_commands_md w' = slack_commands_md w.
Proof.
  intros E Ht.
  assert (Hpost :
    post (main process_env process_argv_2 jiraClient Date_getTime fuel) w
      (fun r w' => r = Normal Done \/ logged_only w w')).
  { unfold main.
    apply post_try_catch with
      (P := fun r w' => r = Normal Done \/ logged_only w w').
    - destruct (ticket_argument process_argv_2) as [ticketKey|].
      + apply ticket_mode_frame.
      + apply frame_only_logs, only_logs_board_mode.
    - intros a w1 H. exact H.
    - intros e w1 [H|L]; [discriminate|]. intros r w2 [= <- <-]. right.
      eapply logged_only_trans; [exact L|]. repeat split. simpl. eauto. }
  pose proof (Hpost _ _ E) as H. cbv beta in H.
  destruct H as [[= ->]|L]; [congruence | apply L].
Qed.

Lemma main_keeps_file_unless_done_witness :
  exists w',
    main Examples.env (Some "PROJ-123") Examples.unreachable
      Examples.Date_getTime 5 Examples.stale
    = Some (Normal NoSprintFound, w')
    /\ slack_commands_md w' = Some "old content".
Proof.
  assert (E : exists w',
             main Examples.env (Some "PROJ-123") Examples.unreachable
               Examples.Date_getTime 5 Examples.stale
             = Some (Normal NoSprintFound, w'))
    by (vm_compute; eexists; reflexivity).
  destruct E as (w' & E). exists w'. split; [exact E|].
  apply (main_keeps_file_unless_done _ _ _ _ _ _ _ _ E). discriminate.
Defined.

(** X15. In ticket mode, when the sprint field of the ticket ends with a
    sprint, the query for that sprint brings tickets, the grouper returns and
    the file can be written, the run ends through the report: the output
    file holds exactly the commands rendered from the groups of those
    tickets, and the console shows them. *)
Theorem ticket_run_writes_commands {engine : Engine}
  (process_env : string -> option string) (process_argv_2 : option string)
  (jiraClient : Http) (Date_getTime : string -> option Z) (fuel : nat)
  (ticketKey : string) (earlier : list Sprint) (latest : Sprint)
  (found : list JiraIssue) (epicGroups : EpicGroup) (w : World) :
  ticket_argument process_argv_2 = Some ticketKey ->
  get_agile_issue jiraClient ticketKey
  = Resolved (Some (mkAgileIssue (Some (js_array (earlier ++ [latest]))))) ->
  get_search jiraClient (ready_to_size_jql (sprint_id latest))
  = Resolved (Some (mkSearch (Some found))) ->
  found <> [] ->
  organizeIssuesByEpic found = Normal epicGroups ->
  fs_read_only w = false ->
  exists w',
    main process_env process_argv_2 jiraClient Date_getTime fuel w
    = Some (Normal Done, w')
    /\ slack_commands_md w'
       = Some (generateSlackCommands (JIRA_BASE_URL process_env) epicGroups)
    /\ In (console_log_entry
             (generateSlackCommands (JIRA_BASE_URL process_env) epicGroups))
          (console w').
Proof.
  intros Harg Hget Hsearch Hne Horg Hrw.
  assert (Hfound : ready_value jiraClient (sprint_id latest) = found)
    by (unfold ready_value; now rewrite Hsearch).
  destruct (ticket_mode_done process_env jiraClient ticketKey earlier latest
              found epicGroups w Hget Hfound Hne Horg Hrw)
    as (w' & E & Hfile & Hin).
  exists w'. rewrite (main_ticket_mode _ _ _ _ _ _ _ Harg).
  unfold try_catch. rewrite E. auto.
Qed.

Lemma ticket_run_writes_commands_witness :
  exists w',
    main Examples.env (Some "PROJ-123") Examples.tracker Examples.Date_getTime
      5 Examples.stale
    = Some (Normal Done, w')
    /\ slack_commands_md w'
       = Some ("/pp https://x.atlassian.net/browse/T-2 Write docs" ++ LF ++ LF
               ++ "/pp https://x.atlassian.net/browse/T-1 Fix bug" ++ LF
               ++ LF).
Proof.
  destruct (ticket_run_writes_commands Examples.env (Some "PROJ-123")
              Examples.tracker Examples.Date_getTime 5 "PROJ-123"
              [Examples.S1] Examples.S2 [Examples.T1; Examples.T2]
              [(NO_EPIC, mkGroup "Tasks without Epic" [Examples.T2]);
               ("EPIC-1", mkGroup "Login" [Examples.T1])]
              Examples.stale)
    as (w' & E & Hfile & _); try reflexivity; [discriminate|].
  exists w'. split; [exact E | exact Hfile].
Defined.

(** X16. In ticket mode, when the tickets were found and the grouper throws
    or the file cannot be written, the error is caught: the run ends as
    failed, with the error as the last line logged, and the file as it
    was. *)
Theorem ticket_run_catches_errors {engine : Engine}
  (process_env : string -> option string) (process_argv_2 : option string)
  (jiraClient : Http) (Date_getTime : string -> option Z) (fuel : nat)
  (ticketKey : string) (earlier : list Sprint) (latest : Sprint)
  (found : list JiraIssue) (w : World) :
  ticket_argument process_argv_2 = Some ticketKey ->
  get_agile_issue jiraClient ticketKey
  = Resolved (Some (mkAgileIssue (Some (js_array (earlier ++ [latest]))))) ->
  get_search jiraClient (ready_to_size_jql (sprint_id latest))
  = Resolved (Some (mkSearch (Some found))) ->
  found <> [] ->
  has_inherited_key found = true \/ fs_read_only w = true ->
  exists error w',
    main process_env process_argv_2 jiraClient Date_getTime fuel w
    = Some (Normal Failed, w')
    /\ last_entry w'
       = Some (console_error_entry "An error occurred:" (Some error))
    /\ slack_commands_md w' = slack_commands_md w.
Proof.
  intros Harg Hget Hsearch Hne Hcause.
  assert (Hfound : ready_value jiraClient (sprint_id latest) = found)
    by (unfold ready_value; now rewrite Hsearch).
  destruct (ticket_mode_fails process_env jiraClient ticketKey earlier latest
              found w Hget Hfound Hne) as (error & w1 & E & L).
  { destruct Hcause as [Hbad|Hro]; [left | now right].
    exists TypeError.
    now apply organizeIssuesByEpic_inherited. }
  exists error. rewrite (main_ticket_mode _ _ _ _ _ _ _ Harg).
  unfold try_catch. rewrite E. unfold bind, console_error, ret.
  eexists. split; [reflexivity|]. split; [apply last_entry_snoc|].
  cbn [slack_commands_md]. apply L.
Qed.

Lemma ticket_run_catches_errors_witness :
  exists error w',
    main Examples.env (Some "PROJ-123") Examples.tracker Examples.Date_getTime
      5 (mkWorld [] (Some "old content") true)
    = Some (Normal Failed, w')
    /\ last_entry w'
       = Some (console_error_entry "An error occurred:" (Some error))
    /\ slack_commands_md w' = Some "old content".
Proof.
  apply (ticket_run_catches_errors Examples.env (Some "PROJ-123")
           Examples.tracker Examples.Date_getTime 5 "PROJ-123"
           [Examples.S1] Examples.S2 [Examples.T1; Examples.T2]
           (mkWorld [] (Some "old content") true));
    try reflexivity; [discriminate | now right].
Defined.

(** X17. In board mode, when [getAllSprints] returned sprints for the
    configured board, the selector picked one, the query for it brought
    tickets and the grouper returned, the run ends through the report: the
    console shows the commands rendered from the groups of those tickets, and
    nothing but the console has changed. *)
Theorem board_run_prints_commands {engine : Engine}
  (process_env : string -> option string) (process_argv_2 : option string)
  (jiraClient : Http) (Date_getTime : string -> option Z) (fuel : nat)
  (allSprints : list Sprint) (sprint : Sprint)
  (found : list JiraIssue) (epicGroups : EpicGroup) (w : World) :
  ticket_argument process_argv_2 = None ->
  getAllSprints_value jiraClient Date_getTime fuel (JIRA_BOARD_ID process_env)
  = Some allSprints ->
  selectNextSprint allSprints = Some sprint ->
  get_search jiraClient (ready_to_size_jql (sprint_id sprint))
  = Resolved (Some (mkSearch (Some found))) ->
  found <> [] ->
  organizeIssuesByEpic found = Normal epicGroups ->
  exists w',
    main process_env process_argv_2 jiraClient Date_getTime fuel w
    = Some (Normal Done, w')
    /\ logged_only w w'
    /\ In (console_log_entry
             (generateSlackCommands (JIRA_BASE_URL process_env) epicGroups))
          (console w').
Proof.
  intros Harg Hall Hsel Hsearch Hne Horg.
  assert (Hfound : ready_value jiraClient (sprint_id sprint) = found)
    by (unfold ready_value; now rewrite Hsearch).
  destruct (board_mode_done process_env jiraClient Date_getTime fuel allSprints
              sprint found epicGroups w Hall Hsel Hfound Hne Horg)
    as (w' & E & L & Hin).
  exists w'. rewrite (main_board_mode _ _ _ _ _ _ Harg).
  unfold try_catch. rewrite E. auto.
Qed.

Lemma board_run_prints_commands_witness :
  exists w',
    main Examples.env None Examples.tracker Examples.Date_getTime 5
      Examples.stale
    = Some (Normal Done, w')
    /\ slack_commands_md w' = Some "old content"
    /\ In (console_log_entry
             ("/pp https://x.atlassian.net/browse/T-2 Write docs" ++ LF ++ LF
              ++ "/pp https://x.atlassian.net/browse/T-1 Fix bug" ++ LF ++ LF))
          (console w').
Proof.
  destruct (board_run_prints_commands Examples.env None Examples.tracker
              Examples.Date_getTime 5
              [Examples.march; Examples.february; Examples.january]
              Examples.march [Examples.T1; Examples.T2]
              [(NO_EPIC, mkGroup "Tasks without Epic" [Examples.T2]);
               ("EPIC-1", mkGroup "Login" [Examples.T1])]
              Examples.stale)
    as (w' & E & L & Hin); try reflexivity; [discriminate|].
  exists w'. split; [exact E|]. split; [apply L | exact Hin].
Defined.

(** ** The diagnostic path *)

Lemma bind_assoc {A B C} (m : IO A) (f : A -> IO B) (g : B -> IO C) w :
  bind (bind m f) g w = bind m (fun a => bind (f a) g) w.
Proof.
  unfold bind. destruct (m w) as [[[a|e] w1]|]; reflexivity.
Qed.

Section DiagnosticFacts.
Variable jiraClient : Http.
Variable diagnostics : Diagnostics.
Variable Date_getTime : string -> option Z.
Context {engine : Engine}.

Lemma only_logs_getAllBoards : only_logs (getAllBoards diagnostics).
Proof. unfold getAllBoards. repeat only_logs_step. Qed.

Lemma getAllBoards_returns w :
  exists w',
    getAllBoards diagnostics w = Some (Normal (boards_value diagnostics), w')
    /\ logged_only w w'
    /\ (get_boards diagnostics = Rejected ->
        last_entry w'
        = Some (console_error_entry "Error fetching boards:"
                  (Some RequestError))).
Proof.
  assert (E : exists w',
             getAllBoards diagnostics w
             = Some (Normal (boards_value diagnostics), w')
             /\ (get_boards diagnostics = Rejected ->
                 last_entry w'
                 = Some (console_error_entry "Error fetching boards:"
                           (Some RequestError)))).
  { unfold getAllBoards, boards_value, try_catch, bind, await.
    destruct (get_boards diagnostics) as [|[[[boards|]]|]]; cbn; eexists;
      (split; [reflexivity|]); try discriminate.
    intros _. apply last_entry_snoc. }
  destruct E as (w' & E & Hlast). exists w'. split; [exact E|].
  split; [exact (only_logs_getAllBoards w _ _ E) | exact Hlast].
Qed.

Lemma only_logs_find_board fuel boards sprint :
  only_logs (find_board jiraClient Date_getTime fuel boards sprint).
Proof.
  induction boards as [|board rest IH]; cbn [find_board].
  - apply only_logs_ret.
  - repeat first [apply only_logs_getAllSprints | exact IH | only_logs_step].
Qed.

Lemma find_matching (found : list Sprint) (id : Z) :
  (exists s, In s found /\ sprint_id s = id) ->
  exists s, find (fun s => sprint_id s =? id) found = Some s.
Proof.
  intros (s & Hin & Hid).
  destruct (find (fun s => sprint_id s =? id) found) as [x|] eqn:E; [eauto|].
  pose proof (List.find_none _ _ E s Hin) as H. cbv beta in H.
  apply Z.eqb_neq in H. congruence.
Qed.

Lemma find_missing (found : list Sprint) (id : Z) :
  (forall s, In s found -> sprint_id s <> id) ->
  find (fun s => sprint_id s =? id) found = None.
Proof.
  intros H. apply find_none. intros s Hin. apply Z.eqb_neq. now apply H.
Qed.

Lemma find_board_none fuel boards sprint : forall w,
  Forall (board_lacks jiraClient Date_getTime fuel (sprint_id sprint)) boards ->
  exists w',
    find_board jiraClient Date_getTime fuel boards sprint w
    = Some (Normal None, w').
Proof.
  induction boards as [|board rest IH]; intros w Hlacks; cbn [find_board].
  - unfold ret. eauto.
  - inversion Hlacks as [|? ? (found & Hv & Hno) Hrest]; subst.
    rewrite (bind_eq _ _ _ _ _ eq_refl).
    match goal with
    | |- context [bind (getAllSprints _ _ _ _) _ ?w1] =>
        destruct (getAllSprints_value_returns _ _ _ _ _ w1 Hv)
          as (w2 & E2 & _)
    end.
    rewrite (bind_eq _ _ _ _ _ E2), (find_missing _ _ Hno). now apply IH.
Qed.

Lemma find_board_first fuel before board after sprint : forall w,
  Forall (board_lacks jiraClient Date_getTime fuel (sprint_id sprint)) before ->
  board_lists jiraClient Date_getTime fuel (sprint_id sprint) board ->
  exists w',
    find_board jiraClient Date_getTime fuel (before ++ board :: after) sprint w
    = Some (Normal (Some (board_id board)), w').
Proof.
  induction before as [|other before IH]; intros w Hlacks Hlists;
    cbn [find_board app].
  - destruct Hlists as (found & s & Hv & Hin & Hid).
    rewrite (bind_eq _ _ _ _ _ eq_refl).
    match goal with
    | |- context [bind (getAllSprints _ _ _ _) _ ?w1] =>
        destruct (getAllSprints_value_returns _ _ _ _ _ w1 Hv)
          as (w2 & E2 & _)
    end.
    rewrite (bind_eq _ _ _ _ _ E2).
    destruct (find_matching found (sprint_id sprint)) as (x & ->); [eauto|].
    unfold bind, console_log, ret. eauto.
  - inversion Hlacks as [|? ? (found & Hv & Hno) Hrest]; subst.
    rewrite (bind_eq _ _ _ _ _ eq_refl).
    match goal with
    | |- context [bind (getAllSprints _ _ _ _) _ ?w1] =>
        destruct (getAllSprints_value_returns _ _ _ _ _ w1 Hv)
          as (w2 & E2 & _)
    end.
    rewrite (bind_eq _ _ _ _ _ E2), (find_missing _ _ Hno). now apply IH.
Qed.

Lemma only_logs_checkSpecificTicket fuel ticketKey :
  only_logs (checkSpecificTicket jiraClient diagnostics Date_getTime fuel
               ticketKey).
Proof.
  unfold checkSpecificTicket.
  repeat first [ apply only_logs_getAllBoards
               | apply only_logs_find_board
               | only_logs_step ].
Qed.

(** The run of [checkSpecificTicket] on a ticket whose sprint field ends
    with a sprint, up to what the loop over the boards returns. *)
Lemma check_lookup fuel earlier latest returned w
  (k : option Z * option Z -> IO (option Z)) :
  (forall w1, exists w2,
      find_board jiraClient Date_getTime fuel (boards_value diagnostics)
        latest w1
      = Some (Normal returned, w2)) ->
  exists w',
    bind
      (if truthy (js_array (earlier ++ [latest]))
          && Array_isArray (js_array (earlier ++ [latest]))
          && (0 <? length (elements_of (js_array (earlier ++ [latest]))))%nat
       then
         match nth_error (elements_of (js_array (earlier ++ [latest])))
                 (length (elements_of (js_array (earlier ++ [latest]))) - 1)
         with
         | Some sprint =>
             console_log ("Sprint: " ++ sprint_name sprint ++ " (ID: "
                          ++ Number_toString (sprint_id sprint) ++ ")") ;;
             console_log ("Sprint State: " ++ sprint_state sprint) ;;
             console_log "Searching for the board containing this sprint..." ;;
             boards <- getAllBoards diagnostics ;;
             console_log ("Found " ++ length_toString boards
                          ++ " boards in total") ;;
             returned <- find_board jiraClient Date_getTime fuel boards sprint ;;
             ret (Some (sprint_id sprint), returned)
         | None => throw TypeError
         end
       else
         console_log "This ticket is not in any sprint" ;;
         ret (None, None)) k w
    = k (Some (sprint_id latest), returned) w'.
Proof.
  intros Hfind.
  cbn [truthy Array_isArray elements_of andb]. rewrite nth_error_last.
  assert (Hlen : (0 <? length (earlier ++ [latest]))%nat = true).
  { apply Nat.ltb_lt. rewrite length_app. simpl. lia. }
  rewrite Hlen.
  rewrite bind_assoc, (bind_eq _ _ _ _ _ eq_refl).
  rewrite bind_assoc, (bind_eq _ _ _ _ _ eq_refl).
  rewrite bind_assoc, (bind_eq _ _ _ _ _ eq_refl).
  rewrite bind_assoc.
  match goal with
  | |- context [bind (getAllBoards _) _ ?w1] =>
      destruct (getAllBoards_returns w1) as (w2 & E2 & _)
  end.
  rewrite (bind_eq _ _ _ _ _ E2).
  rewrite bind_assoc, (bind_eq _ _ _ _ _ eq_refl).
  rewrite bind_assoc.
  match goal with
  | |- context [bind (find_board _ _ _ _ _) _ ?w3] =>
      destruct (Hfind w3) as (w4 & E4)
  end.
  rewrite (bind_eq _ _ _ _ _ E4), (bind_eq _ _ _ _ _ eq_refl).
  now exists w4.
Qed.

Lemma checkSpecificTicket_board fuel ticketKey status earlier latest boardId w :
  get_issue diagnostics ticketKey
  = Resolved (Some (mkTicketDetail status (js_array (earlier ++ [latest])))) ->
  (forall w1, exists w2,
      find_board jiraClient Date_getTime fuel (boards_value diagnostics)
        latest w1
      = Some (Normal (Some boardId), w2)) ->
  exists w',
    checkSpecificTicket jiraClient diagnostics Date_getTime fuel ticketKey w
    = Some (Normal (Some boardId), w').
Proof.
  intros Hget Hfind. unfold checkSpecificTicket, try_catch.
  rewrite (bind_eq _ _ _ _ _ eq_refl), Hget.
  rewrite (bind_eq _ _ _ _ _ eq_refl), (bind_eq _ _ _ _ _ eq_refl).
  rewrite (bind_eq _ _ _ _ _ eq_refl).
  cbv zeta. cbn [detail_cf10007].
  match goal with
  | |- context [bind _ ?k ?w4] =>
      destruct (check_lookup fuel earlier latest (Some boardId) w4 k Hfind)
        as (w5 & E5)
  end.
  rewrite E5. cbn [snd ret]. eauto.
Qed.

Lemma checkSpecificTicket_fallback fuel ticketKey status earlier latest w :
  get_issue diagnostics ticketKey
  = Resolved (Some (mkTicketDetail status (js_array (earlier ++ [latest])))) ->
  (forall w1, exists w2,
      find_board jiraClient Date_getTime fuel (boards_value diagnostics)
        latest w1
      = Some (Normal None, w2)) ->
  exists w',
    checkSpecificTicket jiraClient diagnostics Date_getTime fuel ticketKey w
    = Some (Normal
              match get_search jiraClient
                      ("key = " ++ ticketKey ++ " AND status = " ++ dquote
                       ++ "Ready to Size" ++ dquote) with
              | Resolved (Some _) => sprintId_result (Some (sprint_id latest))
              | _ => None
              end, w').
Proof.
  intros Hget Hfind. unfold checkSpecificTicket, try_catch.
  rewrite (bind_eq _ _ _ _ _ eq_refl), Hget.
  rewrite (bind_eq _ _ _ _ _ eq_refl), (bind_eq _ _ _ _ _ eq_refl).
  rewrite (bind_eq _ _ _ _ _ eq_refl).
  cbv zeta. cbn [detail_cf10007].
  match goal with
  | |- context [bind _ ?k ?w4] =>
      destruct (check_lookup fuel earlier latest None w4 k Hfind)
        as (w5 & E5)
  end.
  rewrite E5. cbn [snd fst]. rewrite (bind_eq _ _ _ _ _ eq_refl).
  destruct (get_search jiraClient _) as [|[[[[|i rest]|]]|]];
    eexists; reflexivity.
Qed.

Lemma checkSpecificTicket_no_sprint fuel ticketKey status field w :
  get_issue diagnostics ticketKey
  = Resolved (Some (mkTicketDetail status field)) ->
  truthy field && Array_isArray field
  && (0 <? length (elements_of field))%nat = false ->
  exists w',
    checkSpecificTicket jiraClient diagnostics Date_getTime fuel ticketKey w
    = Some (Normal None, w').
Proof.
  intros Hget Hfield. unfold checkSpecificTicket, try_catch.
  rewrite (bind_eq _ _ _ _ _ eq_refl), Hget.
  rewrite (bind_eq _ _ _ _ _ eq_refl), (bind_eq _ _ _ _ _ eq_refl).
  rewrite (bind_eq _ _ _ _ _ eq_refl).
  cbv zeta. cbn [detail_cf10007]. rewrite Hfield.
  rewrite bind_assoc, (bind_eq _ _ _ _ _ eq_refl), (bind_eq _ _ _ _ _ eq_refl).
  cbn [snd fst]. rewrite (bind_eq _ _ _ _ _ eq_refl).
  destruct (get_search jiraClient _) as [|[[[[|i rest]|]]|]];
    eexists; reflexivity.
Qed.

Lemma checkSpecificTicket_no_ticket fuel ticketKey w :
  get_issue diagnostics ticketKey = Rejected
  \/ get_issue diagnostics ticketKey = Resolved None ->
  exists w',
    checkSpecificTicket jiraClient diagnostics Date_getTime fuel ticketKey w
    = Some (Normal None, w').
Proof.
  unfold checkSpecificTicket, try_catch.
  rewrite (bind_eq _ _ _ _ _ eq_refl).
  intros [H|H]; rewrite H; eexists; reflexivity.
Qed.

Lemma checkSpecificTicket_normal fuel ticketKey w r w' :
  checkSpecificTicket jiraClient diagnostics Date_getTime fuel ticketKey w
  = Some (r, w') ->
  exists v, r = Normal v.
Proof.
  unfold checkSpecificTicket. intros E.
  refine (try_catch_normal _ _ w _ _ _ E).
  intros e w1. apply log_then_ret_normal.
Qed.

End DiagnosticFacts.

(** X18. [getAllBoards] always returns, never throws and touches nothing
    but the console: it returns the boards of the answer, and no board when
    the request fails (the error is then the last line logged) or the answer
    holds none. *)
Theorem getAllBoards_value (diagnostics : Diagnostics) (w : World) :
  exists w',
    getAllBoards diagnostics w
    = Some (Normal
              match get_boards diagnostics with
              | Resolved (Some (mkBoards (Some boards))) => boards
              | _ => []
              end, w')
    /\ logged_only w w'
    /\ (get_boards diagnostics = Rejected ->
        last_entry w'
        = Some (console_error_entry "Error fetching boards:"
                  (Some RequestError))).
Proof. apply getAllBoards_returns. Qed.

Lemma getAllBoards_value_witness :
  exists w',
    getAllBoards (mkDiagnostics Rejected (fun _ => Rejected)) Examples.fresh
    = Some (Normal [], w')
    /\ last_entry w'
       = Some (console_error_entry "Error fetching boards:"
                 (Some RequestError)).
Proof.
  destruct (getAllBoards_value (mkDiagnostics Rejected (fun _ => Rejected))
              Examples.fresh) as (w' & E & _ & Hlast).
  exists w'. split; [exact E | now apply Hlast].
Defined.

(** X19. [checkSpecificTicket] never throws and touches nothing but the
    console: whenever it returns, it returns a value, and the output file is
    as it was. *)
Theorem checkSpecificTicket_never_throws {engine : Engine}
  (jiraClient : Http) (diagnostics : Diagnostics)
  (Date_getTime : string -> option Z) (fuel : nat) (ticketKey : string)
  (w w' : World) (r : Completion (option Z)) :
  checkSpecificTicket jiraClient diagnostics Date_getTime fuel ticketKey w
  = Some (r, w') ->
  (exists v, r = Normal v) /\ logged_only w w'.
Proof.
  intros E. split.
  - exact (checkSpecificTicket_normal _ _ _ _ _ _ _ _ E).
  - exact (only_logs_checkSpecificTicket _ _ _ _ _ _ _ _ E).
Qed.

Lemma checkSpecificTicket_never_throws_witness :
  exists w',
    checkSpecificTicket Examples.unreachable
      (mkDiagnostics Rejected (fun _ => Rejected)) Examples.Date_getTime 5
      "PROJ-123" Examples.stale
    = Some (Normal None, w')
    /\ logged_only Examples.stale w'.
Proof.
  assert (E : exists w',
             checkSpecificTicket Examples.unreachable
               (mkDiagnostics Rejected (fun _ => Rejected))
               Examples.Date_getTime 5 "PROJ-123" Examples.stale
             = Some (Normal None, w'))
    by (vm_compute; eexists; reflexivity).
  destruct E as (w' & E). exists w'. split; [exact E|].
  exact (proj2 (checkSpecificTicket_never_throws _ _ _ _ _ _ _ _ E)).
Defined.

(** X20. [checkSpecificTicket] returns nothing when the request for the
    ticket fails or its answer has no data, and when the sprint field of the
    ticket is not a non-empty array - then whatever the direct search
    finds. *)
Theorem checkSpecificTicket_null {engine : Engine}
  (jiraClient : Http) (diagnostics : Diagnostics)
  (Date_getTime : string -> option Z) (fuel : nat) (ticketKey : string)
  (w : World) :
  (get_issue diagnostics ticketKey = Rejected
   \/ get_issue diagnostics ticketKey = Resolved None ->
   exists w',
     checkSpecificTicket jiraClient diagnostics Date_getTime fuel ticketKey w
     = Some (Normal None, w'))
  /\ (forall status field,
      get_issue diagnostics ticketKey
      = Resolved (Some (mkTicketDetail status field)) ->
      truthy field && Array_isArray field
      && (0 <? length (elements_of field))%nat = false ->
      exists w',
        checkSpecificTicket jiraClient diagnostics Date_getTime fuel ticketKey
          w
        = Some (Normal None, w')).
Proof.
  split.
  - apply checkSpecificTicket_no_ticket.
  - intros status field. apply checkSpecificTicket_no_sprint.
Qed.

Lemma checkSpecificTicket_null_witness :
  exists w',
    checkSpecificTicket MoreExamples.two_boards
      MoreExamples.ticket_without_sprint Examples.Date_getTime 5 "PROJ-123"
      Examples.fresh
    = Some (Normal None, w').
Proof.
  destruct (checkSpecificTicket_null MoreExamples.two_boards
              MoreExamples.ticket_without_sprint Examples.Date_getTime 5
              "PROJ-123" Examples.fresh) as [_ Hfield].
  apply (Hfield "Ready to Size" (js_array [])); reflexivity.
Defined.

(** X21. When the sprint field of the ticket ends with a sprint,
    [checkSpecificTicket] returns the identifier of the first board, in the
    order of the board listing, whose sprints as [getAllSprints] returns them
    hold a sprint with the identifier of that sprint. *)
Theorem checkSpecificTicket_first_board {engine : Engine}
  (jiraClient : Http) (diagnostics : Diagnostics)
  (Date_getTime : string -> option Z) (fuel : nat) (ticketKey : string)
  (status : string) (earlier : list Sprint) (latest : Sprint)
  (before : list Board) (board : Board) (after : list Board) (w : World) :
  get_issue diagnostics ticketKey
  = Resolved (Some (mkTicketDetail status (js_array (earlier ++ [latest])))) ->
  get_boards diagnostics
  = Resolved (Some (mkBoards (Some (before ++ board :: after)%list))) ->
  Forall (board_lacks jiraClient Date_getTime fuel (sprint_id latest)) before ->
  board_lists jiraClient Date_getTime fuel (sprint_id latest) board ->
  exists w',
    checkSpecificTicket jiraClient diagnostics Date_getTime fuel ticketKey w
    = Some (Normal (Some (board_id board)), w').
Proof.
  intros Hget Hboards Hlacks Hlists.
  apply (checkSpecificTicket_board _ _ _ _ _ status earlier latest); [exact Hget|].
  intros w1. unfold boards_value. rewrite Hboards.
  now apply find_board_first.
Qed.

Lemma checkSpecificTicket_first_board_witness :
  exists w',
    checkSpecificTicket MoreExamples.two_boards MoreExamples.ticket_in_march
      Examples.Date_getTime 5 "PROJ-123" Examples.fresh
    = Some (Normal (Some 42), w').
Proof.
  apply (checkSpecificTicket_first_board MoreExamples.two_boards
           MoreExamples.ticket_in_march Examples.Date_getTime 5 "PROJ-123"
           "Ready to Size" [Examples.january] Examples.march
           [mkBoard 7 "Ops"] (mkBoard 42 "Dev") []).
  - reflexivity.
  - reflexivity.
  - constructor; [|constructor]. exists []. split; [reflexivity|].
    intros s [].
  - exists [Examples.march], Examples.march.
    split; [reflexivity|]. split; [now left | reflexivity].
Defined.

(** X22. When no listed board holds the last sprint of the ticket,
    [checkSpecificTicket] falls back on the direct search.  It returns
    nothing when that request fails or its answer has no data, or when the
    identifier of the sprint is 0; otherwise it returns what [parseInt] reads
    in the print of the identifier of that sprint - a sprint identifier where
    the other return is a board identifier.  On a conforming engine that is
    the identifier itself when it is a safe integer. *)
Theorem checkSpecificTicket_falls_back
  {engine : Engine} (jiraClient : Http) (diagnostics : Diagnostics)
  (Date_getTime : string -> option Z) (fuel : nat) (ticketKey : string)
  (status : string) (earlier : list Sprint) (latest : Sprint) (w : World) :
  get_issue diagnostics ticketKey
  = Resolved (Some (mkTicketDetail status (js_array (earlier ++ [latest])))) ->
  Forall (board_lacks jiraClient Date_getTime fuel (sprint_id latest))
    (boards_value diagnostics) ->
  (exists w',
      checkSpecificTicket jiraClient diagnostics Date_getTime fuel ticketKey w
      = Some (Normal
                match get_search jiraClient
                        ("key = " ++ ticketKey ++ " AND status = " ++ dquote
                         ++ "Ready to Size" ++ dquote) with
                | Resolved (Some _) =>
                    if sprint_id latest =? 0 then None
                    else Some (parseInt (Number_toString (sprint_id latest)))
                | _ => None
                end, w'))
  /\ (Conforming engine ->
      isSafeInteger (sprint_id latest) = true ->
      parseInt (Number_toString (sprint_id latest)) = sprint_id latest).
Proof.
  intros Hget Hlacks. split.
  - apply (checkSpecificTicket_fallback _ _ _ _ _ status earlier latest);
      [exact Hget|].
    intros w1. now apply find_board_none.
  - intros Hengine Hsafe.
    rewrite (toString_safe engine Hengine _ Hsafe).
    now apply (parseInt_safe engine Hengine).
Qed.

Lemma checkSpecificTicket_falls_back_witness :
  exists w',
    checkSpecificTicket MoreExamples.two_boards
      MoreExamples.ticket_in_february Examples.Date_getTime 5 "PROJ-123"
      Examples.fresh
    = Some (Normal (Some 4), w').
Proof.
  destruct (checkSpecificTicket_falls_back MoreExamples.two_boards
              MoreExamples.ticket_in_february Examples.Date_getTime 5
              "PROJ-123" "Ready to Size" [] Examples.february Examples.fresh)
    as ((w' & Hret) & Hid).
  - reflexivity.
  - constructor; [|constructor; [|constructor]].
    + exists []. split; [reflexivity|]. intros s [].
    + exists [Examples.march]. split; [reflexivity|].
      intros s [<-|[]]. discriminate.
  - exists w'. rewrite Hret. cbn [MoreExamples.two_boards get_search].
    change (sprint_id Examples.february =? 0) with false. cbv iota.
    now rewrite (Hid simple_engine_conforms eq_refl).
Defined.
